(** * Script Blueprint Generator: the generation engine of [src/App.tsx]

    A shallow embedding of the state-handling callbacks of the [App]
    component (blueprint list, custom snippets, placeholder substitution,
    script generation and the syntax checker) together with the
    properties the specification states about them.

    Conventions.
    - A JavaScript string is a [string]: a sequence of code units, here the
      code units below 256.
    - A JavaScript object used as a dictionary ([Record<string, string>],
      [GlobalConfig]) is the list of its entries in the order in which
      [Object.entries] enumerates them; the generator iterates over them
      in that order and [JSON.stringify] prints them in that order.
    - [useState] cells are the fields of [AppState]; a callback is a
      function from the state (and its arguments) to the next state and
      the toast it raises.
    - [Date.now()], [Math.random()] and [new Date().toISOString()] are
      inputs of the callbacks that read them. *)

From Stdlib Require Import String Ascii List Arith ZArith Lia Bool.
From Stdlib Require Import Permutation Sorted DecimalString DecimalNat.
Import ListNotations.
Open Scope string_scope.

(** ** Host primitives on strings *)

Module JS.

(** Outcome of evaluating a piece of script: a value, the [SyntaxError]
    that [new RegExp] throws on a pattern it rejects, or [Unmodelled] for a
    pattern whose regular-expression operators are not interpreted here. *)
Inductive completion (A : Type) : Type :=
| Normal (a : A)
| SyntaxErrorThrown
| Unmodelled.
Arguments Normal {A} a.
Arguments SyntaxErrorThrown {A}.
Arguments Unmodelled {A}.

Definition bind {A B : Type} (c : completion A) (k : A -> completion B) : completion B :=
  match c with
  | Normal a => k a
  | SyntaxErrorThrown => SyntaxErrorThrown
  | Unmodelled => Unmodelled
  end.

(** [s.length === 0], the falsiness of a string. *)
Definition is_empty (s : string) : bool :=
  match s with
  | EmptyString => true
  | String _ _ => false
  end.

Fixpoint all_chars (p : ascii -> bool) (s : string) : bool :=
  match s with
  | EmptyString => true
  | String c s' => p c && all_chars p s'
  end.

Fixpoint some_char (p : ascii -> bool) (s : string) : bool :=
  match s with
  | EmptyString => false
  | String c s' => p c || some_char p s'
  end.

(** [s.substring(n)] *)
Fixpoint drop (n : nat) (s : string) : string :=
  match n, s with
  | O, _ => s
  | S _, EmptyString => EmptyString
  | S k, String _ s' => drop k s'
  end.

(** [s.includes(pat)] *)
Fixpoint includes (s pat : string) : bool :=
  prefix pat s ||
  match s with
  | EmptyString => false
  | String _ s' => includes s' pat
  end.

(** [(s.match(/c/g) || []).length] for a one-character pattern. *)
Fixpoint count_char (c : ascii) (s : string) : nat :=
  match s with
  | EmptyString => 0
  | String a s' => (if Ascii.eqb a c then 1 else 0) + count_char c s'
  end.

(** White space and line terminators removed by [trim], among the code
    units below 256: TAB, LF, VT, FF, CR, SP and NBSP. *)
Definition is_white_space (c : ascii) : bool :=
  existsb (Nat.eqb (nat_of_ascii c)) [9; 10; 11; 12; 13; 32; 160].

Fixpoint trimStart (s : string) : string :=
  match s with
  | EmptyString => EmptyString
  | String c s' => if is_white_space c then trimStart s' else s
  end.

Fixpoint trimEnd (s : string) : string :=
  match s with
  | EmptyString => EmptyString
  | String c s' =>
      let r := trimEnd s' in
      if is_white_space c && is_empty r then EmptyString else String c r
  end.

Definition trim (s : string) : string := trimEnd (trimStart s).

(** [s.split(sep)] for a one-character separator. *)
Fixpoint split (sep : ascii) (s : string) : list string :=
  match s with
  | EmptyString => [EmptyString]
  | String c s' =>
      let r := split sep s' in
      if Ascii.eqb c sep then EmptyString :: r
      else match r with
           | h :: t => String c h :: t
           | [] => [String c EmptyString]
           end
  end.

(** [parts.join(sep)] *)
Definition join (sep : string) (parts : list string) : string := String.concat sep parts.

(** Template-literal interpolation of a non-negative integer. *)
Definition string_of_nat (n : nat) : string := NilZero.string_of_uint (Nat.to_uint n).

(** [arr.map((x, index) => f x index)] *)
Fixpoint mapi_from {A B : Type} (f : A -> nat -> B) (start : nat) (l : list A) : list B :=
  match l with
  | [] => []
  | x :: r => f x start :: mapi_from f (S start) r
  end.

Definition mapi {A B : Type} (f : A -> nat -> B) (l : list A) : list B := mapi_from f 0 l.

(** [arr.sort(compareFn)]: the sort is stable, and [compareFn a b <= 0]
    keeps [a] before [b]. *)
Fixpoint sort_insert {A : Type} (compareFn : A -> A -> Z) (a : A) (l : list A) : list A :=
  match l with
  | [] => [a]
  | b :: r => if (compareFn a b <=? 0)%Z then a :: l else b :: sort_insert compareFn a r
  end.

Fixpoint sort {A : Type} (compareFn : A -> A -> Z) (l : list A) : list A :=
  match l with
  | [] => []
  | a :: r => sort_insert compareFn a (sort compareFn r)
  end.

(** *** Regular-expression replacement

    [str.replace(new RegExp(pattern, 'g'), replacement)].  The pattern is
    interpreted for the two classes of source text that matter to the
    generator.  A non-empty pattern free of syntax characters matches
    itself, case-sensitively.  A pattern with an opening parenthesis and
    without closing parenthesis, bracket or backslash opens a group that
    nothing closes, and the constructor throws.  Other patterns are left
    uninterpreted. *)

Definition is_syntax_character (c : ascii) : bool :=
  existsb (Ascii.eqb c)
    ["^"; "$"; "\"; "."; "*"; "+"; "?"; "("; ")"; "["; "]"; "{"; "}"; "|"]%char.

Definition is_literal_pattern (pattern : string) : bool :=
  negb (is_empty pattern) && all_chars (fun c => negb (is_syntax_character c)) pattern.

Definition has_unterminated_group (pattern : string) : bool :=
  some_char (Ascii.eqb "(") pattern &&
  negb (some_char (fun c => existsb (Ascii.eqb c) [")"; "["; "\"]%char) pattern).

(** GetSubstitution for a match without capture groups: only the
    dollar forms that do not name a group are special. *)
Fixpoint GetSubstitution (matched before after template : string) : string :=
  match template with
  | EmptyString => EmptyString
  | String c rest =>
      match rest with
      | String d rest' =>
          if Ascii.eqb c "$" then
            if Ascii.eqb d "$" then String "$" (GetSubstitution matched before after rest')
            else if Ascii.eqb d "&" then matched ++ GetSubstitution matched before after rest'
            else if Ascii.eqb d "`" then before ++ GetSubstitution matched before after rest'
            else if Ascii.eqb d "'" then after ++ GetSubstitution matched before after rest'
            else String c (GetSubstitution matched before after rest)
          else String c (GetSubstitution matched before after rest)
      | EmptyString => String c EmptyString
      end
  end.

(** Left-to-right scan for the non-overlapping matches of a literal,
    non-empty pattern.  [skip] counts the code units of the current match
    still to be consumed and [before] is the text already scanned. *)
Fixpoint replace_scan (pattern replacement : string) (skip : nat) (before s : string) : string :=
  match s with
  | EmptyString => EmptyString
  | String c s' =>
      match skip with
      | S k => replace_scan pattern replacement k (before ++ String c EmptyString) s'
      | O =>
          if prefix pattern s then
            GetSubstitution pattern before (drop (String.length pattern) s) replacement ++
            replace_scan pattern replacement (String.length pattern - 1) (before ++ String c EmptyString) s'
          else
            String c (replace_scan pattern replacement 0 (before ++ String c EmptyString) s')
      end
  end.

Definition replace_RegExp_g (pattern replacement str : string) : completion string :=
  if is_literal_pattern pattern then Normal (replace_scan pattern replacement 0 EmptyString str)
  else if has_unterminated_group pattern then SyntaxErrorThrown
  else Unmodelled.

(** *** JSON.stringify on strings *)

Definition hex_digit (n : nat) : ascii :=
  if (n <? 10)%nat then ascii_of_nat (48 + n) else ascii_of_nat (87 + n).

(** QuoteJSONString, one code unit. *)
Definition quote_code_unit (c : ascii) : string :=
  let n := nat_of_ascii c in
  if (n =? 8)%nat then "\b"
  else if (n =? 9)%nat then "\t"
  else if (n =? 10)%nat then "\n"
  else if (n =? 12)%nat then "\f"
  else if (n =? 13)%nat then "\r"
  else if (n =? 34)%nat then String "\" (String c EmptyString)
  else if (n =? 92)%nat then "\\"
  else if (n <? 32)%nat then "\u00" ++ String (hex_digit (n / 16)) (String (hex_digit (n mod 16)) EmptyString)
  else String c EmptyString.

Fixpoint quote_body (s : string) : string :=
  match s with
  | EmptyString => EmptyString
  | String c s' => quote_code_unit c ++ quote_body s'
  end.

Definition double_quote : string := String (ascii_of_nat 34) EmptyString.

Definition QuoteJSONString (s : string) : string := double_quote ++ quote_body s ++ double_quote.

End JS.

Import JS.

(** ** Data model: the interfaces of [App.tsx] *)

Record Snippet : Type := {
  snippet_id : string;
  name : string;
  description : string;
  category : string;
  code : string;
  parameters : option (list string);
  isCustom : option bool
}.

Record Blueprint : Type := {
  id : string;
  snippet : Snippet;
  order : nat;
  customParams : option (list (string * string))
}.

Record ConfigVar : Type := {
  var_name : string;
  label : string;
  value : string
}.

(** [interface GlobalConfig { [key: string]: {name, label, value} }] *)
Definition GlobalConfig : Type := list (string * ConfigVar).

Inductive Variant : Type := default | destructive.

Record Toast : Type := {
  title : string;
  toast_description : string;
  variant : option Variant
}.

(** The [newSnippet] form of the dialog. *)
Record SnippetForm : Type := {
  form_name : string;
  form_description : string;
  form_category : string;
  form_code : string;
  form_parameters : string
}.

(** The [useState] cells the callbacks below read or write. *)
Record AppState : Type := {
  blueprints : list Blueprint;
  generatedScript : string;
  customSnippets : list Snippet;
  globalConfig : GlobalConfig;
  syntaxErrors : list string;
  draggedItem : option string;
  isAddSnippetOpen : bool;
  newSnippet : SnippetForm
}.

Definition set_blueprints (st : AppState) (bps : list Blueprint) : AppState :=
  {| blueprints := bps;
     generatedScript := generatedScript st;
     customSnippets := customSnippets st;
     globalConfig := globalConfig st;
     syntaxErrors := syntaxErrors st;
     draggedItem := draggedItem st;
     isAddSnippetOpen := isAddSnippetOpen st;
     newSnippet := newSnippet st |}.

Definition set_draggedItem (st : AppState) (d : option string) : AppState :=
  {| blueprints := blueprints st;
     generatedScript := generatedScript st;
     customSnippets := customSnippets st;
     globalConfig := globalConfig st;
     syntaxErrors := syntaxErrors st;
     draggedItem := d;
     isAddSnippetOpen := isAddSnippetOpen st;
     newSnippet := newSnippet st |}.

Definition set_generated (st : AppState) (errors : list string) (script : string) : AppState :=
  {| blueprints := blueprints st;
     generatedScript := script;
     customSnippets := customSnippets st;
     globalConfig := globalConfig st;
     syntaxErrors := errors;
     draggedItem := draggedItem st;
     isAddSnippetOpen := isAddSnippetOpen st;
     newSnippet := newSnippet st |}.

Definition LF : string := String (ascii_of_nat 10) EmptyString.

(** ** Blueprint list *)

(** The template literal [`blueprint-${Date.now()}-${Math.random()...}`];
    [now] and [rnd] are the values the two calls return. *)
Definition blueprint_id (now : nat) (rnd : string) : string :=
  "blueprint-" ++ string_of_nat now ++ "-" ++ rnd.

Definition addBlueprint (now : nat) (rnd : string) (s : Snippet) (st : AppState) : AppState * Toast :=
  let newBlueprint :=
    {| id := blueprint_id now rnd;
       snippet := s;
       order := List.length (blueprints st);
       customParams := Some [] |} in
  (set_blueprints st (blueprints st ++ [newBlueprint])%list,
   {| title := "Blueprint Added";
      toast_description := name s ++ " has been added to your script.";
      variant := None |}).

Definition removeBlueprint (blueprintId : string) (st : AppState) : AppState * Toast :=
  (set_blueprints st (filter (fun bp => negb (id bp =? blueprintId)) (blueprints st)),
   {| title := "Blueprint Removed";
      toast_description := "Blueprint has been removed from your script.";
      variant := None |}).

Definition set_customParams (bp : Blueprint) (params : list (string * string)) : Blueprint :=
  {| id := id bp; snippet := snippet bp; order := order bp; customParams := Some params |}.

Definition updateBlueprintParams (blueprintId : string) (params : list (string * string))
    (st : AppState) : AppState :=
  set_blueprints st
    (map (fun bp => if id bp =? blueprintId then set_customParams bp params else bp)
         (blueprints st)).

Definition set_order (bp : Blueprint) (index : nat) : Blueprint :=
  {| id := id bp; snippet := snippet bp; order := index; customParams := customParams bp |}.

(** [arr.splice(start, 1)] and [arr.splice(start, 0, item)] on a copy. *)
Definition splice_remove {A : Type} (start : nat) (l : list A) : list A :=
  (firstn start l ++ skipn (S start) l)%list.

Definition splice_insert {A : Type} (start : nat) (item : A) (l : list A) : list A :=
  (firstn start l ++ item :: skipn start l)%list.

(** The updater of [reorderBlueprints].  With [dragIndex] past the end
    [newBlueprints[dragIndex]] is [undefined] and the array returned holds
    an object that is no [Blueprint]: that case is [None]. *)
Definition reorderBlueprints (dragIndex hoverIndex : nat) (prev : list Blueprint)
    : option (list Blueprint) :=
  let newBlueprints := prev in
  match nth_error newBlueprints dragIndex with
  | None => None
  | Some draggedBlueprint =>
      let newBlueprints := splice_remove dragIndex newBlueprints in
      let newBlueprints := splice_insert hoverIndex draggedBlueprint newBlueprints in
      Some (mapi (fun bp index => set_order bp index) newBlueprints)
  end.

(** [handleDrop]: [dragIndex] is the index [handleDragStart] stored in the
    drag data, [dropIndex] the index of the card dropped on. *)
Definition handleDrop (dragIndex dropIndex : nat) (st : AppState) : option AppState :=
  if negb (dragIndex =? dropIndex)%nat then
    match reorderBlueprints dragIndex dropIndex (blueprints st) with
    | Some bps => Some (set_draggedItem (set_blueprints st bps) None)
    | None => None
    end
  else Some (set_draggedItem st None).

(** ** Syntax checker *)

Definition validateSyntax (code : string) : list string :=
  let errors := [] in
  let openBraces := count_char "{" code in
  let closeBraces := count_char "}" code in
  let errors :=
    if negb (openBraces =? closeBraces)%nat
    then (errors ++ ["Mismatched curly braces"])%list else errors in
  let openParens := count_char "(" code in
  let closeParens := count_char ")" code in
  let errors :=
    if negb (openParens =? closeParens)%nat
    then (errors ++ ["Mismatched parentheses"])%list else errors in
  let errors :=
    if includes code "function("
    then (errors ++ ["Missing space after function keyword"])%list else errors in
  let errors :=
    if includes code "if("
    then (errors ++ ["Missing space after if keyword"])%list else errors in
  errors.

(** ** Script generator *)

(** One pass of [Object.entries(obj).forEach(([key, v]) => { ... })] over
    the mutable [processedCode]; an exception ends the loop. *)
Definition replace_placeholders {V : Type} (text : V -> string) (entries : list (string * V))
    (processedCode : completion string) : completion string :=
  fold_left
    (fun acc entry =>
       bind acc (fun processedCode =>
         let placeholder := "%" ++ fst entry ++ "%" in
         replace_RegExp_g placeholder (text (snd entry)) processedCode))
    entries processedCode.

Definition processSnippetCode (code : string) (params : list (string * string))
    (config : GlobalConfig) : completion string :=
  let processedCode := Normal code in
  let processedCode := replace_placeholders (fun v => v) params processedCode in
  let processedCode := replace_placeholders value config processedCode in
  processedCode.

(** [JSON.stringify(Object.fromEntries(...), null, 2)] for an object whose
    values are [{name, label, value}] records of strings. *)
Definition stringify_var (v : ConfigVar) : string :=
  "{" ++ LF ++
  "    " ++ QuoteJSONString "name" ++ ": " ++ QuoteJSONString (var_name v) ++ "," ++ LF ++
  "    " ++ QuoteJSONString "label" ++ ": " ++ QuoteJSONString (label v) ++ "," ++ LF ++
  "    " ++ QuoteJSONString "value" ++ ": " ++ QuoteJSONString (value v) ++ LF ++
  "  }".

Definition stringify_config (config : GlobalConfig) : string :=
  match config with
  | [] => "{}"
  | _ :: _ =>
      "{" ++ LF ++ "  " ++
      join ("," ++ LF ++ "  ")
        (map (fun entry => QuoteJSONString (fst entry) ++ ": " ++ stringify_var (snd entry)) config) ++
      LF ++ "}"
  end.

Definition configLine (config : GlobalConfig) : string :=
  if (0 <? List.length config)%nat
  then "var config = " ++ stringify_config config ++ ";"
  else EmptyString.

(** [arr.map(f)] for a callback that may throw. *)
Fixpoint map_completion {A B : Type} (f : A -> completion B) (l : list A) : completion (list B) :=
  match l with
  | [] => Normal []
  | a :: r => bind (f a) (fun b => bind (map_completion f r) (fun bs => Normal (b :: bs)))
  end.

Definition comment_line (s : Snippet) : string :=
  "// " ++ name s ++ " - " ++ description s.

(** [bp.customParams || {}] *)
Definition params_of (bp : Blueprint) : list (string * string) :=
  match customParams bp with Some params => params | None => [] end.

(** The three parts a blueprint contributes to [scriptParts]. *)
Definition block (config : GlobalConfig) (bp : Blueprint) : completion (list string) :=
  bind (processSnippetCode (code (snippet bp)) (params_of bp) config)
       (fun processedCode => Normal [comment_line (snippet bp); processedCode; EmptyString]).

Definition compare_order (a b : Blueprint) : Z := (Z.of_nat (order a) - Z.of_nat (order b))%Z.

(** [parts.filter(line => line !== null)] *)
Fixpoint drop_nulls (parts : list (option string)) : list string :=
  match parts with
  | [] => []
  | Some line :: r => line :: drop_nulls r
  | None :: r => drop_nulls r
  end.

Definition scriptParts (now : string) (config : GlobalConfig) (blocks : list (list string))
    : list string :=
  drop_nulls
    (List.app
       [Some "// Generated Script from Blueprint Generator";
        Some ("// Generated on: " ++ now);
        Some EmptyString;
        Some (configLine config);
        if is_empty (configLine config) then None else Some EmptyString]
       (map Some (List.concat blocks))).

(** [generateScript]; [now] is [new Date().toISOString()]. *)
Definition generateScript (now : string) (st : AppState) : completion (AppState * Toast) :=
  if (List.length (blueprints st) =? 0)%nat then
    Normal (st,
            {| title := "No Blueprints";
               toast_description := "Add some blueprints to generate a script.";
               variant := Some destructive |})
  else
    let sortedBlueprints := sort compare_order (blueprints st) in
    bind (map_completion (block (globalConfig st)) sortedBlueprints) (fun blocks =>
      let script := join LF (scriptParts now (globalConfig st) blocks) in
      let errors := validateSyntax script in
      let n := List.length errors in
      Normal (set_generated st errors script,
              {| title := if (0 <? n)%nat then "Script Generated with Warnings" else "Script Generated";
                 toast_description :=
                   "Generated script with " ++ string_of_nat (List.length (blueprints st)) ++
                   " blueprints" ++
                   (if (0 <? n)%nat then " (" ++ string_of_nat n ++ " warnings)" else EmptyString) ++
                   ".";
                 variant := Some (if (0 <? n)%nat then destructive else default) |})).

(** ** Custom snippets *)

Definition custom_id (now : nat) (rnd : string) : string :=
  "custom-" ++ string_of_nat now ++ "-" ++ rnd.

Definition blank_form : SnippetForm :=
  {| form_name := EmptyString;
     form_description := EmptyString;
     form_category := "Custom";
     form_code := EmptyString;
     form_parameters := EmptyString |}.

Definition parse_parameters (parameters : string) : list string :=
  filter (fun p => negb (is_empty p)) (map trim (split "," parameters)).

Definition addCustomSnippet (now : nat) (rnd : string) (st : AppState) : AppState * Toast :=
  let form := newSnippet st in
  if is_empty (form_name form) || is_empty (form_code form) then
    (st,
     {| title := "Missing Information";
        toast_description := "Please provide at least a name and code for the snippet.";
        variant := Some destructive |})
  else
    let s :=
      {| snippet_id := custom_id now rnd;
         name := form_name form;
         description := form_description form;
         category := form_category form;
         code := form_code form;
         parameters := Some (parse_parameters (form_parameters form));
         isCustom := Some true |} in
    ({| blueprints := blueprints st;
        generatedScript := generatedScript st;
        customSnippets := (customSnippets st ++ [s])%list;
        globalConfig := globalConfig st;
        syntaxErrors := syntaxErrors st;
        draggedItem := draggedItem st;
        isAddSnippetOpen := false;
        newSnippet := blank_form |},
     {| title := "Custom Snippet Added";
        toast_description := name s ++ " has been added to your library.";
        variant := None |}).

(** ** Global configuration table *)

Definition set_globalConfig (st : AppState) (config : GlobalConfig) : AppState :=
  {| blueprints := blueprints st;
     generatedScript := generatedScript st;
     customSnippets := customSnippets st;
     globalConfig := config;
     syntaxErrors := syntaxErrors st;
     draggedItem := draggedItem st;
     isAddSnippetOpen := isAddSnippetOpen st;
     newSnippet := newSnippet st |}.

(** [{...prev, [key]: v}]: a key already present keeps its place and gets
    the new value, a new key goes last. *)
Fixpoint set_entry {V : Type} (key : string) (v : V) (entries : list (string * V))
    : list (string * V) :=
  match entries with
  | [] => [(key, v)]
  | (k, x) :: r => if k =? key then (k, v) :: r else (k, x) :: set_entry key v r
  end.

Definition addGlobalConfigVar (st : AppState) : AppState :=
  let n := List.length (globalConfig st) + 1 in
  let key := "var" ++ string_of_nat n in
  set_globalConfig st
    (set_entry key
       {| var_name := "param" ++ string_of_nat n;
          label := "Parameter " ++ string_of_nat n;
          value := EmptyString |}
       (globalConfig st)).

Inductive ConfigField : Type := field_name | field_label | field_value.

Definition set_field (field : ConfigField) (v : string) (x : ConfigVar) : ConfigVar :=
  match field with
  | field_name => {| var_name := v; label := label x; value := value x |}
  | field_label => {| var_name := var_name x; label := v; value := value x |}
  | field_value => {| var_name := var_name x; label := label x; value := v |}
  end.

Fixpoint lookup {V : Type} (key : string) (entries : list (string * V)) : option V :=
  match entries with
  | [] => None
  | (k, v) :: r => if k =? key then Some v else lookup key r
  end.

(** [updateGlobalConfigVar]; the dialog calls it with the keys of the
    table.  For a key that is not in the table [prev[key]] is [undefined]
    and the entry written lacks two fields: that case is [None]. *)
Definition updateGlobalConfigVar (key : string) (field : ConfigField) (v : string)
    (st : AppState) : option AppState :=
  match lookup key (globalConfig st) with
  | Some x => Some (set_globalConfig st (set_entry key (set_field field v x) (globalConfig st)))
  | None => None
  end.

Definition removeGlobalConfigVar (key : string) (st : AppState) : AppState :=
  set_globalConfig st (filter (fun entry => negb (fst entry =? key)) (globalConfig st)).

(** ** Vocabulary of the properties *)

Definition is_substring (pat s : string) : Prop :=
  exists pre post, s = pre ++ pat ++ post.

Definition keep (b : bool) (w : string) : list string := if b then [w] else [].

Definition orders (bps : list Blueprint) : list nat := map order bps.

Definition placement (bp : Blueprint) : string * Snippet * option (list (string * string)) :=
  (id bp, snippet bp, customParams bp).

(** A blueprint list up to the [order] fields. *)
Definition placements (bps : list Blueprint)
    : list (string * Snippet * option (list (string * string))) :=
  map placement bps.

Definition no_blueprints_toast : Toast :=
  {| title := "No Blueprints";
     toast_description := "Add some blueprints to generate a script.";
     variant := Some destructive |}.

Definition missing_information_toast : Toast :=
  {| title := "Missing Information";
     toast_description := "Please provide at least a name and code for the snippet.";
     variant := Some destructive |}.

(** *** Keys and values *)

Definition regex_free (key : string) : bool :=
  all_chars (fun c => negb (is_syntax_character c)) key.

Definition regex_free_keys {V : Type} (entries : list (string * V)) : bool :=
  forallb (fun entry => regex_free (fst entry)) entries.

(** Every placeholder the generator builds for [st] is a literal pattern. *)
Definition literal_placeholders (st : AppState) : bool :=
  forallb (fun bp => regex_free_keys (params_of bp)) (blueprints st) &&
  regex_free_keys (globalConfig st).

(** Letters, digits and the underscore. *)
Definition is_identifier_char (c : ascii) : bool :=
  let n := nat_of_ascii c in
  ((48 <=? n) && (n <=? 57) || (65 <=? n) && (n <=? 90) ||
   (97 <=? n) && (n <=? 122) || (n =? 95))%nat.

Definition plain_identifier (key : string) : bool := all_chars is_identifier_char key.

Definition plain_keys {V : Type} (entries : list (string * V)) : bool :=
  forallb (fun entry => plain_identifier (fst entry)) entries.

Definition no_percent (s : string) : bool := all_chars (fun c => negb (Ascii.eqb c "%")) s.

Definition no_dollar (s : string) : bool := all_chars (fun c => negb (Ascii.eqb c "$")) s.

Definition has_separator (s : string) : bool :=
  some_char (fun c => negb (is_identifier_char c)) s.

Definition clean_value (v : string) : bool := no_percent v && no_dollar v.

Definition plain_entries {V : Type} (text : V -> string) (entries : list (string * V)) : bool :=
  forallb (fun entry => plain_identifier (fst entry) && clean_value (text (snd entry))) entries.

(** *** The script *)

Definition header_text : string := "var config = ".

(** The parts of the script that precede the blueprint blocks. *)
Definition preamble (now : string) (config : GlobalConfig) : list string :=
  match config with
  | [] =>
      ["// Generated Script from Blueprint Generator"; "// Generated on: " ++ now;
       EmptyString; EmptyString]
  | _ :: _ =>
      ["// Generated Script from Blueprint Generator"; "// Generated on: " ++ now;
       EmptyString; header_text ++ stringify_config config ++ ";"; EmptyString]
  end.

(** *** Tokenised templates *)

(** A code template cut into tokens: each segment is a stretch of text
    followed by a placeholder name, and [tail] is the text after the last
    placeholder. *)
Record Template : Type := {
  segments : list (string * string);
  tail : string
}.

Fixpoint render_segments (segs : list (string * string)) : string :=
  match segs with
  | [] => EmptyString
  | (text, hole) :: r => text ++ "%" ++ hole ++ "%" ++ render_segments r
  end.

Definition render (t : Template) : string := render_segments (segments t) ++ tail t.

(** Text and names are free of the percent sign, and the text between two
    placeholders holds a character that no identifier has. *)
Fixpoint well_formed_segments (interior : bool) (segs : list (string * string)) : bool :=
  match segs with
  | [] => true
  | (text, hole) :: r =>
      no_percent text && no_percent hole && (negb interior || has_separator text) &&
      well_formed_segments true r
  end.

Definition well_formed (t : Template) : bool :=
  well_formed_segments false (segments t) && no_percent (tail t).

(** The value a placeholder name stands for: the instance override if
    there is one, else the configuration variable's value. *)
Definition resolve (params : list (string * string)) (config : GlobalConfig) (hole : string)
    : option string :=
  match lookup hole params with
  | Some v => Some v
  | None => option_map value (lookup hole config)
  end.

Definition fill_hole (rho : string -> option string) (hole : string) : string :=
  match rho hole with
  | Some v => v
  | None => "%" ++ hole ++ "%"
  end.

Fixpoint fill_segments (rho : string -> option string) (segs : list (string * string)) : string :=
  match segs with
  | [] => EmptyString
  | (text, hole) :: r => text ++ fill_hole rho hole ++ fill_segments rho r
  end.

Definition fill (rho : string -> option string) (t : Template) : string :=
  fill_segments rho (segments t) ++ tail t.

(** Substituting one key in a tokenised template: the text around a
    replaced placeholder merges with the value into one stretch of text. *)
Definition prepend_text (s : string) (t : Template) : Template :=
  match segments t with
  | [] => {| segments := []; tail := s ++ tail t |}
  | (text, hole) :: r => {| segments := (s ++ text, hole) :: r; tail := tail t |}
  end.

Fixpoint substitute_segments (key v : string) (segs : list (string * string)) (tl : string)
    : Template :=
  match segs with
  | [] => {| segments := []; tail := tl |}
  | (text, hole) :: r =>
      let t' := substitute_segments key v r tl in
      if key =? hole then prepend_text (text ++ v) t'
      else {| segments := (text, hole) :: segments t'; tail := tail t' |}
  end.

Definition substitute (key v : string) (t : Template) : Template :=
  substitute_segments key v (segments t) (tail t).

Definition substitute_all {V : Type} (text : V -> string) (entries : list (string * V))
    (t : Template) : Template :=
  fold_left (fun t entry => substitute (fst entry) (text (snd entry)) t) entries t.

Definition unresolved (hole : string) : option string := None.

Definition override (key v : string) (rho : string -> option string) (hole : string)
    : option string :=
  if key =? hole then Some v else rho hole.

Definition override_all {V : Type} (text : V -> string) (entries : list (string * V))
    (rho : string -> option string) (hole : string) : option string :=
  match lookup hole entries with
  | Some x => Some (text x)
  | None => rho hole
  end.

(** ** Sample data *)

Definition empty_state : AppState :=
  {| blueprints := [];
     generatedScript := EmptyString;
     customSnippets := [];
     globalConfig := [];
     syntaxErrors := [];
     draggedItem := None;
     isAddSnippetOpen := false;
     newSnippet := blank_form |}.

(** The entry [Event Listener Helper] of [SAMPLE_SNIPPETS]. *)
Definition event_listener_snippet : Snippet :=
  {| snippet_id := "2";
     name := "Event Listener Helper";
     description := "Add event listeners with cleanup";
     category := "Event Handling";
     code :=
       "function addEventListenerWithCleanup(element, event, handler) {" ++ LF ++
       "  element.addEventListener(%event%, %handler%);" ++ LF ++
       "  return () => element.removeEventListener(%event%, %handler%);" ++ LF ++
       "}";
     parameters := Some ["element"; "event"; "handler"];
     isCustom := None |}.

(** Its code, cut at the four placeholders. *)
Definition event_listener_template : Template :=
  {| segments :=
       [("function addEventListenerWithCleanup(element, event, handler) {" ++ LF ++
         "  element.addEventListener(", "event");
        (", ", "handler");
        (");" ++ LF ++ "  return () => element.removeEventListener(", "event");
        (", ", "handler")];
     tail := ");" ++ LF ++ "}" |}.

(** The blueprint [addBlueprint] makes of it on the empty list. *)
Definition event_listener_blueprint : Blueprint :=
  {| id := blueprint_id 1 "a";
     snippet := event_listener_snippet;
     order := 0;
     customParams := Some [] |}.

Definition event_listener_state : AppState :=
  fst (addBlueprint 1 "a" event_listener_snippet empty_state).

(** Values entered for two of its parameters. *)
Definition click_params : list (string * string) :=
  [("event", "'click'"); ("handler", "onClick")].

(** A custom snippet as [addCustomSnippet] builds it. *)
Definition sample_snippet (body : string) (params : list string) : Snippet :=
  {| snippet_id := "custom-1-a";
     name := "Log";
     description := "Write a value";
     category := "Custom";
     code := body;
     parameters := Some params;
     isCustom := Some true |}.

Definition sample_blueprint (body : string) (position : nat) (params : list (string * string))
    : Blueprint :=
  {| id := blueprint_id position "a";
     snippet := sample_snippet body (map fst params);
     order := position;
     customParams := Some params |}.

Definition sample_var (v : string) : ConfigVar :=
  {| var_name := "param1"; label := "Parameter 1"; value := v |}.

(** A state that holds the output of an earlier run. *)
Definition state_of (bps : list Blueprint) (config : GlobalConfig) : AppState :=
  {| blueprints := bps;
     generatedScript := "// earlier output";
     customSnippets := [];
     globalConfig := config;
     syntaxErrors := ["Mismatched parentheses"];
     draggedItem := None;
     isAddSnippetOpen := false;
     newSnippet := blank_form |}.

Definition state_with_form (form : SnippetForm) : AppState :=
  {| blueprints := [];
     generatedScript := EmptyString;
     customSnippets := [];
     globalConfig := [];
     syntaxErrors := [];
     draggedItem := None;
     isAddSnippetOpen := true;
     newSnippet := form |}.

Definition log_form (name parameters : string) : SnippetForm :=
  {| form_name := name;
     form_description := EmptyString;
     form_category := "Custom";
     form_code := "console.log(1)";
     form_parameters := parameters |}.

(** Three additions followed by the removal of the first entry. *)
Definition gapped_state : AppState :=
  let s := sample_snippet "run()" [] in
  let st := fst (addBlueprint 1 "a" s empty_state) in
  let st := fst (addBlueprint 2 "b" s st) in
  let st := fst (addBlueprint 3 "c" s st) in
  fst (removeBlueprint (blueprint_id 1 "a") st).

(** A custom snippet with a parameter named [(] and a value entered for it. *)
Definition open_paren_state : AppState :=
  state_of [sample_blueprint "call%(%1)" 0 [("(", "(")]] [].

(** Two blueprints, the second one with a parameter named [size(px]. *)
Definition size_state : AppState :=
  state_of [sample_blueprint "run()" 0 []; sample_blueprint "pad(%size(px%)" 1 [("size(px", "4")]] [].

(** A snippet whose code is itself a declaration of [config]. *)
Definition shadow_state : AppState :=
  state_of [sample_blueprint "var config = {};" 0 []] [].

(** One configuration variable, and a blueprint with a parameter named [(]. *)
Definition configured_open_paren_state : AppState :=
  state_of [sample_blueprint "call%(%1)" 0 [("(", "(")]] [("var1", sample_var "1")].

(** ** The blueprint list under sequences of user actions *)

Definition ids (bps : list Blueprint) : list string := map id bps.

(** Positions are the indices [0 .. n-1], in array order. *)
Definition dense (bps : list Blueprint) : Prop := orders bps = seq 0 (List.length bps).

(** Positions do not decrease along the array. *)
Definition in_position_order (bps : list Blueprint) : Prop :=
  StronglySorted (fun a b => order a <= order b) bps.

(** What the blueprint canvas lets the user do: add a snippet (with the
    values [Date.now()] and [Math.random()] give), remove a card, edit the
    parameters of a card, and drop card [dragIndex] on card [dropIndex]. *)
Inductive Action : Type :=
| Add (now : nat) (rnd : string) (s : Snippet)
| Remove (blueprintId : string)
| SetParams (blueprintId : string) (params : list (string * string))
| Drop (dragIndex dropIndex : nat).

Definition step (a : Action) (st : AppState) : option AppState :=
  match a with
  | Add now rnd s => Some (fst (addBlueprint now rnd s st))
  | Remove blueprintId => Some (fst (removeBlueprint blueprintId st))
  | SetParams blueprintId params => Some (updateBlueprintParams blueprintId params st)
  | Drop dragIndex dropIndex => handleDrop dragIndex dropIndex st
  end.

Fixpoint run (actions : list Action) (st : AppState) : option AppState :=
  match actions with
  | [] => Some st
  | a :: rest =>
      match step a st with
      | Some st' => run rest st'
      | None => None
      end
  end.

Definition is_Remove (a : Action) : bool :=
  match a with Remove _ => true | _ => false end.

(** The relation between a blueprint and the three parts it contributes. *)
Definition is_block_of (config : GlobalConfig) (bp : Blueprint) (blk : list string) : Prop :=
  exists processedCode,
    processSnippetCode (code (snippet bp)) (params_of bp) config = Normal processedCode /\
    blk = [comment_line (snippet bp); processedCode; EmptyString].


Definition is_Add (a : Action) : bool :=
  match a with Add _ _ _ => true | _ => false end.

Definition count_adds (actions : list Action) : nat :=
  List.length (filter is_Add actions).

(** Reading a decimal numeral, the inverse of the template-literal
    interpolation of a non-negative integer. *)
Definition nat_of_string (s : string) : option nat :=
  option_map Nat.of_uint (NilZero.uint_of_string s).


(** ** Drag and drop of blueprint cards *)

(** The value of a code unit as a digit in the given radix ([0-9], [a-z],
    [A-Z]), if it is one. *)
Definition digit_value (radix : nat) (c : ascii) : option Z :=
  let n := nat_of_ascii c in
  let v :=
    if ((48 <=? n) && (n <=? 57))%nat then Some (n - 48)
    else if ((97 <=? n) && (n <=? 122))%nat then Some (n - 87)
    else if ((65 <=? n) && (n <=? 90))%nat then Some (n - 55)
    else None in
  match v with
  | Some d => if (d <? radix)%nat then Some (Z.of_nat d) else None
  | None => None
  end.

(** The integer written by the longest prefix of digits of [s]. *)
Fixpoint digits_value (radix : nat) (acc : Z) (s : string) : Z :=
  match s with
  | EmptyString => acc
  | String c s' =>
      match digit_value radix c with
      | Some d => digits_value radix (Z.of_nat radix * acc + d) s'
      | None => acc
      end
  end.

Definition parse_digits (radix : nat) (s : string) : option Z :=
  match s with
  | EmptyString => None
  | String c _ =>
      match digit_value radix c with
      | Some _ => Some (digits_value radix 0 s)
      | None => None
      end
  end.

Definition strip_sign (s : string) : Z * string :=
  match s with
  | String "-" r => ((-1)%Z, r)
  | String "+" r => (1%Z, r)
  | _ => (1%Z, s)
  end.

Definition strip_hex_prefix (s : string) : nat * string :=
  match s with
  | String "0" (String "x" r) => (16, r)
  | String "0" (String "X" r) => (16, r)
  | _ => (10, s)
  end.

(** [parseInt(s)] without a radix: leading white space is skipped, a sign
    and a prefix [0x] or [0X] are read, then the longest prefix of digits;
    [None] is [NaN].  The result is the exact integer, which is the Number
    that JavaScript returns up to 2^53 in absolute value; beyond that
    JavaScript rounds, to a value that is no index of an array either. *)
Definition parseInt (s : string) : option Z :=
  let (sign, s1) := strip_sign (JS.trimStart s) in
  let (radix, s2) := strip_hex_prefix s1 in
  option_map (Z.mul sign) (parse_digits radix s2).

(** The part of a drag event's [dataTransfer] the handlers touch.  [items]
    is the drag data store, format by format; [setData] replaces the data
    of a format in place or appends it, [getData] gives the empty string
    for a format without data. *)
Record DataTransfer : Type := {
  effectAllowed : string;
  dropEffect : string;
  items : list (string * string)
}.

Definition setData (format data : string) (dt : DataTransfer) : DataTransfer :=
  {| effectAllowed := effectAllowed dt;
     dropEffect := dropEffect dt;
     items := set_entry format data (items dt) |}.

Definition getData (format : string) (dt : DataTransfer) : string :=
  match lookup format (items dt) with
  | Some data => data
  | None => EmptyString
  end.

Definition handleDragStart (blueprintId : string) (index : nat)
    (st : AppState) (dt : DataTransfer) : AppState * DataTransfer :=
  let st := set_draggedItem st (Some blueprintId) in
  let dt := {| effectAllowed := "move"; dropEffect := dropEffect dt; items := items dt |} in
  let dt := setData "text/html" blueprintId dt in
  let dt := setData "text/plain" (string_of_nat index) dt in
  (st, dt).

Definition handleDragOver (dt : DataTransfer) : DataTransfer :=
  {| effectAllowed := effectAllowed dt; dropEffect := "move"; items := items dt |}.

(** [handleDrop] on the event: the index is read back from the drag data.
    When what is read is [NaN] or negative, [reorderBlueprints] is called
    with it and the array it returns holds an object that is no
    [Blueprint], as for an index past the end: [None]. *)
Definition handleDrop_event (dt : DataTransfer) (dropIndex : nat) (st : AppState)
    : option AppState :=
  match parseInt (getData "text/plain" dt) with
  | Some dragIndex =>
      if (0 <=? dragIndex)%Z then handleDrop (Z.to_nat dragIndex) dropIndex st else None
  | None => None
  end.

Definition is_digit (c : ascii) : bool :=
  let n := nat_of_ascii c in ((48 <=? n) && (n <=? 57))%nat.


(** ** The configuration table under its three callbacks *)

(** The key [addGlobalConfigVar] builds for a table of [n - 1] entries,
    and the entry it writes under it. *)
Definition var_key (n : nat) : string := "var" ++ string_of_nat n.

Definition fresh_var (n : nat) : ConfigVar :=
  {| var_name := "param" ++ string_of_nat n;
     label := "Parameter " ++ string_of_nat n;
     value := EmptyString |}.

(** The keys are [var1 .. varn] in this order, as after additions only. *)
Definition numbered (config : GlobalConfig) : Prop :=
  map fst config = map var_key (seq 1 (List.length config)).


(** ** The built-in library *)
(** The entries of [SAMPLE_SNIPPETS], code line by line. *)
Definition dom_element_selector : Snippet :=
  {| snippet_id := "1";
     name := "DOM Element Selector";
     description := "Select DOM elements with error handling";
     category := "DOM Manipulation";
     code :=
       "function selectElement(selector) {" ++ LF ++
       "  const element = document.querySelector(%selector%);" ++ LF ++
       "  if (!element) {" ++ LF ++
       "    console.warn(`Element not found: ${%selector%}`);" ++ LF ++
       "    return null;" ++ LF ++
       "  }" ++ LF ++
       "  return element;" ++ LF ++
       "}";
     parameters := Some ["selector"];
     isCustom := None |}.

Definition api_fetch_wrapper : Snippet :=
  {| snippet_id := "3";
     name := "API Fetch Wrapper";
     description := "Fetch API with error handling and timeout";
     category := "Network Operations";
     code :=
       "async function fetchWithTimeout(url, options = {}, timeout = %timeout%) {" ++ LF ++
       "  const controller = new AbortController();" ++ LF ++
       "  const timeoutId = setTimeout(() => controller.abort(), %timeout%);" ++ LF ++
       "  " ++ LF ++
       "  try {" ++ LF ++
       "    const response = await fetch(%url%, {" ++ LF ++
       "      ...options," ++ LF ++
       "      signal: controller.signal" ++ LF ++
       "    });" ++ LF ++
       "    clearTimeout(timeoutId);" ++ LF ++
       "    " ++ LF ++
       "    if (!response.ok) {" ++ LF ++
       "      throw new Error(`HTTP error! status: ${response.status}`);" ++ LF ++
       "    }" ++ LF ++
       "    " ++ LF ++
       "    return await response.json();" ++ LF ++
       "  } catch (error) {" ++ LF ++
       "    clearTimeout(timeoutId);" ++ LF ++
       "    throw error;" ++ LF ++
       "  }" ++ LF ++
       "}";
     parameters := Some ["url"; "timeout"];
     isCustom := None |}.

Definition local_storage_manager : Snippet :=
  {| snippet_id := "4";
     name := "Local Storage Manager";
     description := "Safe localStorage operations with JSON support";
     category := "Data Storage";
     code :=
       "const storage = {" ++ LF ++
       "  set(key, value) {" ++ LF ++
       "    try {" ++ LF ++
       "      localStorage.setItem(%storagePrefix% + key, JSON.stringify(value));" ++ LF ++
       "      return true;" ++ LF ++
       "    } catch (error) {" ++ LF ++
       "      console.error('Storage set error:', error);" ++ LF ++
       "      return false;" ++ LF ++
       "    }" ++ LF ++
       "  }," ++ LF ++
       "  " ++ LF ++
       "  get(key, defaultValue = null) {" ++ LF ++
       "    try {" ++ LF ++
       "      const item = localStorage.getItem(%storagePrefix% + key);" ++ LF ++
       "      return item ? JSON.parse(item) : defaultValue;" ++ LF ++
       "    } catch (error) {" ++ LF ++
       "      console.error('Storage get error:', error);" ++ LF ++
       "      return defaultValue;" ++ LF ++
       "    }" ++ LF ++
       "  }," ++ LF ++
       "  " ++ LF ++
       "  remove(key) {" ++ LF ++
       "    try {" ++ LF ++
       "      localStorage.removeItem(%storagePrefix% + key);" ++ LF ++
       "      return true;" ++ LF ++
       "    } catch (error) {" ++ LF ++
       "      console.error('Storage remove error:', error);" ++ LF ++
       "      return false;" ++ LF ++
       "    }" ++ LF ++
       "  }" ++ LF ++
       "};";
     parameters := Some ["storagePrefix"];
     isCustom := None |}.

Definition debounce_function : Snippet :=
  {| snippet_id := "5";
     name := "Debounce Function";
     description := "Debounce function calls to improve performance";
     category := "Performance Utilities";
     code :=
       "function debounce(func, wait = %debounceDelay%) {" ++ LF ++
       "  let timeout;" ++ LF ++
       "  return function executedFunction(...args) {" ++ LF ++
       "    const later = () => {" ++ LF ++
       "      clearTimeout(timeout);" ++ LF ++
       "      func(...args);" ++ LF ++
       "    };" ++ LF ++
       "    clearTimeout(timeout);" ++ LF ++
       "    timeout = setTimeout(later, wait);" ++ LF ++
       "  };" ++ LF ++
       "}";
     parameters := Some ["debounceDelay"];
     isCustom := None |}.

Definition form_validator : Snippet :=
  {| snippet_id := "6";
     name := "Form Validator";
     description := "Validate form fields with custom rules";
     category := "Form Validation";
     code :=
       "function validateForm(formData, rules) {" ++ LF ++
       "  const errors = {};" ++ LF ++
       "  " ++ LF ++
       "  for (const [field, value] of Object.entries(formData)) {" ++ LF ++
       "    const fieldRules = rules[field];" ++ LF ++
       "    if (!fieldRules) continue;" ++ LF ++
       "    " ++ LF ++
       "    if (fieldRules.required && (!value || value.trim() === '')) {" ++ LF ++
       "      errors[field] = `${field} is required`;" ++ LF ++
       "      continue;" ++ LF ++
       "    }" ++ LF ++
       "    " ++ LF ++
       "    if (fieldRules.minLength && value.length < fieldRules.minLength) {" ++ LF ++
       "      errors[field] = `${field} must be at least ${fieldRules.minLength} characters`;" ++ LF ++
       "    }" ++ LF ++
       "    " ++ LF ++
       "    if (fieldRules.pattern && !fieldRules.pattern.test(value)) {" ++ LF ++
       "      errors[field] = fieldRules.message || `${field} format is invalid`;" ++ LF ++
       "    }" ++ LF ++
       "  }" ++ LF ++
       "  " ++ LF ++
       "  return {" ++ LF ++
       "    isValid: Object.keys(errors).length === 0," ++ LF ++
       "    errors" ++ LF ++
       "  };" ++ LF ++
       "}";
     parameters := Some [];
     isCustom := None |}.

Definition cookie_manager : Snippet :=
  {| snippet_id := "7";
     name := "Cookie Manager";
     description := "Manage browser cookies with expiration";
     category := "Data Storage";
     code :=
       "const cookieManager = {" ++ LF ++
       "  set(name, value, days = %cookieExpiry%) {" ++ LF ++
       "    const expires = new Date();" ++ LF ++
       "    expires.setTime(expires.getTime() + (days * 24 * 60 * 60 * 1000));" ++ LF ++
       "    document.cookie = `${name}=${value};expires=${expires.toUTCString()};path=/`;" ++ LF ++
       "  }," ++ LF ++
       "  " ++ LF ++
       "  get(name) {" ++ LF ++
       "    const nameEQ = name + " ++ double_quote ++ "=" ++ double_quote ++ ";" ++ LF ++
       "    const ca = document.cookie.split(';');" ++ LF ++
       "    for(let i = 0; i < ca.length; i++) {" ++ LF ++
       "      let c = ca[i];" ++ LF ++
       "      while (c.charAt(0) === ' ') c = c.substring(1, c.length);" ++ LF ++
       "      if (c.indexOf(nameEQ) === 0) return c.substring(nameEQ.length, c.length);" ++ LF ++
       "    }" ++ LF ++
       "    return null;" ++ LF ++
       "  }," ++ LF ++
       "  " ++ LF ++
       "  delete(name) {" ++ LF ++
       "    document.cookie = name + " ++ double_quote ++ "=; expires=Thu, 01 Jan 1970 00:00:00 UTC; path=/;" ++ double_quote ++ ";" ++ LF ++
       "  }" ++ LF ++
       "};";
     parameters := Some ["cookieExpiry"];
     isCustom := None |}.

Definition animation_helper : Snippet :=
  {| snippet_id := "8";
     name := "Animation Helper";
     description := "Smooth CSS animations with callbacks";
     category := "UI Animations";
     code :=
       "function animateElement(element, className, duration = %animationDuration%) {" ++ LF ++
       "  return new Promise((resolve) => {" ++ LF ++
       "    element.classList.add(className);" ++ LF ++
       "    " ++ LF ++
       "    const handleAnimationEnd = () => {" ++ LF ++
       "      element.classList.remove(className);" ++ LF ++
       "      element.removeEventListener('animationend', handleAnimationEnd);" ++ LF ++
       "      resolve();" ++ LF ++
       "    };" ++ LF ++
       "    " ++ LF ++
       "    element.addEventListener('animationend', handleAnimationEnd);" ++ LF ++
       "    " ++ LF ++
       "    // Fallback timeout" ++ LF ++
       "    setTimeout(() => {" ++ LF ++
       "      element.classList.remove(className);" ++ LF ++
       "      element.removeEventListener('animationend', handleAnimationEnd);" ++ LF ++
       "      resolve();" ++ LF ++
       "    }, duration);" ++ LF ++
       "  });" ++ LF ++
       "}";
     parameters := Some ["animationDuration"];
     isCustom := None |}.

Definition SAMPLE_SNIPPETS : list Snippet :=
  [dom_element_selector;
   event_listener_snippet;
   api_fetch_wrapper;
   local_storage_manager;
   debounce_function;
   form_validator;
   cookie_manager;
   animation_helper].

Definition CATEGORIES : list string :=
  ["All"; "DOM Manipulation"; "Event Handling"; "Network Operations"; "Data Storage";
   "Performance Utilities"; "Form Validation"; "UI Animations"; "Custom"].

(** [s.toLowerCase()] on code units below 256: the letters [A-Z] and the
    Latin-1 capitals move by 32, the multiplication sign among them stays. *)
Definition lower_code_unit (c : ascii) : ascii :=
  let n := nat_of_ascii c in
  if ((65 <=? n) && (n <=? 90) || (192 <=? n) && (n <=? 222) && negb (n =? 215))%nat
  then ascii_of_nat (n + 32) else c.

Fixpoint toLowerCase (s : string) : string :=
  match s with
  | EmptyString => EmptyString
  | String c s' => String (lower_code_unit c) (toLowerCase s')
  end.

Definition allSnippets (st : AppState) : list Snippet :=
  (SAMPLE_SNIPPETS ++ customSnippets st)%list.

(** [filteredSnippets]; the two cells [searchTerm] and [selectedCategory]
    are arguments. *)
Definition filteredSnippets (searchTerm selectedCategory : string) (st : AppState)
    : list Snippet :=
  filter
    (fun snippet =>
       let matchesSearch :=
         includes (toLowerCase (name snippet)) (toLowerCase searchTerm) ||
         includes (toLowerCase (description snippet)) (toLowerCase searchTerm) in
       let matchesCategory :=
         (selectedCategory =? "All") || (category snippet =? selectedCategory) in
       matchesSearch && matchesCategory)
    (allSnippets st).

(** The parameters a snippet declares. *)
Definition declared (s : Snippet) : list string :=
  match parameters s with Some ps => ps | None => [] end.

(** Cutting a code at its percent signs: the pieces alternate between text
    and placeholder names when their number is odd. *)
Fixpoint pair_up (pieces : list string) : option Template :=
  match pieces with
  | [] => None
  | [tl] => Some {| segments := []; tail := tl |}
  | text :: hole :: r =>
      option_map (fun t => {| segments := (text, hole) :: segments t; tail := tail t |})
                 (pair_up r)
  end.

Definition tokenize (code : string) : option Template := pair_up (split "%" code).

Definition holes (t : Template) : list string := map snd (segments t).

(** The characters of [toISOString()]. *)
Definition is_iso_char (c : ascii) : bool :=
  is_digit c || existsb (Ascii.eqb c) ["-"; ":"; "."; "T"; "Z"; "+"]%char.

(** A part that draws no warning by itself: as many opening as closing
    braces and parentheses, and neither of the two substrings. *)
Definition quiet (part : string) : bool :=
  (count_char "{" part =? count_char "}" part)%nat &&
  (count_char "(" part =? count_char ")" part)%nat &&
  negb (includes part "function(") && negb (includes part "if(").

(** The three parts of a blueprint whose placeholders are left as they are. *)
Definition plain_block (bp : Blueprint) : list string :=
  [comment_line (snippet bp); code (snippet bp); EmptyString].


(** The code of a snippet cuts into text and placeholder names, with the
    text between two placeholders holding a character no identifier has,
    and every placeholder name is a declared parameter. *)
Definition tokenises (s : Snippet) : bool :=
  match tokenize (code s) with
  | Some t =>
      (render t =? code s) && well_formed t &&
      forallb (fun hole => existsb (String.eqb hole) (declared s)) (holes t)
  | None => false
  end.


(** ** The interface as a whole *)

(** The index a property key stands for when it is an array index: a
    decimal numeral without a leading zero, below 2^32 - 1.  An object
    lists such keys first, by index, and the other keys after them in the
    order of their creation. *)
Definition array_index (key : string) : option Z :=
  match key with
  | EmptyString => None
  | String c rest =>
      if all_chars is_digit key && (negb (Ascii.eqb c "0") || is_empty rest) &&
         (digits_value 10 0 key <? 4294967295)%Z
      then Some (digits_value 10 0 key)
      else None
  end.

Fixpoint insert_index (n : Z) (key : string) (v : string) (entries : list (string * string))
    : list (string * string) :=
  match entries with
  | [] => [(key, v)]
  | (k, x) :: r =>
      match array_index k with
      | Some m => if (m <? n)%Z then (k, x) :: insert_index n key v r else (key, v) :: entries
      | None => (key, v) :: entries
      end
  end.

(** [{ ...obj, [key]: v }] for an object with string values, as
    [Object.entries] lists it: a key that is there keeps its place, a new
    array index goes among the array indices, any other new key goes last. *)
Definition object_set (key v : string) (entries : list (string * string))
    : list (string * string) :=
  match lookup key entries, array_index key with
  | None, Some n => insert_index n key v entries
  | _, _ => set_entry key v entries
  end.

(** The text inputs of the snippet form. *)
Inductive FormField : Type := input_name | input_description | input_parameters | input_code.

Definition edit_form (field : FormField) (v : string) (form : SnippetForm) : SnippetForm :=
  match field with
  | input_name =>
      {| form_name := v; form_description := form_description form;
         form_category := form_category form; form_code := form_code form;
         form_parameters := form_parameters form |}
  | input_description =>
      {| form_name := form_name form; form_description := v;
         form_category := form_category form; form_code := form_code form;
         form_parameters := form_parameters form |}
  | input_parameters =>
      {| form_name := form_name form; form_description := form_description form;
         form_category := form_category form; form_code := form_code form;
         form_parameters := v |}
  | input_code =>
      {| form_name := form_name form; form_description := form_description form;
         form_category := form_category form; form_code := v;
         form_parameters := form_parameters form |}
  end.

Definition select_category (v : string) (form : SnippetForm) : SnippetForm :=
  {| form_name := form_name form; form_description := form_description form;
     form_category := v; form_code := form_code form;
     form_parameters := form_parameters form |}.

Definition set_newSnippet (st : AppState) (form : SnippetForm) : AppState :=
  {| blueprints := blueprints st;
     generatedScript := generatedScript st;
     customSnippets := customSnippets st;
     globalConfig := globalConfig st;
     syntaxErrors := syntaxErrors st;
     draggedItem := draggedItem st;
     isAddSnippetOpen := isAddSnippetOpen st;
     newSnippet := form |}.

Definition set_isAddSnippetOpen (st : AppState) (open : bool) : AppState :=
  {| blueprints := blueprints st;
     generatedScript := generatedScript st;
     customSnippets := customSnippets st;
     globalConfig := globalConfig st;
     syntaxErrors := syntaxErrors st;
     draggedItem := draggedItem st;
     isAddSnippetOpen := open;
     newSnippet := newSnippet st |}.

(** [CATEGORIES.filter(cat => cat !== 'All')], the items of the category
    select of the snippet form. *)
Definition selectable_categories : list string :=
  filter (fun cat => negb (cat =? "All")) CATEGORIES.

(** The [onChange] of the input of [param] on a blueprint card. *)
Definition editParameter (blueprint : Blueprint) (param v : string) (st : AppState) : AppState :=
  let newParams := object_set param v (params_of blueprint) in
  updateBlueprintParams (id blueprint) newParams st.

(** What the user can do, control by control.  Cards, rows and items are
    named by their place in the list shown.  A drop on a card comes with
    whatever drag data the drag carries: the data a card wrote when the drag
    started on it, or the data of a drag that started elsewhere. *)
Inductive Event : Type :=
| ClickAdd (now : nat) (rnd : string) (searchTerm selectedCategory : string) (card : nat)
| ClickRemove (card : nat)
| TypeParameter (card : nat) (param v : string)
| DragStart (card : nat)
| DropData (dt : DataTransfer) (dropCard : nat)
| ClickGenerate (now : string)
| TypeInForm (field : FormField) (v : string)
| SelectCategory (item : nat)
| OpenSnippetDialog (open : bool)
| ClickAddSnippet (now : nat) (rnd : string)
| ClickAddVariable
| TypeVariable (row : nat) (field : ConfigField) (v : string)
| ClickRemoveVariable (row : nat).

(** The state after an event.  [None] when the control is not on the
    screen, when a drop leaves a list that holds an entry that is no
    blueprint, or when generation meets a pattern that is left
    uninterpreted.  An exception thrown by [generateScript] leaves the
    state as it is. *)
Definition handle (e : Event) (st : AppState) : option AppState :=
  match e with
  | ClickAdd now rnd searchTerm selectedCategory card =>
      match nth_error (filteredSnippets searchTerm selectedCategory st) card with
      | Some s => Some (fst (addBlueprint now rnd s st))
      | None => None
      end
  | ClickRemove card =>
      match nth_error (blueprints st) card with
      | Some bp => Some (fst (removeBlueprint (id bp) st))
      | None => None
      end
  | TypeParameter card param v =>
      match nth_error (blueprints st) card with
      | Some bp =>
          match parameters (snippet bp) with
          | Some ps =>
              if existsb (String.eqb param) ps then Some (editParameter bp param v st) else None
          | None => None
          end
      | None => None
      end
  | DragStart card =>
      match nth_error (blueprints st) card with
      | Some bp =>
          let dt := {| effectAllowed := "uninitialized"; dropEffect := "none"; items := [] |} in
          Some (fst (handleDragStart (id bp) card st dt))
      | None => None
      end
  | DropData dt dropCard =>
      if (dropCard <? List.length (blueprints st))%nat
      then handleDrop_event dt dropCard st else None
  | ClickGenerate now =>
      match generateScript now st with
      | Normal (st', _) => Some st'
      | SyntaxErrorThrown => Some st
      | Unmodelled => None
      end
  | TypeInForm field v => Some (set_newSnippet st (edit_form field v (newSnippet st)))
  | SelectCategory item =>
      match nth_error selectable_categories item with
      | Some cat => Some (set_newSnippet st (select_category cat (newSnippet st)))
      | None => None
      end
  | OpenSnippetDialog open => Some (set_isAddSnippetOpen st open)
  | ClickAddSnippet now rnd => Some (fst (addCustomSnippet now rnd st))
  | ClickAddVariable => Some (addGlobalConfigVar st)
  | TypeVariable row field v =>
      match nth_error (globalConfig st) row with
      | Some (key, _) => updateGlobalConfigVar key field v st
      | None => None
      end
  | ClickRemoveVariable row =>
      match nth_error (globalConfig st) row with
      | Some (key, _) => Some (removeGlobalConfigVar key st)
      | None => None
      end
  end.

Fixpoint run_events (events : list Event) (st : AppState) : option AppState :=
  match events with
  | [] => Some st
  | e :: rest =>
      match handle e st with
      | Some st' => run_events rest st'
      | None => None
      end
  end.

(** The control of an event is on the screen. *)
Definition on_screen (e : Event) (st : AppState) : bool :=
  match e with
  | ClickAdd _ _ searchTerm selectedCategory card =>
      (card <? List.length (filteredSnippets searchTerm selectedCategory st))%nat
  | ClickRemove card => (card <? List.length (blueprints st))%nat
  | TypeParameter card param _ =>
      match nth_error (blueprints st) card with
      | Some bp =>
          match parameters (snippet bp) with
          | Some ps => existsb (String.eqb param) ps
          | None => false
          end
      | None => false
      end
  | DragStart card => (card <? List.length (blueprints st))%nat
  | DropData _ dropCard => (dropCard <? List.length (blueprints st))%nat
  | SelectCategory item => (item <? List.length selectable_categories)%nat
  | TypeVariable row _ _ => (row <? List.length (globalConfig st))%nat
  | ClickRemoveVariable row => (row <? List.length (globalConfig st))%nat
  | ClickGenerate _ | TypeInForm _ _ | OpenSnippetDialog _ | ClickAddSnippet _ _
  | ClickAddVariable => true
  end.

(** A blueprint whose snippet is in the library and whose parameter keys
    are parameters that some snippet of the library declares. *)
Definition card_ok (library : list Snippet) (bp : Blueprint) : Prop :=
  In (snippet bp) library /\
  forall key, In key (map fst (params_of bp)) ->
    exists s, In s library /\ In key (declared s).

(** A custom snippet as the form lets it through. *)
Definition custom_ok (s : Snippet) : Prop :=
  isCustom s = Some true /\ name s <> EmptyString /\ code s <> EmptyString /\
  In (category s) selectable_categories.

(** What holds of every state the interface can reach. *)
Record coherent (st : AppState) : Prop := {
  warnings_of_script : syntaxErrors st = validateSyntax (generatedScript st);
  script_headed :
    generatedScript st = EmptyString \/
    prefix "// Generated Script from Blueprint Generator" (generatedScript st) = true;
  config_keys_plain : plain_keys (globalConfig st) = true;
  config_keys_distinct : NoDup (map fst (globalConfig st));
  form_category_selectable : In (form_category (newSnippet st)) selectable_categories;
  custom_snippets_ok : Forall custom_ok (customSnippets st);
  cards_ok : Forall (card_ok (allSnippets st)) (blueprints st)
}.


(** ** The reorder on whatever the drag data holds *)

(** The start of [arr.splice(start, ...)] for a Number: [NaN] counts as 0,
    a negative start counts from the end, and the start is clamped to the
    array. *)
Definition splice_start (start : option Z) (len : nat) : nat :=
  match start with
  | None => 0
  | Some z =>
      if (z <? 0)%Z then Z.to_nat (Z.max (Z.of_nat len + z) 0)
      else Nat.min (Z.to_nat z) len
  end.

(** [arr[i]] for a Number: [undefined], here [None], unless [i] is an
    index of the array. *)
Definition element_at {A : Type} (l : list A) (i : option Z) : option A :=
  match i with
  | Some z => if (0 <=? z)%Z then nth_error l (Z.to_nat z) else None
  | None => None
  end.

(** The updater of [reorderBlueprints] on any Number.  An entry [None] of
    the result is an object that only has the field [order], which is what
    [{ ...undefined, order: index }] builds. *)
Definition reorderBlueprints_any (dragIndex : option Z) (hoverIndex : nat)
    (prev : list Blueprint) : list (option Blueprint) :=
  let newBlueprints := map Some prev in
  let draggedBlueprint := element_at prev dragIndex in
  let newBlueprints :=
    splice_remove (splice_start dragIndex (List.length newBlueprints)) newBlueprints in
  let newBlueprints :=
    splice_insert (splice_start (Some (Z.of_nat hoverIndex)) (List.length newBlueprints))
                  draggedBlueprint newBlueprints in
  mapi (fun bp index => option_map (fun b => set_order b index) bp) newBlueprints.

(** The list [handleDrop] leaves, for any drag data. *)
Definition cards_after_drop (dt : DataTransfer) (dropIndex : nat) (st : AppState)
    : list (option Blueprint) :=
  let dragIndex := parseInt (getData "text/plain" dt) in
  match dragIndex with
  | Some z =>
      if (z =? Z.of_nat dropIndex)%Z then map Some (blueprints st)
      else reorderBlueprints_any dragIndex dropIndex (blueprints st)
  | None => reorderBlueprints_any dragIndex dropIndex (blueprints st)
  end.


(** ** The code shown on a blueprint card *)

(** The text of the [pre] element: the first five lines of the snippet's
    code, and a line of three dots when there are more. *)
Definition code_preview (code : string) : string :=
  join LF (firstn 5 (split (ascii_of_nat 10) code)) ++
  (if (5 <? List.length (split (ascii_of_nat 10) code))%nat then LF ++ "..." else EmptyString).


(** *** Override values that hold tokens *)









(** * Properties *)

(** ** Facts about strings *)

Section StringFacts.

Lemma append_nil_r (s : string) : s ++ EmptyString = s.
Proof. induction s as [|c s IH]; simpl; [reflexivity | now rewrite IH]. Qed.

Lemma append_assoc (a b c : string) : (a ++ b) ++ c = a ++ (b ++ c).
Proof. induction a as [|x a IH]; simpl; [reflexivity | now rewrite IH]. Qed.

Lemma prefix_append (p r : string) : prefix p (p ++ r) = true.
Proof.
  induction p as [|c p IH]; simpl.
  - now destruct r.
  - destruct (ascii_dec c c) as [_|N]; [exact IH | now elim N].
Qed.

Lemma prefix_inv (p s : string) : prefix p s = true -> exists r, s = p ++ r.
Proof.
  revert s; induction p as [|c p IH]; intros s H.
  - now exists s.
  - destruct s as [|d s]; simpl in H; [discriminate|].
    destruct (ascii_dec c d) as [->|_]; [|discriminate].
    destruct (IH _ H) as [r ->]. now exists r.
Qed.

Lemma includes_spec (s pat : string) : includes s pat = true <-> is_substring pat s.
Proof.
  split.
  - induction s as [|c s IH]; cbn [includes]; intros H.
    + rewrite orb_false_r in H. apply prefix_inv in H as [r E].
      exists EmptyString, r. exact E.
    + apply orb_true_iff in H as [H|H].
      * apply prefix_inv in H as [r E]. exists EmptyString, r. exact E.
      * destruct (IH H) as (pre & post & ->). now exists (String c pre), post.
  - intros (pre & post & ->). induction pre as [|c pre IH].
    + change (includes (pat ++ post) pat = true).
      destruct (pat ++ post) eqn:E; cbn [includes]; rewrite <- E, prefix_append;
        reflexivity.
    + change (includes (String c (pre ++ pat ++ post)) pat = true).
      cbn [includes]. rewrite IH. apply orb_true_r.
Qed.

Lemma includes_false (s pat : string) : includes s pat = false -> ~ is_substring pat s.
Proof. intros H S. apply includes_spec in S. congruence. Qed.

End StringFacts.

(** Brings appends into right-nested form. *)
Ltac norm_append := repeat first [rewrite append_assoc | progress cbn [append]].

(** ** Syntax checker *)

(** C9. The checker returns its warnings in the order of the four checks
    (braces, parentheses, [function(], [if(]), each present exactly when
    its check fires; the text [{ { } ] gets the brace warning and not the
    parenthesis warning; a text with as many opening as closing braces and
    parentheses and without the two substrings gets no warning. *)
Theorem validateSyntax_check_order (code : string) :
  (exists b1 b2 b3 b4 : bool,
     validateSyntax code =
       (keep b1 "Mismatched curly braces" ++ keep b2 "Mismatched parentheses" ++
        keep b3 "Missing space after function keyword" ++
        keep b4 "Missing space after if keyword")%list /\
     (b1 = true <-> count_char "{" code <> count_char "}" code) /\
     (b2 = true <-> count_char "(" code <> count_char ")" code) /\
     (b3 = true <-> is_substring "function(" code) /\
     (b4 = true <-> is_substring "if(" code)) /\
  (In "Mismatched curly braces" (validateSyntax "{ { } ") /\
   ~ In "Mismatched parentheses" (validateSyntax "{ { } ")) /\
  (count_char "{" code = count_char "}" code ->
   count_char "(" code = count_char ")" code ->
   ~ is_substring "function(" code ->
   ~ is_substring "if(" code ->
   validateSyntax code = []).
Proof.
  split; [|split].
  - exists (negb (count_char "{" code =? count_char "}" code)%nat),
           (negb (count_char "(" code =? count_char ")" code)%nat),
           (includes code "function("), (includes code "if(").
    split.
    + unfold validateSyntax.
      destruct (negb (count_char "{" code =? count_char "}" code)%nat),
               (negb (count_char "(" code =? count_char ")" code)%nat),
               (includes code "function("), (includes code "if("); reflexivity.
    + rewrite !negb_true_iff, !Nat.eqb_neq.
      repeat split; try (apply includes_spec); intros H; exact H.
  - split.
    + vm_compute. now left.
    + vm_compute. intros [H|[]]. discriminate.
  - intros Hb Hp Hf Hi. unfold validateSyntax.
    rewrite Hb, Hp, !Nat.eqb_refl. simpl.
    destruct (includes code "function(") eqn:Ef.
    { exfalso. apply Hf. now apply includes_spec. }
    destruct (includes code "if(") eqn:Ei.
    { exfalso. apply Hi. now apply includes_spec. }
    reflexivity.
Qed.

Lemma validateSyntax_check_order_witness : validateSyntax "foo(1)" = [].
Proof.
  apply (proj2 (proj2 (validateSyntax_check_order "foo(1)"))).
  - reflexivity.
  - reflexivity.
  - apply includes_false. reflexivity.
  - apply includes_false. reflexivity.
Defined.

(** ** Custom snippets *)

Section SplitTrim.

Lemma split_not_nil (sep : ascii) (s : string) : split sep s <> [].
Proof.
  destruct s as [|c s]; simpl; [discriminate|].
  destruct (Ascii.eqb c sep); [discriminate|].
  destruct (split sep s); discriminate.
Qed.

Lemma join_cons (sep x : string) (l : list string) :
  l <> [] -> join sep (x :: l) = x ++ sep ++ join sep l.
Proof. destruct l; [congruence | reflexivity]. Qed.

Lemma join_split (sep : ascii) (s : string) :
  join (String sep EmptyString) (split sep s) = s.
Proof.
  induction s as [|c s IH]; [reflexivity|].
  cbn [split]. destruct (Ascii.eqb_spec c sep) as [->|N].
  - rewrite join_cons by apply split_not_nil. simpl. now rewrite IH.
  - pose proof (split_not_nil sep s) as NE.
    destruct (split sep s) as [|h t]; [congruence|].
    destruct t as [|h' t].
    + simpl in *. now rewrite IH.
    + rewrite join_cons by discriminate. rewrite join_cons in IH by discriminate.
      rewrite <- IH. reflexivity.
Qed.

Lemma split_pieces (sep : ascii) (s : string) :
  Forall (fun p => count_char sep p = 0) (split sep s).
Proof.
  induction s as [|c s IH]; cbn [split].
  - now constructor.
  - destruct (Ascii.eqb_spec c sep) as [->|N].
    + now constructor.
    + destruct (split sep s) as [|h t].
      * constructor; [|constructor]. simpl.
        destruct (Ascii.eqb_spec c sep); [contradiction | reflexivity].
      * inversion IH; subst. constructor; [|assumption]. simpl.
        destruct (Ascii.eqb_spec c sep); [contradiction | assumption].
Qed.

Lemma trimStart_spec (s : string) :
  exists l, s = l ++ trimStart s /\ all_chars is_white_space l = true.
Proof.
  induction s as [|c s (l & E & W)]; simpl.
  - now exists EmptyString.
  - destruct (is_white_space c) eqn:Ec.
    + exists (String c l). simpl. rewrite Ec, W. now rewrite <- E.
    + now exists EmptyString.
Qed.

Lemma trimEnd_spec (s : string) :
  exists r, s = trimEnd s ++ r /\ all_chars is_white_space r = true.
Proof.
  induction s as [|c s (r & E & W)]; simpl.
  - now exists EmptyString.
  - destruct (is_white_space c && is_empty (trimEnd s)) eqn:Ec.
    + apply andb_true_iff in Ec as [Ec Ee].
      destruct (trimEnd s); [|discriminate]. simpl in E. subst s.
      exists (String c r). simpl. now rewrite Ec, W.
    + exists r. simpl. now rewrite <- E.
Qed.

Lemma trim_spec (s : string) :
  exists l r, s = l ++ trim s ++ r /\
    all_chars is_white_space l = true /\ all_chars is_white_space r = true.
Proof.
  destruct (trimStart_spec s) as (l & El & Wl).
  destruct (trimEnd_spec (trimStart s)) as (r & Er & Wr).
  exists l, r. unfold trim. now rewrite <- Er.
Qed.

Lemma trimEnd_idempotent (s : string) : trimEnd (trimEnd s) = trimEnd s.
Proof.
  induction s as [|c s IH]; simpl; [reflexivity|].
  destruct (is_white_space c && is_empty (trimEnd s)) eqn:Ec; [reflexivity|].
  simpl. now rewrite IH, Ec.
Qed.

Lemma trimStart_fixed (s : string) :
  match s with String c _ => is_white_space c = false | EmptyString => True end ->
  trimStart s = s.
Proof. destruct s as [|c s]; simpl; [reflexivity | now intros ->]. Qed.

Lemma trimStart_head (s : string) :
  match trimStart s with String c _ => is_white_space c = false | EmptyString => True end.
Proof.
  induction s as [|c s IH]; simpl; [exact I|].
  destruct (is_white_space c) eqn:Ec; [exact IH | exact Ec].
Qed.

Lemma trimEnd_head (s : string) :
  match s with String c _ => is_white_space c = false | EmptyString => True end ->
  match trimEnd s with String c _ => is_white_space c = false | EmptyString => True end.
Proof.
  destruct s as [|c s]; simpl; [trivial|]. intros H. now rewrite H.
Qed.

Lemma trim_idempotent (s : string) : trim (trim s) = trim s.
Proof.
  unfold trim.
  rewrite (trimStart_fixed (trimEnd (trimStart s))).
  - apply trimEnd_idempotent.
  - apply trimEnd_head, trimStart_head.
Qed.

Lemma count_char_append (c : ascii) (a b : string) :
  count_char c (a ++ b) = count_char c a + count_char c b.
Proof. induction a as [|x a IH]; simpl; [reflexivity | rewrite IH; lia]. Qed.

Lemma trim_count_char (c : ascii) (s : string) :
  count_char c s = 0 -> count_char c (trim s) = 0.
Proof.
  destruct (trim_spec s) as (l & r & E & _). intros H.
  rewrite E, !count_char_append in H. lia.
Qed.

Lemma is_empty_spec (s : string) : is_empty s = true <-> s = EmptyString.
Proof. destruct s; simpl; split; congruence. Qed.

Lemma parse_parameters_entries (input : string) :
  Forall (fun p => p <> EmptyString /\ trim p = p /\ count_char "," p = 0)
         (parse_parameters input).
Proof.
  unfold parse_parameters. apply Forall_forall. intros p Hp.
  apply filter_In in Hp as [Hp Hne]. apply in_map_iff in Hp as (q & <- & Hq).
  repeat split.
  - intros E. apply is_empty_spec in E. rewrite E in Hne. discriminate.
  - apply trim_idempotent.
  - apply trim_count_char.
    exact (proj1 (Forall_forall _ _) (split_pieces "," input) q Hq).
Qed.

End SplitTrim.

(** C8, as the code has it.  Adding a custom snippet is rejected, with the
    state unchanged, when the name or the code is the empty string (no
    trimming is applied to either); otherwise a snippet marked custom is
    appended whose parameters are the pieces of the input between commas,
    each trimmed, the empty ones dropped, in their order; the input
    [a, ,b] gives exactly [a] and [b]. *)
Theorem addCustomSnippet_outcome (now : nat) (rnd : string) (st : AppState) :
  (form_name (newSnippet st) = EmptyString \/ form_code (newSnippet st) = EmptyString ->
   addCustomSnippet now rnd st = (st, missing_information_toast)) /\
  (form_name (newSnippet st) <> EmptyString ->
   form_code (newSnippet st) <> EmptyString ->
   exists s,
     customSnippets (fst (addCustomSnippet now rnd st)) = (customSnippets st ++ [s])%list /\
     name s = form_name (newSnippet st) /\
     code s = form_code (newSnippet st) /\
     isCustom s = Some true /\
     parameters s = Some (parse_parameters (form_parameters (newSnippet st)))) /\
  (forall input,
     join "," (split "," input) = input /\
     parse_parameters input =
       filter (fun p => negb (is_empty p)) (map trim (split "," input)) /\
     Forall (fun p => p <> EmptyString /\ trim p = p /\ count_char "," p = 0)
            (parse_parameters input)) /\
  parse_parameters "a, ,b" = ["a"; "b"].
Proof.
  repeat split.
  - intros H. unfold addCustomSnippet.
    destruct H as [H|H]; rewrite H; simpl; [reflexivity|].
    now rewrite orb_true_r.
  - intros Hn Hc. unfold addCustomSnippet.
    destruct (form_name (newSnippet st)) eqn:En; [congruence|].
    destruct (form_code (newSnippet st)) eqn:Ec; [congruence|].
    simpl. eexists. repeat split.
  - apply join_split.
  - apply parse_parameters_entries.
Qed.

Lemma addCustomSnippet_outcome_witness :
  exists s,
    customSnippets (fst (addCustomSnippet 7 "k3" (state_with_form (log_form "Log" "a, ,b")))) = [s] /\
    name s = "Log" /\ code s = "console.log(1)" /\ isCustom s = Some true /\
    parameters s = Some (parse_parameters "a, ,b").
Proof.
  apply (proj1 (proj2 (addCustomSnippet_outcome 7 "k3" (state_with_form (log_form "Log" "a, ,b"))))).
  - simpl. discriminate.
  - simpl. discriminate.
Defined.

(** C8, the claim as stated fails: a name made of one space is empty after
    trimming, and the snippet is added all the same. *)
Lemma blank_name_is_accepted :
  trim " " = EmptyString /\
  map name (customSnippets (fst (addCustomSnippet 7 "k3" (state_with_form (log_form " " "a"))))) = [" "].
Proof. split; reflexivity. Qed.

(** ** Reordering *)

Section Reorder.

Lemma mapi_from_orders (start : nat) (l : list Blueprint) :
  orders (mapi_from set_order start l) = seq start (List.length l).
Proof.
  revert start; induction l as [|b l IH]; intros start; simpl; [reflexivity|].
  f_equal. apply IH.
Qed.

Lemma mapi_from_placements (start : nat) (l : list Blueprint) :
  placements (mapi_from set_order start l) = placements l.
Proof.
  revert start; induction l as [|b l IH]; intros start; simpl; [reflexivity|].
  f_equal. apply IH.
Qed.

Lemma length_splice_remove {A : Type} (i : nat) (l : list A) :
  i < List.length l -> S (List.length (splice_remove i l)) = List.length l.
Proof.
  intros H. unfold splice_remove.
  rewrite length_app, length_firstn, length_skipn. lia.
Qed.

Lemma length_splice_insert {A : Type} (j : nat) (x : A) (l : list A) :
  List.length (splice_insert j x l) = S (List.length l).
Proof.
  unfold splice_insert. rewrite length_app. simpl.
  rewrite length_firstn, length_skipn. lia.
Qed.

Lemma nth_error_splice_insert {A : Type} (j : nat) (x : A) (l : list A) :
  j <= List.length l -> nth_error (splice_insert j x l) j = Some x.
Proof.
  intros H. unfold splice_insert.
  rewrite nth_error_app2; rewrite length_firstn, Nat.min_l by lia; [|lia].
  now rewrite Nat.sub_diag.
Qed.

Lemma splice_remove_insert {A : Type} (j : nat) (x : A) (l : list A) :
  j <= List.length l -> splice_remove j (splice_insert j x l) = l.
Proof.
  intros H. unfold splice_remove, splice_insert.
  assert (L : List.length (firstn j l) = j) by (rewrite length_firstn; lia).
  rewrite firstn_app, skipn_app, L, Nat.sub_diag.
  replace (S j - j) with 1 by lia.
  rewrite (firstn_all2 (n := j) (firstn j l)) by lia.
  rewrite (skipn_all2 (n := S j) (firstn j l)) by lia.
  simpl. rewrite app_nil_r. apply firstn_skipn.
Qed.

Lemma map_splice_remove {A B : Type} (f : A -> B) (i : nat) (l : list A) :
  map f (splice_remove i l) = splice_remove i (map f l).
Proof. unfold splice_remove. now rewrite map_app, firstn_map, skipn_map. Qed.

Lemma map_splice_insert {A B : Type} (f : A -> B) (j : nat) (x : A) (l : list A) :
  map f (splice_insert j x l) = splice_insert j (f x) (map f l).
Proof. unfold splice_insert. now rewrite map_app, firstn_map; simpl; rewrite skipn_map. Qed.

Lemma reorderBlueprints_spec (i j : nat) (l : list Blueprint) :
  i < List.length l -> j < List.length l ->
  exists moved l',
    nth_error l i = Some moved /\
    reorderBlueprints i j l = Some l' /\
    placements l' = splice_insert j (placement moved) (splice_remove i (placements l)) /\
    orders l' = seq 0 (List.length l).
Proof.
  intros Hi Hj.
  destruct (nth_error l i) as [moved|] eqn:E.
  2:{ apply nth_error_None in E. lia. }
  exists moved. eexists. split; [reflexivity|].
  unfold reorderBlueprints. rewrite E. split; [reflexivity|]. split.
  - unfold mapi. rewrite mapi_from_placements. unfold placements.
    now rewrite map_splice_insert, map_splice_remove.
  - unfold mapi. rewrite mapi_from_orders, length_splice_insert.
    now rewrite length_splice_remove.
Qed.

Lemma updateBlueprintParams_orders (blueprintId : string) (params : list (string * string))
    (st : AppState) :
  orders (blueprints (updateBlueprintParams blueprintId params st)) = orders (blueprints st).
Proof.
  unfold updateBlueprintParams, orders. cbn [blueprints set_blueprints].
  rewrite map_map. apply map_ext. intros bp. now destruct (id bp =? blueprintId).
Qed.

End Reorder.

(** C7.  For valid indices [i] and [j], the updater of
    [reorderBlueprints] moves the entry at index [i] to index [j], keeps the
    other entries in their order, and numbers the positions [0 .. n-1] in
    array order; dropping a card on another one ([i <> j]) installs that
    list; dropping it on itself ([i = j]) skips the updater and leaves the
    list and its positions as they were. *)
Theorem reorder_positions (st : AppState) (i j : nat) :
  i < List.length (blueprints st) ->
  j < List.length (blueprints st) ->
  exists moved l',
    nth_error (blueprints st) i = Some moved /\
    reorderBlueprints i j (blueprints st) = Some l' /\
    nth_error (placements l') j = Some (placement moved) /\
    splice_remove j (placements l') = splice_remove i (placements (blueprints st)) /\
    List.length l' = List.length (blueprints st) /\
    orders l' = seq 0 (List.length (blueprints st)) /\
    (i <> j -> handleDrop i j st = Some (set_draggedItem (set_blueprints st l') None)) /\
    (exists st', handleDrop i i st = Some st' /\ blueprints st' = blueprints st).
Proof.
  intros Hi Hj.
  destruct (reorderBlueprints_spec i j (blueprints st) Hi Hj) as (moved & l' & E & R & P & O).
  assert (L : j <= List.length (splice_remove i (placements (blueprints st)))).
  { pose proof (length_splice_remove i (placements (blueprints st))) as H.
    unfold placements in *. rewrite length_map in H. specialize (H Hi). lia. }
  exists moved, l'. repeat split; try assumption.
  - rewrite P. now apply nth_error_splice_insert.
  - rewrite P. now apply splice_remove_insert.
  - apply (f_equal (@List.length nat)) in O.
    unfold orders in O. now rewrite length_map, length_seq in O.
  - intros N. unfold handleDrop.
    destruct (Nat.eqb_spec i j) as [->|_]; [contradiction|]. simpl. now rewrite R.
  - exists (set_draggedItem st None). unfold handleDrop.
    rewrite Nat.eqb_refl. split; reflexivity.
Qed.

Lemma reorder_positions_witness :
  exists moved l',
    nth_error (blueprints gapped_state) 0 = Some moved /\
    reorderBlueprints 0 1 (blueprints gapped_state) = Some l' /\
    nth_error (placements l') 1 = Some (placement moved) /\
    splice_remove 1 (placements l') = splice_remove 0 (placements (blueprints gapped_state)) /\
    List.length l' = 2 /\
    orders l' = [0; 1] /\
    (0 <> 1 -> handleDrop 0 1 gapped_state =
                 Some (set_draggedItem (set_blueprints gapped_state l') None)) /\
    (exists st', handleDrop 0 0 gapped_state = Some st' /\
                 blueprints st' = blueprints gapped_state).
Proof.
  apply (reorder_positions gapped_state 0 1); simpl; lia.
Defined.

(** ** Sorting by a numeric key *)

Section SortByKey.

Variable A : Type.
Variable key : A -> nat.

Let by_key (a b : A) : Z := (Z.of_nat (key a) - Z.of_nat (key b))%Z.

Lemma sort_insert_perm (a : A) (l : list A) :
  Permutation (a :: l) (sort_insert by_key a l).
Proof.
  induction l as [|b l IH]; simpl; [reflexivity|].
  destruct (by_key a b <=? 0)%Z; [reflexivity|].
  rewrite perm_swap. now constructor.
Qed.

Lemma sort_perm (l : list A) : Permutation (sort by_key l) l.
Proof.
  induction l as [|a l IH]; simpl; [reflexivity|].
  rewrite <- sort_insert_perm. now constructor.
Qed.

Lemma sort_insert_sorted (a : A) (l : list A) :
  StronglySorted (fun x y => key x <= key y) l ->
  StronglySorted (fun x y => key x <= key y) (sort_insert by_key a l).
Proof.
  induction 1 as [|b l S IH F]; simpl.
  - repeat constructor.
  - unfold by_key at 1. destruct (Z.leb_spec (Z.of_nat (key a) - Z.of_nat (key b)) 0) as [L|L].
    + constructor; [now constructor|].
      constructor; [lia|]. eapply Forall_impl; [|exact F]. simpl. intros; lia.
    + constructor; [exact IH|].
      apply (Permutation_Forall (sort_insert_perm a l)).
      constructor; [lia | exact F].
Qed.

Lemma sort_sorted (l : list A) :
  StronglySorted (fun x y => key x <= key y) (sort by_key l).
Proof.
  induction l as [|a l IH]; simpl; [constructor | now apply sort_insert_sorted].
Qed.

Lemma filter_sort_insert (k : nat) (a : A) (l : list A) :
  filter (fun x => Nat.eqb (key x) k) (sort_insert by_key a l) =
  filter (fun x => Nat.eqb (key x) k) (a :: l).
Proof.
  induction l as [|b l IH]; [reflexivity|].
  cbn [sort_insert]. unfold by_key at 1.
  destruct (Z.leb_spec (Z.of_nat (key a) - Z.of_nat (key b)) 0) as [L|L]; [reflexivity|].
  cbn [filter] in *. rewrite IH.
  destruct (Nat.eqb_spec (key a) k) as [Ea|Na]; [|reflexivity].
  destruct (Nat.eqb_spec (key b) k) as [Eb|Nb]; [lia | reflexivity].
Qed.

(** The sort is stable: entries with equal keys keep their order. *)
Lemma sort_stable (k : nat) (l : list A) :
  filter (fun x => Nat.eqb (key x) k) (sort by_key l) = filter (fun x => Nat.eqb (key x) k) l.
Proof.
  induction l as [|a l IH]; [reflexivity|].
  cbn [sort]. rewrite filter_sort_insert. cbn [filter]. now rewrite IH.
Qed.

End SortByKey.

(** ** Running the generator *)

Section Generation.

Lemma all_chars_append (p : ascii -> bool) (a b : string) :
  all_chars p (a ++ b) = all_chars p a && all_chars p b.
Proof. induction a as [|c a IH]; simpl; [reflexivity | now rewrite IH, andb_assoc]. Qed.

Lemma some_char_append (p : ascii -> bool) (a b : string) :
  some_char p (a ++ b) = some_char p a || some_char p b.
Proof. induction a as [|c a IH]; simpl; [reflexivity | now rewrite IH, orb_assoc]. Qed.

Lemma placeholder_literal (key : string) :
  regex_free key = true -> is_literal_pattern ("%" ++ key ++ "%") = true.
Proof.
  intros H. unfold is_literal_pattern. simpl.
  unfold regex_free in H. now rewrite all_chars_append, H.
Qed.

Lemma replace_placeholders_abnormal {V : Type} (text : V -> string)
    (entries : list (string * V)) (c : completion string) :
  (forall s, c <> Normal s) -> replace_placeholders text entries c = c.
Proof.
  revert c; induction entries as [|e es IH]; intros c H; [reflexivity|].
  unfold replace_placeholders in *. simpl. rewrite IH.
  - destruct c; [now elim (H a) | reflexivity | reflexivity].
  - destruct c; [now elim (H a) | discriminate | discriminate].
Qed.

Lemma replace_placeholders_cons {V : Type} (text : V -> string) (key : string) (x : V)
    (entries : list (string * V)) (s : string) :
  replace_placeholders text ((key, x) :: entries) (Normal s) =
  replace_placeholders text entries (replace_RegExp_g ("%" ++ key ++ "%") (text x) s).
Proof. reflexivity. Qed.

Lemma replace_placeholders_normal {V : Type} (text : V -> string)
    (entries : list (string * V)) (s : string) :
  regex_free_keys entries = true ->
  exists s', replace_placeholders text entries (Normal s) = Normal s'.
Proof.
  revert s; induction entries as [|[key x] es IH]; intros s H.
  - now exists s.
  - unfold regex_free_keys in H. simpl in H. apply andb_true_iff in H as [Hk He].
    rewrite replace_placeholders_cons. unfold replace_RegExp_g.
    rewrite (placeholder_literal key Hk). apply IH. exact He.
Qed.

Lemma processSnippetCode_normal (code : string) (params : list (string * string))
    (config : GlobalConfig) :
  regex_free_keys params = true -> regex_free_keys config = true ->
  exists processedCode, processSnippetCode code params config = Normal processedCode.
Proof.
  intros Hp Hc. unfold processSnippetCode.
  destruct (replace_placeholders_normal (fun v => v) params code Hp) as [s ->].
  now apply replace_placeholders_normal.
Qed.

Lemma processSnippetCode_no_params (code : string) (config : GlobalConfig) :
  processSnippetCode code [] config = replace_placeholders value config (Normal code).
Proof. reflexivity. Qed.

Lemma drop_nulls_map_Some (l : list string) : drop_nulls (map Some l) = l.
Proof. induction l as [|a l IH]; simpl; [reflexivity | now rewrite IH]. Qed.

Lemma scriptParts_preamble (now : string) (config : GlobalConfig) (blocks : list (list string)) :
  scriptParts now config blocks = (preamble now config ++ concat blocks)%list.
Proof.
  unfold scriptParts. destruct config as [|e config]; simpl; now rewrite drop_nulls_map_Some.
Qed.

Lemma block_normal (config : GlobalConfig) (bp : Blueprint) :
  regex_free_keys (params_of bp) = true -> regex_free_keys config = true ->
  exists processedCode,
    processSnippetCode (code (snippet bp)) (params_of bp) config = Normal processedCode /\
    block config bp = Normal [comment_line (snippet bp); processedCode; EmptyString].
Proof.
  intros Hp Hc.
  destruct (processSnippetCode_normal (code (snippet bp)) _ _ Hp Hc) as [out E].
  exists out. split; [exact E|]. unfold block. now rewrite E.
Qed.

Lemma generateScript_nonempty (now : string) (st : AppState) (blocks : list (list string)) :
  blueprints st <> [] ->
  map_completion (block (globalConfig st)) (sort compare_order (blueprints st)) = Normal blocks ->
  exists toast,
    generateScript now st =
      Normal (set_generated st
                (validateSyntax (join LF (preamble now (globalConfig st) ++ concat blocks)))
                (join LF (preamble now (globalConfig st) ++ concat blocks)),
              toast) /\
    title toast <> "No Blueprints".
Proof.
  intros NE E. unfold generateScript.
  destruct (blueprints st) as [|b l] eqn:B; [congruence|]. cbn [List.length Nat.eqb].
  rewrite E. cbn [bind]. rewrite scriptParts_preamble.
  eexists. split; [reflexivity|]. cbn [title].
  destruct (0 <? _)%nat; discriminate.
Qed.

Lemma blocks_normal (st : AppState) :
  literal_placeholders st = true ->
  exists blocks,
    map_completion (block (globalConfig st)) (sort compare_order (blueprints st)) = Normal blocks /\
    Forall2 (fun bp blk => exists processedCode,
               processSnippetCode (code (snippet bp)) (params_of bp) (globalConfig st)
                 = Normal processedCode /\
               blk = [comment_line (snippet bp); processedCode; EmptyString])
            (sort compare_order (blueprints st)) blocks.
Proof.
  intros H. apply andb_true_iff in H as [Hb Hc].
  assert (F : Forall (fun bp => regex_free_keys (params_of bp) = true)
                     (sort compare_order (blueprints st))).
  { apply (Permutation_Forall (Permutation_sym (sort_perm Blueprint order (blueprints st)))).
    apply Forall_forall. intros bp Hin.
    exact (proj1 (forallb_forall _ _) Hb bp Hin). }
  induction F as [|bp l Hbp F IH]; simpl.
  - exists []. split; [reflexivity | constructor].
  - destruct IH as (blocks & E & F2).
    destruct (block_normal (globalConfig st) bp Hbp Hc) as (out & P & Bk).
    exists ([comment_line (snippet bp); out; EmptyString] :: blocks).
    rewrite Bk, E. split; [reflexivity|]. constructor; [|exact F2].
    exists out. now split.
Qed.

End Generation.

(** ** Script generation *)

(** C6, as the code has it.  On an empty blueprint list the generator
    returns the state as it was, with the rejection toast.  On a non-empty
    list whose placeholders are free of regular-expression syntax
    characters it completes, stores the script and its warnings, and
    raises another toast, whether or not the configuration table is
    empty. *)
Theorem generateScript_rejects_empty_list (now : string) (st : AppState) :
  (blueprints st = [] -> generateScript now st = Normal (st, no_blueprints_toast)) /\
  (blueprints st <> [] ->
   literal_placeholders st = true ->
   exists script toast,
     generateScript now st = Normal (set_generated st (validateSyntax script) script, toast) /\
     title toast <> title no_blueprints_toast).
Proof.
  split.
  - intros E. unfold generateScript. now rewrite E.
  - intros NE H.
    destruct (blocks_normal st H) as (blocks & E & _).
    destruct (generateScript_nonempty now st blocks NE E) as (toast & G & T).
    eauto.
Qed.

Lemma generateScript_rejects_empty_list_witness :
  exists script toast,
    generateScript "2026-01-01T00:00:00.000Z" (state_of [sample_blueprint "foo(%x%)" 0 [("x", "1")]] []) =
      Normal (set_generated (state_of [sample_blueprint "foo(%x%)" 0 [("x", "1")]] [])
                (validateSyntax script) script, toast) /\
    title toast <> title no_blueprints_toast.
Proof.
  apply (proj2 (generateScript_rejects_empty_list "2026-01-01T00:00:00.000Z"
                  (state_of [sample_blueprint "foo(%x%)" 0 [("x", "1")]] []))).
  - simpl. discriminate.
  - reflexivity.
Defined.

(** C6, the claim as stated fails: with one blueprint whose parameter is
    named [(], the placeholder is no regular expression, the constructor
    throws and nothing is generated, although the list is not empty. *)
Lemma generateScript_throws_on_open_paren :
  List.length (blueprints open_paren_state) = 1 /\
  globalConfig open_paren_state = [] /\
  generateScript "2026-01-01T00:00:00.000Z" open_paren_state = SyntaxErrorThrown.
Proof. repeat split. Qed.

(** C1, as the code has it.  For a non-empty list whose placeholders are
    free of regular-expression syntax characters, the script is the
    preamble followed by one block per blueprint, the blueprints taken in
    ascending position; a block is the comment line made of the snippet's
    name and description, the processed code and an empty part, and the
    comment line has a line break only where the name or the description
    has one. *)
Theorem generateScript_blocks (now : string) (st : AppState) :
  blueprints st <> [] ->
  literal_placeholders st = true ->
  exists blocks toast,
    Permutation (sort compare_order (blueprints st)) (blueprints st) /\
    StronglySorted (fun a b => order a <= order b) (sort compare_order (blueprints st)) /\
    Forall2 (fun bp blk => exists processedCode,
               processSnippetCode (code (snippet bp)) (params_of bp) (globalConfig st)
                 = Normal processedCode /\
               blk = [comment_line (snippet bp); processedCode; EmptyString])
            (sort compare_order (blueprints st)) blocks /\
    generateScript now st =
      Normal (set_generated st
                (validateSyntax (join LF (preamble now (globalConfig st) ++ concat blocks)))
                (join LF (preamble now (globalConfig st) ++ concat blocks)),
              toast) /\
    (forall (s : Snippet) (c : ascii),
       count_char c (comment_line s) =
       count_char c "//  - " + count_char c (name s) + count_char c (description s)).
Proof.
  intros NE H.
  destruct (blocks_normal st H) as (blocks & E & F).
  destruct (generateScript_nonempty now st blocks NE E) as (toast & G & _).
  exists blocks, toast. repeat split.
  - apply (sort_perm Blueprint order).
  - apply (sort_sorted Blueprint order).
  - exact F.
  - exact G.
  - intros s c. unfold comment_line. rewrite !count_char_append. simpl. lia.
Qed.

Lemma generateScript_blocks_witness :
  exists blocks toast,
    Permutation (sort compare_order (blueprints gapped_state)) (blueprints gapped_state) /\
    StronglySorted (fun a b => order a <= order b)
      (sort compare_order (blueprints gapped_state)) /\
    Forall2 (fun bp blk => exists processedCode,
               processSnippetCode (code (snippet bp)) (params_of bp) (globalConfig gapped_state)
                 = Normal processedCode /\
               blk = [comment_line (snippet bp); processedCode; EmptyString])
            (sort compare_order (blueprints gapped_state)) blocks /\
    generateScript "2026-01-01T00:00:00.000Z" gapped_state =
      Normal (set_generated gapped_state
                (validateSyntax
                   (join LF (preamble "2026-01-01T00:00:00.000Z" (globalConfig gapped_state)
                             ++ concat blocks)))
                (join LF (preamble "2026-01-01T00:00:00.000Z" (globalConfig gapped_state)
                          ++ concat blocks)),
              toast) /\
    (forall (s : Snippet) (c : ascii),
       count_char c (comment_line s) =
       count_char c "//  - " + count_char c (name s) + count_char c (description s)).
Proof.
  apply (generateScript_blocks "2026-01-01T00:00:00.000Z" gapped_state).
  - simpl. discriminate.
  - reflexivity.
Defined.

(** C1, the claim as stated fails: the list below has two blueprints, the
    second with a parameter named [size(px]; the generator throws while
    processing it and the stored script still is the earlier one, with no
    block for either blueprint. *)
Lemma generateScript_no_blocks_for_size_px :
  List.length (blueprints size_state) = 2 /\
  generateScript "2026-01-01T00:00:00.000Z" size_state = SyntaxErrorThrown /\
  generatedScript size_state = "// earlier output".
Proof. repeat split. Qed.

(** ** Positions after additions and removals *)

Lemma blueprints_after_add_add_remove_add (st : AppState)
    (n1 n2 n3 : nat) (r1 r2 r3 : string) (s1 s2 s3 : Snippet) :
  blueprints st = [] ->
  blueprint_id n1 r1 <> blueprint_id n2 r2 ->
  blueprints
    (fst (addBlueprint n3 r3 s3
       (fst (removeBlueprint (blueprint_id n1 r1)
          (fst (addBlueprint n2 r2 s2 (fst (addBlueprint n1 r1 s1 st)))))))) =
  [ {| id := blueprint_id n2 r2; snippet := s2; order := 1; customParams := Some [] |};
    {| id := blueprint_id n3 r3; snippet := s3; order := 1; customParams := Some [] |} ].
Proof.
  intros B N.
  cbn -[blueprint_id String.eqb]. rewrite B.
  cbn -[blueprint_id String.eqb].
  rewrite String.eqb_refl.
  destruct (String.eqb_spec (blueprint_id n2 r2) (blueprint_id n1 r1)) as [E|_];
    [now elim N|].
  reflexivity.
Qed.

(** C10.  Starting from an empty list, adding three snippets with the
    first entry removed before the third addition leaves two different
    blueprints that both hold position 1.  The sort keeps entries of equal
    position in array order, so the generated script has their blocks in
    array order. *)
Theorem positions_can_collide (st : AppState)
    (n1 n2 n3 : nat) (r1 r2 r3 : string) (s1 s2 s3 : Snippet) :
  blueprints st = [] ->
  blueprint_id n1 r1 <> blueprint_id n2 r2 ->
  blueprint_id n2 r2 <> blueprint_id n3 r3 ->
  let st4 :=
    fst (addBlueprint n3 r3 s3
      (fst (removeBlueprint (blueprint_id n1 r1)
        (fst (addBlueprint n2 r2 s2 (fst (addBlueprint n1 r1 s1 st))))))) in
  exists b2 b3,
    blueprints st4 = [b2; b3] /\
    placement b2 = (blueprint_id n2 r2, s2, Some []) /\
    placement b3 = (blueprint_id n3 r3, s3, Some []) /\
    b2 <> b3 /\
    order b2 = 1 /\ order b3 = 1 /\
    sort compare_order (blueprints st4) = [b2; b3] /\
    (forall (k : nat) (l : list Blueprint),
       filter (fun b => Nat.eqb (order b) k) (sort compare_order l) =
       filter (fun b => Nat.eqb (order b) k) l) /\
    (forall now, regex_free_keys (globalConfig st) = true ->
       exists c2 c3 st' toast,
         generateScript now st4 = Normal (st', toast) /\
         generatedScript st' =
           join LF (preamble now (globalConfig st) ++
                    [comment_line s2; c2; EmptyString; comment_line s3; c3; EmptyString])).
Proof.
  intros B N12 N23 st4.
  pose proof (blueprints_after_add_add_remove_add st n1 n2 n3 r1 r2 r3 s1 s2 s3 B N12) as E.
  fold st4 in E.
  do 2 eexists. split; [exact E|]. rewrite E.
  repeat split.
  - intros H. apply N23. exact (f_equal id H).
  - intros k l. apply (sort_stable Blueprint order).
  - intros now Hc.
    assert (G : globalConfig st4 = globalConfig st) by reflexivity.
    destruct (replace_placeholders_normal value (globalConfig st) (code s2) Hc) as [c2 E2].
    destruct (replace_placeholders_normal value (globalConfig st) (code s3) Hc) as [c3 E3].
    destruct (generateScript_nonempty now st4
                [[comment_line s2; c2; EmptyString]; [comment_line s3; c3; EmptyString]])
      as (toast & Gen & _).
    + rewrite E. discriminate.
    + rewrite E, G.
      match goal with |- map_completion _ (sort _ [?b2; ?b3]) = _ =>
        change (sort compare_order [b2; b3]) with [b2; b3] end.
      cbn [map_completion]. unfold block. cbn [params_of customParams snippet].
      now rewrite !processSnippetCode_no_params, E2, E3.
    + exists c2, c3. do 2 eexists. split; [exact Gen|]. cbn [generatedScript set_generated].
      now rewrite G.
Qed.

Lemma positions_can_collide_witness :
  exists b2 b3,
    blueprints
      (fst (addBlueprint 3 "c" (sample_snippet "c()" [])
        (fst (removeBlueprint (blueprint_id 1 "a")
          (fst (addBlueprint 2 "b" (sample_snippet "b()" [])
            (fst (addBlueprint 1 "a" (sample_snippet "a()" []) empty_state))))))))
      = [b2; b3] /\
    b2 <> b3 /\ order b2 = 1 /\ order b3 = 1.
Proof.
  destruct (positions_can_collide empty_state 1 2 3 "a" "b" "c"
              (sample_snippet "a()" []) (sample_snippet "b()" []) (sample_snippet "c()" []))
    as (b2 & b3 & E & _ & _ & N & O2 & O3 & _).
  - reflexivity.
  - vm_compute. discriminate.
  - vm_compute. discriminate.
  - exists b2, b3. repeat split; assumption.
Defined.

(** ** Placeholder substitution *)

Section Scan.

Lemma GetSubstitution_plain (matched before after template : string) :
  no_dollar template = true ->
  GetSubstitution matched before after template = template.
Proof.
  induction template as [|c rest IH]; [reflexivity|].
  intros H. simpl in H. apply andb_true_iff in H as [Hc Hr].
  cbn [GetSubstitution]. destruct rest as [|d rest']; [reflexivity|].
  apply negb_true_iff in Hc. rewrite Hc. now rewrite (IH Hr).
Qed.

Lemma drop_append (x s : string) : drop (String.length x) (x ++ s) = s.
Proof. induction x as [|c x IH]; simpl; [now destruct s | exact IH]. Qed.

Lemma replace_scan_skip (pat v x s before : string) :
  replace_scan pat v (String.length x) before (x ++ s) =
  replace_scan pat v 0 (before ++ x) s.
Proof.
  revert before; induction x as [|c x IH]; intros before.
  - now rewrite append_nil_r.
  - cbn [String.length append replace_scan]. rewrite IH.
    now rewrite append_assoc.
Qed.

Lemma replace_scan_text (p v t s before : string) :
  no_percent t = true ->
  replace_scan (String "%" p) v 0 before (t ++ s) =
  t ++ replace_scan (String "%" p) v 0 (before ++ t) s.
Proof.
  revert before; induction t as [|c t IH]; intros before H.
  - now rewrite append_nil_r.
  - simpl in H. apply andb_true_iff in H as [Hc Ht].
    apply negb_true_iff, Ascii.eqb_neq in Hc.
    cbn [append replace_scan prefix].
    destruct (ascii_dec "%" c) as [E|_]; [now elim Hc|].
    rewrite (IH _ Ht). now rewrite append_assoc.
Qed.

Lemma replace_scan_all_text (p v t before : string) :
  no_percent t = true -> replace_scan (String "%" p) v 0 before t = t.
Proof.
  intros H. rewrite <- (append_nil_r t) at 1.
  rewrite replace_scan_text by exact H. simpl. apply append_nil_r.
Qed.

Lemma replace_scan_match (p v s before : string) :
  replace_scan (String "%" p) v 0 before (String "%" p ++ s) =
  GetSubstitution (String "%" p) before s v ++
  replace_scan (String "%" p) v 0 (before ++ String "%" p) s.
Proof.
  cbn [append replace_scan].
  change (String "%" (p ++ s)) with (String "%" p ++ s).
  rewrite prefix_append, drop_append.
  cbn [String.length].
  replace (S (String.length p) - 1) with (String.length p) by lia.
  rewrite replace_scan_skip. now rewrite append_assoc.
Qed.

Lemma replace_scan_percent (p v rest before : string) :
  prefix p rest = false ->
  replace_scan (String "%" p) v 0 before (String "%" rest) =
  String "%" (replace_scan (String "%" p) v 0 (before ++ "%") rest).
Proof.
  intros H. cbn [replace_scan prefix].
  destruct (ascii_dec "%" "%") as [_|N]; [|now elim N].
  now rewrite H.
Qed.

Lemma prefix_until_percent (k x s : string) :
  no_percent k = true -> no_percent x = true ->
  prefix (k ++ "%") (x ++ String "%" s) = true -> k = x.
Proof.
  revert x; induction k as [|c k IH]; intros x Hk Hx H.
  - destruct x as [|d x]; [reflexivity|].
    cbn [prefix append] in H. destruct (ascii_dec "%" d) as [<-|_]; [|discriminate].
    simpl in Hx. discriminate.
  - simpl in Hk. apply andb_true_iff in Hk as [Hc Hk].
    destruct x as [|d x]; cbn [prefix append] in H.
    + destruct (ascii_dec c "%") as [->|_]; discriminate.
    + destruct (ascii_dec c d) as [->|_]; [|discriminate].
      simpl in Hx. apply andb_true_iff in Hx as [_ Hx].
      f_equal. now apply IH.
Qed.

Lemma prefix_needs_percent (k e : string) :
  no_percent e = true -> prefix (k ++ "%") e = false.
Proof.
  intros He. destruct (prefix (k ++ "%") e) eqn:P; [|reflexivity].
  apply prefix_inv in P as [r ->].
  unfold no_percent in He. rewrite !all_chars_append in He. simpl in He.
  rewrite andb_false_r in He. discriminate.
Qed.

Lemma all_chars_impl (p q : ascii -> bool) (s : string) :
  (forall c, p c = true -> q c = true) -> all_chars p s = true -> all_chars q s = true.
Proof.
  intros I. induction s as [|c s IH]; [reflexivity|]. simpl.
  intros H. apply andb_true_iff in H as [Hc Hs]. now rewrite (I c Hc), (IH Hs).
Qed.

Lemma identifier_char_not_syntax (c : ascii) :
  is_identifier_char c = true -> negb (is_syntax_character c) = true.
Proof. destruct c as [[] [] [] [] [] [] [] []]; vm_compute; congruence. Qed.

Lemma identifier_char_not_percent (c : ascii) :
  is_identifier_char c = true -> negb (Ascii.eqb c "%") = true.
Proof. destruct c as [[] [] [] [] [] [] [] []]; vm_compute; congruence. Qed.

Lemma identifier_char_not_dollar (c : ascii) :
  is_identifier_char c = true -> negb (Ascii.eqb c "$") = true.
Proof. destruct c as [[] [] [] [] [] [] [] []]; vm_compute; congruence. Qed.

Lemma plain_no_percent (key : string) :
  plain_identifier key = true -> no_percent key = true.
Proof. apply all_chars_impl, identifier_char_not_percent. Qed.

Lemma plain_no_dollar (key : string) :
  plain_identifier key = true -> no_dollar key = true.
Proof. apply all_chars_impl, identifier_char_not_dollar. Qed.

Lemma plain_regex_free (key : string) :
  plain_identifier key = true -> regex_free key = true.
Proof. apply all_chars_impl, identifier_char_not_syntax. Qed.

Lemma plain_no_separator (key : string) :
  plain_identifier key = true -> has_separator key = false.
Proof.
  unfold plain_identifier, has_separator.
  induction key as [|c key IH]; [reflexivity|]. cbn [all_chars some_char].
  intros H. apply andb_true_iff in H as [Hc Hk]. now rewrite Hc, (IH Hk).
Qed.

End Scan.

Section Templates.

Lemma replace_scan_hole_match (key v rest before : string) :
  replace_scan (String "%" (key ++ "%")) v 0 before (String "%" (key ++ String "%" rest)) =
  GetSubstitution (String "%" (key ++ "%")) before rest v ++
  replace_scan (String "%" (key ++ "%")) v 0 (before ++ String "%" (key ++ "%")) rest.
Proof.
  replace (String "%" (key ++ String "%" rest)) with (String "%" (key ++ "%") ++ rest)
    by (now norm_append).
  apply replace_scan_match.
Qed.

Lemma closing_percent (key : string) (segs : list (string * string)) (tl : string) :
  plain_identifier key = true ->
  well_formed_segments true segs = true ->
  no_percent tl = true ->
  prefix (key ++ "%") (render_segments segs ++ tl) = false.
Proof.
  intros Hk Hw Ht. destruct segs as [|[text hole] r].
  - now apply prefix_needs_percent.
  - cbn [well_formed_segments negb orb] in Hw.
    apply andb_true_iff in Hw as [Hw _].
    apply andb_true_iff in Hw as [Hw Hsep].
    apply andb_true_iff in Hw as [Htext _].
    cbn [render_segments]. norm_append.
    destruct (prefix (key ++ "%") _) eqn:P; [|reflexivity].
    apply prefix_until_percent in P; [|now apply plain_no_percent | exact Htext].
    subst text. rewrite (plain_no_separator key Hk) in Hsep. discriminate.
Qed.

Lemma fill_hole_other (key v hole : string) (rho : string -> option string) :
  key <> hole -> fill_hole (override key v rho) hole = fill_hole rho hole.
Proof.
  intros N. unfold fill_hole, override.
  now destruct (String.eqb_spec key hole).
Qed.

Lemma fill_hole_same (key v : string) (rho : string -> option string) :
  fill_hole (override key v rho) key = v.
Proof. unfold fill_hole, override. now rewrite String.eqb_refl. Qed.

(** One pass of the replacement over a tokenised template. *)
Lemma replace_scan_segments (key v : string) (segs : list (string * string)) (tl : string) :
  plain_identifier key = true ->
  no_dollar v = true ->
  no_percent tl = true ->
  forall (interior : bool) (before : string),
    well_formed_segments interior segs = true ->
    replace_scan ("%" ++ key ++ "%") v 0 before (render_segments segs ++ tl) =
    fill_segments (override key v unresolved) segs ++ tl.
Proof.
  intros Hk Hv Ht. cbn [append].
  induction segs as [|[text hole] r IH]; intros interior before Hw.
  - now apply replace_scan_all_text.
  - cbn [well_formed_segments] in Hw.
    apply andb_true_iff in Hw as [Hw Hr].
    apply andb_true_iff in Hw as [Hw _].
    apply andb_true_iff in Hw as [Htext Hhole].
    cbn [render_segments fill_segments]. norm_append.
    rewrite replace_scan_text by exact Htext. f_equal.
    destruct (String.eqb_spec key hole) as [<-|N].
    + rewrite replace_scan_hole_match, GetSubstitution_plain by exact Hv.
      rewrite fill_hole_same. f_equal. now apply (IH true).
    + rewrite fill_hole_other by exact N. unfold fill_hole, unresolved. norm_append.
      rewrite replace_scan_percent.
      2:{ destruct (prefix (key ++ "%") _) eqn:P; [|reflexivity].
          apply prefix_until_percent in P;
            [contradiction | now apply plain_no_percent | exact Hhole]. }
      f_equal. rewrite replace_scan_text by exact Hhole. f_equal.
      rewrite replace_scan_percent by now apply closing_percent.
      f_equal. now apply (IH true).
Qed.

Lemma fill_segments_unresolved (segs : list (string * string)) :
  fill_segments unresolved segs = render_segments segs.
Proof.
  induction segs as [|[text hole] r IH]; [reflexivity|].
  cbn [fill_segments render_segments]. rewrite IH.
  unfold fill_hole, unresolved. now norm_append.
Qed.

Lemma fill_unresolved (t : Template) : fill unresolved t = render t.
Proof. unfold fill, render. now rewrite fill_segments_unresolved. Qed.

Lemma fill_segments_ext (rho rho' : string -> option string) (segs : list (string * string)) :
  (forall hole, rho hole = rho' hole) ->
  fill_segments rho segs = fill_segments rho' segs.
Proof.
  intros E. induction segs as [|[text hole] r IH]; [reflexivity|].
  cbn [fill_segments]. unfold fill_hole. now rewrite IH, E.
Qed.

Lemma fill_prepend_text (rho : string -> option string) (s : string) (t : Template) :
  fill rho (prepend_text s t) = s ++ fill rho t.
Proof.
  unfold fill, prepend_text. destruct t as [[|[text hole] r] tl]; cbn; now norm_append.
Qed.

Lemma fill_substitute_segments (rho : string -> option string) (key v : string)
    (segs : list (string * string)) (tl : string) :
  fill rho (substitute_segments key v segs tl) =
  fill_segments (override key v rho) segs ++ tl.
Proof.
  induction segs as [|[text hole] r IH]; [reflexivity|].
  cbn [substitute_segments fill_segments].
  destruct (String.eqb_spec key hole) as [<-|N].
  - rewrite fill_prepend_text, IH, fill_hole_same. now norm_append.
  - rewrite fill_hole_other by exact N.
    unfold fill in *. cbn [segments tail fill_segments].
    rewrite !append_assoc. now rewrite IH.
Qed.

Lemma fill_substitute (rho : string -> option string) (key v : string) (t : Template) :
  fill rho (substitute key v t) = fill (override key v rho) t.
Proof. apply fill_substitute_segments. Qed.

Lemma render_substitute (key v : string) (t : Template) :
  render (substitute key v t) = fill (override key v unresolved) t.
Proof. rewrite <- fill_unresolved. apply fill_substitute. Qed.

Lemma well_formed_segments_weaken (interior : bool) (segs : list (string * string)) :
  well_formed_segments true segs = true -> well_formed_segments interior segs = true.
Proof.
  destruct segs as [|[text hole] r]; [reflexivity|]. cbn [well_formed_segments].
  intros H. apply andb_true_iff in H as [H Hr].
  apply andb_true_iff in H as [H Hs]. cbn in Hs.
  now rewrite H, Hs, Hr, orb_true_r.
Qed.

Lemma no_percent_append (a b : string) :
  no_percent (a ++ b) = no_percent a && no_percent b.
Proof. apply all_chars_append. Qed.

Lemma has_separator_append (a b : string) :
  has_separator (a ++ b) = has_separator a || has_separator b.
Proof. apply some_char_append. Qed.

Lemma well_formed_prepend_text (interior : bool) (s : string) (t : Template) :
  no_percent s = true ->
  (interior = true -> has_separator s = true) ->
  well_formed_segments true (segments t) = true ->
  no_percent (tail t) = true ->
  well_formed_segments interior (segments (prepend_text s t)) = true /\
  no_percent (tail (prepend_text s t)) = true.
Proof.
  intros Hs Hsep Hw Ht. unfold prepend_text.
  destruct t as [[|[text hole] r] tl]; cbn [segments tail] in *.
  - split; [reflexivity|]. now rewrite no_percent_append, Hs, Ht.
  - cbn [well_formed_segments] in *.
    apply andb_true_iff in Hw as [Hw Hr].
    apply andb_true_iff in Hw as [Hw Hx]. cbn in Hx.
    apply andb_true_iff in Hw as [Htext Hhole].
    split; [|exact Ht].
    now rewrite no_percent_append, Hs, Htext, Hhole, has_separator_append, Hx, Hr,
      orb_true_r, orb_true_r.
Qed.

Lemma well_formed_substitute_segments (key v : string) (segs : list (string * string))
    (tl : string) :
  no_percent v = true ->
  no_percent tl = true ->
  forall interior,
    well_formed_segments interior segs = true ->
    well_formed_segments interior (segments (substitute_segments key v segs tl)) = true /\
    no_percent (tail (substitute_segments key v segs tl)) = true.
Proof.
  intros Hv Ht. induction segs as [|[text hole] r IH]; intros interior Hw.
  - now split.
  - cbn [well_formed_segments] in Hw.
    apply andb_true_iff in Hw as [Hw Hr].
    apply andb_true_iff in Hw as [Hw Hsep].
    apply andb_true_iff in Hw as [Htext Hhole].
    destruct (IH true Hr) as [IHw IHt].
    cbn [substitute_segments]. destruct (String.eqb_spec key hole) as [<-|N].
    + apply well_formed_prepend_text; try assumption.
      * now rewrite no_percent_append, Htext, Hv.
      * intros ->. cbn in Hsep. now rewrite has_separator_append, Hsep.
    + cbn [segments tail well_formed_segments].
      now rewrite Htext, Hhole, Hsep, IHw, IHt.
Qed.

Lemma well_formed_substitute (key v : string) (t : Template) :
  no_percent v = true -> well_formed t = true -> well_formed (substitute key v t) = true.
Proof.
  intros Hv H. unfold well_formed in *. apply andb_true_iff in H as [Hw Ht].
  destruct (well_formed_substitute_segments key v (segments t) (tail t) Hv Ht false Hw)
    as [Hw' Ht'].
  unfold substitute. now rewrite Hw', Ht'.
Qed.

End Templates.

Section Passes.

Lemma one_pass (key v : string) (t : Template) :
  plain_identifier key = true ->
  no_dollar v = true ->
  well_formed t = true ->
  replace_RegExp_g ("%" ++ key ++ "%") v (render t) =
  Normal (fill (override key v unresolved) t).
Proof.
  intros Hk Hv Hw. unfold replace_RegExp_g.
  rewrite (placeholder_literal key (plain_regex_free key Hk)).
  unfold well_formed in Hw. apply andb_true_iff in Hw as [Hs Ht].
  unfold render, fill. f_equal.
  now apply (replace_scan_segments key v (segments t) (tail t) Hk Hv Ht false).
Qed.

Lemma substitute_all_cons {V : Type} (text : V -> string) (key : string) (x : V)
    (entries : list (string * V)) (t : Template) :
  substitute_all text ((key, x) :: entries) t =
  substitute_all text entries (substitute key (text x) t).
Proof. reflexivity. Qed.

Lemma replace_placeholders_template {V : Type} (text : V -> string)
    (entries : list (string * V)) :
  plain_entries text entries = true ->
  forall t, well_formed t = true ->
    replace_placeholders text entries (Normal (render t)) =
      Normal (render (substitute_all text entries t)) /\
    well_formed (substitute_all text entries t) = true.
Proof.
  induction entries as [|[key x] es IH]; intros H t Hw.
  - now split.
  - unfold plain_entries in H. cbn [forallb fst snd] in H.
    apply andb_true_iff in H as [H Hes].
    apply andb_true_iff in H as [Hk Hx].
    unfold clean_value in Hx. apply andb_true_iff in Hx as [Hp Hd].
    rewrite replace_placeholders_cons, substitute_all_cons.
    rewrite (one_pass key (text x) t Hk Hd Hw), <- render_substitute.
    apply (IH Hes). now apply well_formed_substitute.
Qed.

Lemma fill_ext (rho rho' : string -> option string) (t : Template) :
  (forall hole, rho hole = rho' hole) -> fill rho t = fill rho' t.
Proof. intros E. unfold fill. now rewrite (fill_segments_ext rho rho' _ E). Qed.

Lemma fill_substitute_all {V : Type} (text : V -> string) (entries : list (string * V))
    (rho : string -> option string) (t : Template) :
  fill rho (substitute_all text entries t) = fill (override_all text entries rho) t.
Proof.
  revert t; induction entries as [|[key x] es IH]; intros t.
  - reflexivity.
  - rewrite substitute_all_cons, IH, fill_substitute.
    apply fill_ext. intros hole. unfold override, override_all. cbn [lookup].
    now destruct (key =? hole).
Qed.

(** On a tokenised template with plain keys and clean values the two
    passes amount to resolving every placeholder once. *)
Lemma processSnippetCode_fill (t : Template) (params : list (string * string))
    (config : GlobalConfig) :
  well_formed t = true ->
  plain_entries (fun v => v) params = true ->
  plain_entries value config = true ->
  processSnippetCode (render t) params config = Normal (fill (resolve params config) t).
Proof.
  intros Hw Hp Hc. unfold processSnippetCode.
  destruct (replace_placeholders_template (fun v => v) params Hp t Hw) as [-> Hw'].
  destruct (replace_placeholders_template value config Hc _ Hw') as [-> _].
  f_equal. rewrite <- fill_unresolved, !fill_substitute_all.
  apply fill_ext. intros hole. unfold override_all, resolve, unresolved.
  destruct (lookup hole params); [reflexivity|].
  now destruct (lookup hole config).
Qed.

Lemma well_formed_segments_split (interior : bool) (left right : list (string * string))
    (text hole : string) :
  well_formed_segments interior (left ++ (text, hole) :: right) = true ->
  well_formed_segments interior left = true /\ no_percent text = true /\
  well_formed_segments true right = true.
Proof.
  revert interior; induction left as [|[t h] l IH]; intros interior H.
  - cbn [app well_formed_segments] in H.
    apply andb_true_iff in H as [H Hr].
    apply andb_true_iff in H as [H _].
    apply andb_true_iff in H as [Ht _]. now repeat split.
  - cbn [app well_formed_segments] in *.
    apply andb_true_iff in H as [H Hr].
    destruct (IH true Hr) as (Hl & Ht & Hright).
    now rewrite H, Hl.
Qed.

Lemma fill_segments_app (rho : string -> option string) (left right : list (string * string)) :
  fill_segments rho (left ++ right) = fill_segments rho left ++ fill_segments rho right.
Proof.
  induction left as [|[t h] l IH]; [reflexivity|].
  cbn [app fill_segments]. rewrite IH. now rewrite !append_assoc.
Qed.

Lemma fill_split (rho : string -> option string) (left right : list (string * string))
    (text hole tl : string) :
  fill rho {| segments := left ++ (text, hole) :: right; tail := tl |} =
  fill rho {| segments := left; tail := text |} ++ fill_hole rho hole ++
  fill rho {| segments := right; tail := tl |}.
Proof.
  unfold fill. cbn [segments tail]. rewrite fill_segments_app. cbn [fill_segments].
  now rewrite !append_assoc.
Qed.

Lemma lookup_In {V : Type} (key : string) (x : V) (entries : list (string * V)) :
  NoDup (map fst entries) -> In (key, x) entries -> lookup key entries = Some x.
Proof.
  induction entries as [|[k y] es IH]; intros ND H; [contradiction|].
  cbn [map fst] in ND. inversion ND as [|? ? Hnot ND']; subst.
  cbn [lookup]. destruct H as [H|H].
  - injection H as -> ->. now rewrite String.eqb_refl.
  - destruct (String.eqb_spec k key) as [->|_]; [|now apply IH].
    elim Hnot. apply in_map_iff. now exists (key, x).
Qed.

Lemma lookup_not_In {V : Type} (key : string) (entries : list (string * V)) :
  ~ In key (map fst entries) -> lookup key entries = None.
Proof.
  induction entries as [|[k y] es IH]; intros H; [reflexivity|].
  cbn [lookup]. cbn [map fst In] in H.
  destruct (String.eqb_spec k key) as [->|_]; [elim H; now left|].
  apply IH. intros I. apply H. now right.
Qed.

End Passes.

(** C2, as the code has it.  Take a code template made of text and
    placeholder tokens, with text free of the percent sign and the text
    between two tokens holding a character no identifier has; let the keys
    of the override mapping and of the configuration table be plain
    identifiers and their values hold neither a percent nor a dollar sign.
    Then every token whose key is in the override mapping is replaced by
    the override value, every token whose key is in neither table stays as
    it is, and the text on either side is processed as it would be alone. *)
Theorem placeholders_substituted (left right : list (string * string))
    (text key tl : string) (params : list (string * string)) (config : GlobalConfig) :
  well_formed {| segments := left ++ (text, key) :: right; tail := tl |} = true ->
  plain_entries (fun v => v) params = true ->
  plain_entries value config = true ->
  NoDup (map fst params) ->
  exists out_left out_right,
    processSnippetCode (render {| segments := left; tail := text |}) params config
      = Normal out_left /\
    processSnippetCode (render {| segments := right; tail := tl |}) params config
      = Normal out_right /\
    (forall v, In (key, v) params ->
       processSnippetCode (render {| segments := left ++ (text, key) :: right; tail := tl |})
         params config = Normal (out_left ++ v ++ out_right)) /\
    (~ In key (map fst params) -> ~ In key (map fst config) ->
       processSnippetCode (render {| segments := left ++ (text, key) :: right; tail := tl |})
         params config = Normal (out_left ++ "%" ++ key ++ "%" ++ out_right)).
Proof.
  intros Hw Hp Hc ND.
  pose proof Hw as Hw0. unfold well_formed in Hw0. cbn [segments tail] in Hw0.
  apply andb_true_iff in Hw0 as [Hs Ht].
  apply well_formed_segments_split in Hs as (Hl & Htext & Hr).
  assert (WL : well_formed {| segments := left; tail := text |} = true).
  { unfold well_formed. cbn [segments tail]. now rewrite Hl, Htext. }
  assert (WR : well_formed {| segments := right; tail := tl |} = true).
  { unfold well_formed. cbn [segments tail].
    now rewrite (well_formed_segments_weaken false right Hr), Ht. }
  exists (fill (resolve params config) {| segments := left; tail := text |}),
         (fill (resolve params config) {| segments := right; tail := tl |}).
  repeat split.
  - now apply processSnippetCode_fill.
  - now apply processSnippetCode_fill.
  - intros v Hin. rewrite processSnippetCode_fill, fill_split by assumption.
    unfold fill_hole, resolve. now rewrite (lookup_In key v params ND Hin).
  - intros Np Nc. rewrite processSnippetCode_fill, fill_split by assumption.
    unfold fill_hole, resolve.
    rewrite (lookup_not_In key params Np), (lookup_not_In key config Nc).
    cbn [option_map]. now norm_append.
Qed.

Lemma placeholders_substituted_witness :
  exists out_left out_right,
    processSnippetCode
      (render {| segments := firstn 1 (segments event_listener_template); tail := ", " |})
      click_params [("var1", sample_var "5")] = Normal out_left /\
    processSnippetCode
      (render {| segments := skipn 2 (segments event_listener_template);
                 tail := tail event_listener_template |})
      click_params [("var1", sample_var "5")] = Normal out_right /\
    (forall v, In ("handler", v) click_params ->
       processSnippetCode (code event_listener_snippet) click_params [("var1", sample_var "5")]
         = Normal (out_left ++ v ++ out_right)) /\
    (~ In "handler" (map fst click_params) ->
     ~ In "handler" (map fst [("var1", sample_var "5")]) ->
       processSnippetCode (code event_listener_snippet) click_params [("var1", sample_var "5")]
         = Normal (out_left ++ "%" ++ "handler" ++ "%" ++ out_right)).
Proof.
  apply (placeholders_substituted
           (firstn 1 (segments event_listener_template))
           (skipn 2 (segments event_listener_template))
           ", " "handler" (tail event_listener_template)
           click_params [("var1", sample_var "5")]).
  - reflexivity.
  - reflexivity.
  - reflexivity.
  - simpl. repeat constructor; simpl; intuition discriminate.
Defined.

(** C2, the claim as stated fails.  In the template [%a%a%] the text [%a%]
    occurs at offsets 0 and 2; with the override [a := X] the scan
    replaces the first occurrence and passes over the second, so the
    output is [Xa%], and not the [%aX] that replacing the occurrence at
    offset 2 would give.  With [b] in neither table, the occurrence of
    [%b%] in [%a%b%] does not survive either. *)
Lemma overlapping_occurrence_not_replaced :
  "%a%a%" = "%a" ++ "%a%" ++ EmptyString /\
  processSnippetCode "%a" [("a", "X")] [] = Normal "%a" /\
  processSnippetCode EmptyString [("a", "X")] [] = Normal EmptyString /\
  processSnippetCode "%a%a%" [("a", "X")] [] = Normal "Xa%" /\
  "Xa%" <> "%a" ++ "X" ++ EmptyString /\
  processSnippetCode "%a%b%" [("a", "X")] [] = Normal "Xb%".
Proof. repeat split. discriminate. Qed.

(** More inputs on which a placeholder is not replaced by the override
    value: a value holding a dollar form, and a value holding a
    configuration placeholder. *)
Lemma dollar_forms_in_values :
  processSnippetCode "price(%x%)" [("x", "$$")] [] = Normal "price($)" /\
  processSnippetCode "wrap(%x%)" [("x", "[$&]")] [] = Normal "wrap([%x%])" /\
  processSnippetCode "%x%" [("x", "%var1%")] [("var1", sample_var "V")] = Normal "V".
Proof. repeat split. Qed.

(** Without a separating character the text between two tokens can pass
    for a token of its own: here the key [b] takes the closing percent
    sign of [%a%] and the opening one of [%c%]. *)
Lemma text_between_tokens_taken_for_a_token :
  processSnippetCode "%a%b%c%" [("b", "X")] [] = Normal "%aXc%".
Proof. reflexivity. Qed.

(** C4, as the code has it.  A declared parameter that has no entry in the
    override mapping and is no configuration key is not substituted: under
    the conditions of C2 on the template, the keys and the values, every
    token of that parameter stays in the blueprint's block as it is in the
    template. *)
Theorem absent_parameter_stays (config : GlobalConfig) (bp : Blueprint)
    (declared : list string) (left right : list (string * string)) (text p tl : string) :
  parameters (snippet bp) = Some declared ->
  In p declared ->
  ~ In p (map fst (params_of bp)) ->
  ~ In p (map fst config) ->
  code (snippet bp) = render {| segments := left ++ (text, p) :: right; tail := tl |} ->
  well_formed {| segments := left ++ (text, p) :: right; tail := tl |} = true ->
  plain_entries (fun v => v) (params_of bp) = true ->
  plain_entries value config = true ->
  block config bp =
    Normal [comment_line (snippet bp);
            fill (resolve (params_of bp) config) {| segments := left; tail := text |} ++
            "%" ++ p ++ "%" ++
            fill (resolve (params_of bp) config) {| segments := right; tail := tl |};
            EmptyString].
Proof.
  intros _ _ Np Nc E Hw Hp Hc. unfold block.
  rewrite E, processSnippetCode_fill, fill_split by assumption.
  unfold fill_hole, resolve.
  rewrite (lookup_not_In p (params_of bp) Np), (lookup_not_In p config Nc).
  cbn [option_map bind]. now norm_append.
Qed.

Lemma absent_parameter_stays_witness :
  block [] event_listener_blueprint =
  Normal [comment_line event_listener_snippet; code event_listener_snippet; EmptyString].
Proof.
  apply (absent_parameter_stays [] event_listener_blueprint
           ["element"; "event"; "handler"]
           [] (skipn 1 (segments event_listener_template))
           (fst (hd (EmptyString, EmptyString) (segments event_listener_template)))
           "event" (tail event_listener_template)).
  - reflexivity.
  - right. now left.
  - intros [].
  - intros [].
  - reflexivity.
  - reflexivity.
  - reflexivity.
  - reflexivity.
Defined.

(** C4, the claim as stated fails: the blueprint that [addBlueprint]
    creates for the built-in event listener snippet has an empty override
    mapping; its declared parameters [event] and [handler] are absent from
    it, and the generated script keeps their placeholders where the claim
    has the empty string. *)
Lemma absent_parameter_not_blanked :
  blueprints event_listener_state = [event_listener_blueprint] /\
  parameters (snippet event_listener_blueprint) = Some ["element"; "event"; "handler"] /\
  customParams event_listener_blueprint = Some [] /\
  block [] event_listener_blueprint =
    Normal [comment_line event_listener_snippet; code event_listener_snippet; EmptyString] /\
  (exists st' toast,
     generateScript "2026-01-01T00:00:00.000Z" event_listener_state = Normal (st', toast) /\
     includes (generatedScript st') "  element.addEventListener(%event%, %handler%);" = true /\
     includes (generatedScript st') "  element.addEventListener(, );" = false).
Proof.
  repeat split. do 2 eexists. split; [reflexivity|]. split; reflexivity.
Qed.

(** ** Keys of the configuration table *)

Section ConfigKeys.

Lemma string_of_uint_plain (d : Decimal.uint) :
  plain_identifier (NilEmpty.string_of_uint d) = true.
Proof. induction d; simpl; try assumption; reflexivity. Qed.

Lemma string_of_nat_plain (n : nat) : plain_identifier (string_of_nat n) = true.
Proof.
  unfold string_of_nat, NilZero.string_of_uint.
  destruct (Nat.to_uint n); try apply string_of_uint_plain. reflexivity.
Qed.

Lemma plain_keys_set_entry {V : Type} (key : string) (v : V) (entries : list (string * V)) :
  plain_identifier key = true ->
  plain_keys entries = true ->
  plain_keys (set_entry key v entries) = true.
Proof.
  intros Hk. unfold plain_keys.
  induction entries as [|[k x] r IH]; cbn [set_entry forallb fst]; intros H.
  - now rewrite Hk.
  - apply andb_true_iff in H as [Hx Hr].
    destruct (k =? key); cbn [forallb fst]; rewrite Hx; [exact Hr | now apply IH].
Qed.

(** The keys [addGlobalConfigVar] makes are plain identifiers, and the
    other two callbacks make no key: a table built by the three callbacks
    has plain keys only. *)
Lemma addGlobalConfigVar_plain_keys (st : AppState) :
  plain_keys (globalConfig st) = true ->
  plain_keys (globalConfig (addGlobalConfigVar st)) = true.
Proof.
  intros H. unfold addGlobalConfigVar. cbn [globalConfig set_globalConfig].
  apply plain_keys_set_entry; [|exact H].
  unfold plain_identifier. rewrite all_chars_append.
  now rewrite (string_of_nat_plain _).
Qed.

Lemma set_entry_keys {V : Type} (key : string) (v x : V) (entries : list (string * V)) :
  lookup key entries = Some x ->
  map fst (set_entry key v entries) = map fst entries.
Proof.
  induction entries as [|[k y] r IH]; cbn [lookup set_entry]; [discriminate|].
  destruct (k =? key); [reflexivity|]. intros H. cbn [map fst]. now rewrite IH.
Qed.

Lemma updateGlobalConfigVar_keys (key : string) (field : ConfigField) (v : string)
    (st st' : AppState) :
  updateGlobalConfigVar key field v st = Some st' ->
  map fst (globalConfig st') = map fst (globalConfig st).
Proof.
  unfold updateGlobalConfigVar. destruct (lookup key (globalConfig st)) as [x|] eqn:E;
    [|discriminate].
  intros [= <-]. cbn [globalConfig set_globalConfig]. now apply (set_entry_keys key _ x).
Qed.

Lemma removeGlobalConfigVar_plain_keys (key : string) (st : AppState) :
  plain_keys (globalConfig st) = true ->
  plain_keys (globalConfig (removeGlobalConfigVar key st)) = true.
Proof.
  unfold removeGlobalConfigVar, plain_keys. cbn [globalConfig set_globalConfig].
  induction (globalConfig st) as [|e r IH]; [reflexivity|]. cbn [forallb filter].
  intros H. apply andb_true_iff in H as [He Hr].
  destruct (negb (fst e =? key)); cbn [forallb]; [rewrite He|]; now apply IH.
Qed.

Lemma plain_keys_regex_free {V : Type} (entries : list (string * V)) :
  plain_keys entries = true -> regex_free_keys entries = true.
Proof.
  unfold plain_keys, regex_free_keys. induction entries as [|e r IH]; [reflexivity|].
  cbn [forallb]. intros H. apply andb_true_iff in H as [He Hr].
  now rewrite (plain_regex_free _ He), IH.
Qed.

(** A key is derived from the size of the table: after a removal the next
    addition reuses the key of an entry that is still there and overwrites
    that entry. *)
Lemma config_key_reused :
  map fst (globalConfig
             (addGlobalConfigVar
                (removeGlobalConfigVar "var1"
                   (addGlobalConfigVar (addGlobalConfigVar empty_state))))) = ["var2"].
Proof. reflexivity. Qed.

End ConfigKeys.

(** ** The configuration header *)

Section Header.

Lemma is_substring_refl (s : string) : is_substring s s.
Proof. exists EmptyString, EmptyString. now rewrite append_nil_r. Qed.

Lemma is_substring_right (pat s a : string) :
  is_substring pat s -> is_substring pat (a ++ s).
Proof. intros (pre & post & ->). exists (a ++ pre), post. now rewrite !append_assoc. Qed.

Lemma is_substring_left (pat s b : string) :
  is_substring pat s -> is_substring pat (s ++ b).
Proof. intros (pre & post & ->). exists pre, (post ++ b). now rewrite !append_assoc. Qed.

Lemma is_substring_cons (pat s : string) (c : ascii) :
  is_substring pat s -> is_substring pat (String c s).
Proof. intros (pre & post & ->). now exists (String c pre), post. Qed.

Lemma is_substring_empty (pat : string) :
  is_substring pat EmptyString -> pat = EmptyString.
Proof.
  intros (pre & post & E). destruct pre; [|discriminate].
  destruct pat; [reflexivity | discriminate].
Qed.

Lemma prefix_before_separator (sep : ascii) (pat post u b : string) :
  count_char sep pat = 0 ->
  pat ++ post = u ++ String sep b ->
  exists r, u = pat ++ r.
Proof.
  revert u; induction pat as [|c p IH]; intros u Hc E.
  - now exists u.
  - cbn [count_char] in Hc. destruct (Ascii.eqb_spec c sep) as [->|N]; [discriminate|].
    destruct u as [|y u]; cbn [append] in E.
    + injection E as -> _. now elim N.
    + injection E as -> E. destruct (IH u Hc E) as [r ->]. now exists r.
Qed.

Lemma is_substring_across_separator (sep : ascii) (pat a b : string) :
  count_char sep pat = 0 ->
  is_substring pat (a ++ String sep b) ->
  is_substring pat a \/ is_substring pat b.
Proof.
  intros Hc. induction a as [|x a IH]; intros (pre & post & E).
  - cbn [append] in E. destruct pre as [|d pre]; cbn [append] in E.
    + left. destruct pat as [|c p]; [apply is_substring_refl|].
      cbn [append] in E. injection E as <- _.
      cbn [count_char] in Hc. rewrite Ascii.eqb_refl in Hc. discriminate.
    + injection E as _ ->. right. now exists pre, post.
  - destruct pre as [|d pre]; cbn [append] in E.
    + left. symmetry in E.
      change (String x (a ++ String sep b)) with (String x a ++ String sep b) in E.
      destruct (prefix_before_separator sep pat post (String x a) b Hc E) as [r ->].
      now exists EmptyString, r.
    + injection E as _ E.
      destruct IH as [H|H].
      * now exists pre, post.
      * left. now apply is_substring_cons.
      * now right.
Qed.

Lemma is_substring_join (sep : ascii) (pat : string) (parts : list string) :
  count_char sep pat = 0 ->
  pat <> EmptyString ->
  is_substring pat (join (String sep EmptyString) parts) ->
  Exists (is_substring pat) parts.
Proof.
  intros Hc NE. induction parts as [|x l IH]; intros H.
  - apply is_substring_empty in H. contradiction.
  - destruct l as [|y l].
    + now constructor.
    + rewrite join_cons in H by discriminate. cbn [append] in H.
      apply is_substring_across_separator in H as [H|H]; [now constructor | | exact Hc].
      apply Exists_cons_tl. now apply IH.
Qed.

Lemma is_substring_after (c : ascii) (p u s : string) :
  count_char c u = 0 ->
  is_substring (String c p) (u ++ s) -> is_substring (String c p) s.
Proof.
  intros Hc. induction u as [|x u IH]; intros H; [exact H|].
  cbn [count_char] in Hc. destruct (Ascii.eqb_spec x c) as [->|N]; [discriminate|].
  destruct H as (pre & post & E). destruct pre as [|d pre]; cbn [append] in E.
  - injection E as -> _. now elim N.
  - injection E as _ E. apply (IH Hc). now exists pre, post.
Qed.

Lemma is_substring_member (sep x : string) (l : list string) :
  In x l -> is_substring x (join sep l).
Proof.
  induction l as [|y l IH]; intros H; [contradiction|].
  destruct l as [|z l].
  - destruct H as [->|[]]. apply is_substring_refl.
  - rewrite join_cons by discriminate. destruct H as [->|H].
    + exists EmptyString, (sep ++ join sep (z :: l)). reflexivity.
    + destruct (IH H) as (pre & post & ->).
      exists (y ++ sep ++ pre), post. now rewrite !append_assoc.
Qed.

Lemma stringify_config_entry (config : GlobalConfig) (key : string) (v : ConfigVar) :
  In (key, v) config ->
  is_substring (QuoteJSONString key ++ ": " ++ stringify_var v) (stringify_config config).
Proof.
  intros H. unfold stringify_config. destruct config as [|e config]; [contradiction|].
  do 3 apply is_substring_right. apply is_substring_left.
  apply is_substring_member.
  apply (in_map (fun entry => QuoteJSONString (fst entry) ++ ": " ++ stringify_var (snd entry))
                _ _ H).
Qed.

End Header.

(** C5, as the code has it.  For a non-empty list whose placeholders are
    free of regular-expression syntax characters: with an empty
    configuration table the script is made of the two comment lines, two
    empty parts and the blueprint blocks, so the text [var config = ] can
    occur in it only inside the timestamp or inside a part of a blueprint
    block; with a non-empty table the script has one header part, in which
    every configuration key is serialized with its name, label and value,
    after the two comment lines and an empty part and before all blueprint
    blocks. *)
Theorem generateScript_header (now : string) (st : AppState) :
  blueprints st <> [] ->
  literal_placeholders st = true ->
  exists blocks toast,
    map_completion (block (globalConfig st)) (sort compare_order (blueprints st))
      = Normal blocks /\
    (globalConfig st = [] ->
       exists script,
         script = join LF (["// Generated Script from Blueprint Generator";
                            "// Generated on: " ++ now; EmptyString; EmptyString]
                           ++ concat blocks) /\
         generateScript now st = Normal (set_generated st (validateSyntax script) script, toast) /\
         (is_substring header_text script ->
            is_substring header_text now \/
            Exists (is_substring header_text) (concat blocks))) /\
    (globalConfig st <> [] ->
       exists script,
         script = join LF (["// Generated Script from Blueprint Generator";
                            "// Generated on: " ++ now; EmptyString;
                            header_text ++ stringify_config (globalConfig st) ++ ";";
                            EmptyString]
                           ++ concat blocks) /\
         generateScript now st = Normal (set_generated st (validateSyntax script) script, toast) /\
         (forall key v, In (key, v) (globalConfig st) ->
            is_substring (QuoteJSONString key ++ ": " ++ stringify_var v)
                         (stringify_config (globalConfig st)))).
Proof.
  intros NE H.
  destruct (blocks_normal st H) as (blocks & E & _).
  destruct (generateScript_nonempty now st blocks NE E) as (toast & G & _).
  exists blocks, toast. split; [exact E|]. split.
  - intros C. rewrite C in G. eexists. split; [reflexivity|]. split; [exact G|].
    intros S. apply is_substring_join in S; [|reflexivity|discriminate].
    unfold header_text in *.
    inversion S as [? ? S1|? ? S']; subst.
    { apply includes_spec in S1. discriminate. }
    inversion S' as [? ? S2|? ? S'']; subst.
    { left. apply (is_substring_after "v" "ar config = " "// Generated on: " now); [reflexivity|].
      exact S2. }
    inversion S'' as [? ? S3|? ? S''']; subst.
    { apply is_substring_empty in S3. discriminate. }
    inversion S''' as [? ? S4|? ? S'''']; subst.
    { apply is_substring_empty in S4. discriminate. }
    now right.
  - intros C. destruct (globalConfig st) as [|e config] eqn:GC; [congruence|].
    eexists. split; [reflexivity|]. split; [exact G|].
    intros key v Hin. now apply stringify_config_entry.
Qed.

Lemma generateScript_header_witness :
  exists blocks toast,
    map_completion (block [("var1", sample_var "click")])
      (sort compare_order [sample_blueprint "on(%var1%)" 0 []]) = Normal blocks /\
    generateScript "2026-01-01T00:00:00.000Z"
      (state_of [sample_blueprint "on(%var1%)" 0 []] [("var1", sample_var "click")]) =
    Normal (set_generated
              (state_of [sample_blueprint "on(%var1%)" 0 []] [("var1", sample_var "click")])
              (validateSyntax
                 (join LF (preamble "2026-01-01T00:00:00.000Z" [("var1", sample_var "click")]
                           ++ concat blocks)))
              (join LF (preamble "2026-01-01T00:00:00.000Z" [("var1", sample_var "click")]
                        ++ concat blocks)),
            toast).
Proof.
  destruct (generateScript_header "2026-01-01T00:00:00.000Z"
              (state_of [sample_blueprint "on(%var1%)" 0 []] [("var1", sample_var "click")]))
    as (blocks & toast & E & _ & C).
  - simpl. discriminate.
  - reflexivity.
  - exists blocks, toast. split; [exact E|].
    destruct C as (script & -> & G & _); [simpl; discriminate|].
    exact G.
Defined.

(** C5, the claim as stated fails.  With an empty table and a snippet whose
    code declares [config] itself, the script holds the header text; with a
    non-empty table and a parameter named [(], the generator throws and
    the stored script, the earlier one, has no header. *)
Lemma header_text_without_table :
  globalConfig shadow_state = [] /\
  (exists st' toast,
     generateScript "2026-01-01T00:00:00.000Z" shadow_state = Normal (st', toast) /\
     includes (generatedScript st') header_text = true) /\
  List.length (globalConfig configured_open_paren_state) = 1 /\
  generateScript "2026-01-01T00:00:00.000Z" configured_open_paren_state = SyntaxErrorThrown /\
  includes (generatedScript configured_open_paren_state) header_text = false.
Proof.
  split; [reflexivity|]. split.
  - do 2 eexists. split; [reflexivity|]. reflexivity.
  - repeat split.
Qed.

(** * Further properties of the callbacks *)

(** ** Adding, removing and reordering blueprints *)

Section BlueprintList.

Lemma set_blueprints_same (st : AppState) : set_blueprints st (blueprints st) = st.
Proof. now destruct st. Qed.

Lemma filter_all {A : Type} (p : A -> bool) (l : list A) :
  Forall (fun x => p x = true) l -> filter p l = l.
Proof.
  induction 1 as [|x l H F IH]; [reflexivity|]. cbn [filter]. now rewrite H, IH.
Qed.

Lemma filter_none {A : Type} (p : A -> bool) (l : list A) :
  Forall (fun x => p x = false) l -> filter p l = [].
Proof.
  induction 1 as [|x l H F IH]; [reflexivity|]. cbn [filter]. now rewrite H, IH.
Qed.

Lemma other_ids (blueprintId : string) (l : list Blueprint) :
  ~ In blueprintId (ids l) ->
  Forall (fun bp => negb (id bp =? blueprintId) = true) l.
Proof.
  intros N. apply Forall_forall. intros bp Hin.
  destruct (String.eqb_spec (id bp) blueprintId) as [E|_]; [|reflexivity].
  elim N. rewrite <- E. unfold ids. now apply in_map.
Qed.

Lemma remove_filter (blueprintId : string) (st : AppState) :
  blueprints (fst (removeBlueprint blueprintId st)) =
  filter (fun bp => negb (id bp =? blueprintId)) (blueprints st).
Proof. reflexivity. Qed.

Lemma reorderBlueprints_some (i j : nat) (l l' : list Blueprint) :
  reorderBlueprints i j l = Some l' ->
  exists moved,
    nth_error l i = Some moved /\
    placements l' = splice_insert j (placement moved) (splice_remove i (placements l)) /\
    orders l' = seq 0 (List.length l) /\
    List.length l' = List.length l.
Proof.
  unfold reorderBlueprints. destruct (nth_error l i) as [moved|] eqn:E; [|discriminate].
  intros [= <-]. exists moved. split; [reflexivity|].
  assert (Hi : i < List.length l) by (apply nth_error_Some; congruence).
  assert (L : List.length (splice_insert j moved (splice_remove i l)) = List.length l).
  { rewrite length_splice_insert. now apply length_splice_remove. }
  unfold mapi. change (fun bp index => set_order bp index) with set_order. repeat split.
  - rewrite mapi_from_placements. unfold placements.
    now rewrite map_splice_insert, map_splice_remove.
  - now rewrite mapi_from_orders, L.
  - pose proof (mapi_from_orders 0 (splice_insert j moved (splice_remove i l))) as O.
    apply (f_equal (@List.length nat)) in O. unfold orders in O.
    rewrite length_map, length_seq in O. rewrite O. exact L.
Qed.

Lemma splice_insert_remove {A : Type} (i : nat) (x : A) (l : list A) :
  nth_error l i = Some x -> splice_insert i x (splice_remove i l) = l.
Proof.
  intros E.
  assert (Hi : i < List.length l) by (apply nth_error_Some; congruence).
  assert (L : List.length (firstn i l) = i) by (rewrite length_firstn; lia).
  unfold splice_insert, splice_remove.
  rewrite firstn_app, skipn_app, L, Nat.sub_diag.
  rewrite (firstn_all2 (n := i) (firstn i l)) by lia.
  rewrite (skipn_all2 (n := i) (firstn i l)) by lia.
  cbn [firstn skipn app]. rewrite app_nil_r.
  now apply firstn_skipn_middle.
Qed.

Lemma splice_insert_perm {A : Type} (j : nat) (x : A) (l : list A) :
  Permutation (splice_insert j x l) (x :: l).
Proof.
  unfold splice_insert. rewrite <- Permutation_middle.
  now rewrite firstn_skipn.
Qed.

Lemma splice_remove_perm {A : Type} (i : nat) (x : A) (l : list A) :
  nth_error l i = Some x -> Permutation (x :: splice_remove i l) l.
Proof.
  intros E. unfold splice_remove. rewrite Permutation_middle.
  now rewrite (firstn_skipn_middle _ _ E).
Qed.

Lemma reorder_perm (i j : nat) (l l' : list Blueprint) :
  reorderBlueprints i j l = Some l' -> Permutation (placements l') (placements l).
Proof.
  intros R. destruct (reorderBlueprints_some i j l l' R) as (moved & E & P & _).
  rewrite P, splice_insert_perm. apply splice_remove_perm.
  unfold placements. now apply map_nth_error.
Qed.

Lemma ids_of_placements (l : list Blueprint) : ids l = map (fun p => fst (fst p)) (placements l).
Proof. unfold ids, placements. rewrite map_map. reflexivity. Qed.

Lemma seq_sorted (start len : nat) : StronglySorted le (seq start len).
Proof.
  revert start; induction len as [|len IH]; intros start; cbn [seq]; constructor.
  - apply IH.
  - apply Forall_forall. intros x Hx. apply in_seq in Hx. lia.
Qed.

Lemma sorted_of_orders (l : list Blueprint) :
  StronglySorted le (orders l) -> in_position_order l.
Proof.
  unfold in_position_order, orders. induction l as [|b l IH]; intros H; [constructor|].
  cbn [map] in H. inversion H as [|? ? S F]; subst. constructor; [now apply IH|].
  apply Forall_forall. intros x Hx.
  exact (proj1 (Forall_forall _ _) F (order x) (in_map order l x Hx)).
Qed.

Lemma dense_in_position_order (l : list Blueprint) : dense l -> in_position_order l.
Proof. intros D. apply sorted_of_orders. rewrite D. apply seq_sorted. Qed.

Lemma sort_insert_least {A : Type} (key : A -> nat) (a : A) (l : list A) :
  Forall (fun x => key a <= key x) l ->
  sort_insert (fun x y => (Z.of_nat (key x) - Z.of_nat (key y))%Z) a l = a :: l.
Proof.
  destruct 1 as [|b l H F]; [reflexivity|]. cbn [sort_insert].
  destruct (Z.leb_spec (Z.of_nat (key a) - Z.of_nat (key b)) 0); [reflexivity | lia].
Qed.

Lemma sort_of_sorted {A : Type} (key : A -> nat) (l : list A) :
  StronglySorted (fun x y => key x <= key y) l ->
  sort (fun x y => (Z.of_nat (key x) - Z.of_nat (key y))%Z) l = l.
Proof.
  induction 1 as [|a l S IH F]; [reflexivity|].
  cbn [sort]. rewrite IH. now apply sort_insert_least.
Qed.

Lemma filter_sorted {A : Type} (R : A -> A -> Prop) (p : A -> bool) (l : list A) :
  StronglySorted R l -> StronglySorted R (filter p l).
Proof.
  induction 1 as [|a l S IH F]; [constructor|]. cbn [filter].
  destruct (p a); [|exact IH]. constructor; [exact IH|].
  apply Forall_forall. intros x Hx. apply filter_In in Hx as [Hx _].
  exact (proj1 (Forall_forall _ _) F x Hx).
Qed.

End BlueprintList.


Section BlueprintActions.

Lemma app_eq_length {A : Type} (a b c d : list A) :
  List.length a = List.length c -> (a ++ b)%list = (c ++ d)%list -> a = c /\ b = d.
Proof.
  revert c; induction a as [|x a IH]; intros [|y c] L E; try discriminate.
  - now split.
  - cbn [List.app] in E. injection E as -> E. injection L as L.
    destruct (IH c L E) as [-> ->]. now split.
Qed.

Lemma orders_app (l1 l2 : list Blueprint) : orders (l1 ++ l2) = (orders l1 ++ orders l2)%list.
Proof. apply map_app. Qed.

Lemma ids_app (l1 l2 : list Blueprint) : ids (l1 ++ l2) = (ids l1 ++ ids l2)%list.
Proof. apply map_app. Qed.

Lemma placements_orders_eq (a b : list Blueprint) :
  placements a = placements b -> orders a = orders b -> a = b.
Proof.
  revert b; induction a as [|x a IH]; intros [|y b] P O; try discriminate; [reflexivity|].
  unfold placements, orders in P, O. cbn [map] in P, O.
  injection P as Pi Ps Pc P'. injection O as O O'.
  rewrite (IH b P' O'). destruct x, y. cbn in Pi, Ps, Pc, O. now subst.
Qed.

Lemma ids_filter_distinct (keep : Blueprint -> bool) (bps : list Blueprint) :
  NoDup (ids bps) -> NoDup (ids (filter keep bps)).
Proof.
  unfold ids. induction bps as [|b bps IH]; intros N; [constructor|].
  cbn [map] in N. inversion N as [|? ? NI N']; subst. cbn [filter].
  destruct (keep b); [|now apply IH]. cbn [map]. constructor; [|now apply IH].
  intros Hin. apply NI. apply in_map_iff in Hin as (y & E & Hy).
  apply filter_In in Hy as [Hy _]. rewrite <- E. now apply in_map.
Qed.

Lemma step_dense (a : Action) (st st' : AppState) :
  is_Remove a = false ->
  dense (blueprints st) ->
  step a st = Some st' ->
  dense (blueprints st') /\
  List.length (blueprints st') = List.length (blueprints st) + (if is_Add a then 1 else 0).
Proof.
  unfold dense. intros NR D S. destruct a as [now rnd s|bid|bid p|i j]; try discriminate.
  - injection S as <-. cbn [addBlueprint fst blueprints set_blueprints is_Add].
    rewrite orders_app, length_app, D. cbn [List.length orders map order].
    rewrite Nat.add_1_r, seq_S. now split.
  - injection S as <-. rewrite updateBlueprintParams_orders.
    cbn [updateBlueprintParams blueprints set_blueprints is_Add].
    rewrite length_map, Nat.add_0_r. now split.
  - cbn [step is_Add] in S. unfold handleDrop in S. rewrite Nat.add_0_r.
    destruct (negb (i =? j)%nat).
    + destruct (reorderBlueprints i j (blueprints st)) as [l'|] eqn:R; [|discriminate].
      injection S as <-. cbn [blueprints set_draggedItem set_blueprints].
      destruct (reorderBlueprints_some i j _ _ R) as (_ & _ & _ & O & L).
      rewrite L. now split.
    + injection S as <-. cbn [blueprints set_draggedItem]. now split.
Qed.

Lemma sorted_before {A : Type} (R : A -> A -> Prop) (front : list A) (x : A)
    (back : list A) (y : A) :
  StronglySorted R (front ++ x :: back) -> In y front -> R y x.
Proof.
  induction front as [|z front IH]; intros S H; [destruct H|].
  cbn [List.app] in S. inversion S as [|? ? S' F]; subst. destruct H as [->|H].
  - apply (proj1 (Forall_forall _ _) F). apply in_or_app. right. now left.
  - now apply IH.
Qed.

Lemma in_position_order_sort (l : list Blueprint) :
  in_position_order l -> sort compare_order l = l.
Proof. intros S. exact (sort_of_sorted order l S). Qed.

Lemma nat_of_string_of_nat (n : nat) : nat_of_string (string_of_nat n) = Some n.
Proof.
  unfold nat_of_string, string_of_nat.
  destruct (Nat.to_uint n) eqn:E;
    try (rewrite NilZero.usu by discriminate; cbn [option_map];
         rewrite <- E; now rewrite DecimalNat.Unsigned.of_to).
  pose proof (DecimalNat.Unsigned.of_to n) as O. rewrite E in O.
  rewrite <- O. reflexivity.
Qed.

Lemma string_of_nat_inj (n m : nat) : string_of_nat n = string_of_nat m -> n = m.
Proof.
  intros E. pose proof (nat_of_string_of_nat n) as H.
  rewrite E, nat_of_string_of_nat in H. now injection H.
Qed.

Lemma append_inj_l (p a b : string) : p ++ a = p ++ b -> a = b.
Proof.
  induction p as [|c p IH]; cbn [append]; intros E; [exact E|].
  injection E as E. now apply IH.
Qed.

Lemma split_at_separator (sep : ascii) (a b r r' : string) :
  is_identifier_char sep = false ->
  plain_identifier a = true -> plain_identifier b = true ->
  a ++ String sep r = b ++ String sep r' -> a = b /\ r = r'.
Proof.
  unfold plain_identifier. intros Hs.
  revert b; induction a as [|c a IH]; intros [|d b] Ha Hb E; cbn [append] in E.
  - injection E as E. now split.
  - injection E as <- _. cbn [all_chars] in Hb. rewrite Hs in Hb. discriminate.
  - injection E as -> _. cbn [all_chars] in Ha. rewrite Hs in Ha. discriminate.
  - injection E as -> E. cbn [all_chars] in Ha, Hb.
    apply andb_true_iff in Ha as [_ Ha]. apply andb_true_iff in Hb as [_ Hb].
    destruct (IH b Ha Hb E) as [-> ->]. now split.
Qed.

Lemma stamped_id_inj (tag : string) (n1 n2 : nat) (r1 r2 : string) :
  tag ++ string_of_nat n1 ++ "-" ++ r1 = tag ++ string_of_nat n2 ++ "-" ++ r2 ->
  n1 = n2 /\ r1 = r2.
Proof.
  intros E. apply append_inj_l in E.
  apply (split_at_separator "-") in E as [E ->];
    [| reflexivity | apply string_of_nat_plain | apply string_of_nat_plain].
  split; [now apply string_of_nat_inj | reflexivity].
Qed.

End BlueprintActions.

(** X1.  As long as no blueprint is removed, positions stay [0 .. n-1]
    in array order: from a list with that property, any run of additions,
    parameter edits and drops that goes through leaves such a list, grown by
    exactly the number of additions. *)
Theorem positions_dense_without_removal (actions : list Action) (st st' : AppState) :
  forallb (fun a => negb (is_Remove a)) actions = true ->
  dense (blueprints st) ->
  run actions st = Some st' ->
  dense (blueprints st') /\
  List.length (blueprints st') = List.length (blueprints st) + count_adds actions.
Proof.
  revert st; induction actions as [|a rest IH]; intros st NR D R.
  - injection R as <-. unfold count_adds. cbn. now rewrite Nat.add_0_r.
  - cbn [forallb] in NR. apply andb_true_iff in NR as [Na NR].
    apply negb_true_iff in Na. cbn [run] in R.
    destruct (step a st) as [st1|] eqn:S; [|discriminate].
    destruct (step_dense a st st1 Na D S) as [D1 L1].
    destruct (IH st1 NR D1 R) as [D' L']. split; [exact D'|].
    rewrite L', L1. unfold count_adds. cbn [filter].
    destruct (is_Add a); cbn [List.length]; lia.
Qed.

Lemma positions_dense_without_removal_witness :
  exists st',
    run [Add 1 "a" (sample_snippet "a()" []); Add 2 "b" (sample_snippet "b()" []);
         Drop 0 1; SetParams (blueprint_id 1 "a") [("x", "1")];
         Add 3 "c" (sample_snippet "c()" [])] empty_state = Some st' /\
    orders (blueprints st') = [0; 1; 2].
Proof.
  eexists. split; [reflexivity|].
  apply (positions_dense_without_removal
           [Add 1 "a" (sample_snippet "a()" []); Add 2 "b" (sample_snippet "b()" []);
            Drop 0 1; SetParams (blueprint_id 1 "a") [("x", "1")];
            Add 3 "c" (sample_snippet "c()" [])] empty_state);
    reflexivity.
Defined.


(** X2.  Removing an id that no blueprint carries changes nothing in the
    state, and the notification still reads [Blueprint Removed]. *)
Theorem removeBlueprint_absent (blueprintId : string) (st : AppState) :
  ~ In blueprintId (ids (blueprints st)) ->
  fst (removeBlueprint blueprintId st) = st /\
  title (snd (removeBlueprint blueprintId st)) = "Blueprint Removed".
Proof.
  intros N. split; [|reflexivity].
  unfold removeBlueprint. cbn [fst].
  rewrite (filter_all _ _ (other_ids blueprintId _ N)). apply set_blueprints_same.
Qed.

Lemma removeBlueprint_absent_witness :
  fst (removeBlueprint "blueprint-9-z" event_listener_state) = event_listener_state /\
  title (snd (removeBlueprint "blueprint-9-z" event_listener_state)) = "Blueprint Removed".
Proof.
  apply (removeBlueprint_absent "blueprint-9-z" event_listener_state).
  vm_compute. intros [H|[]]. discriminate H.
Defined.

(** X3.  When ids are distinct, removing the id of an entry takes out that
    entry and nothing else: the entries before and after it stay, in the
    same order and with their positions and parameters untouched. *)
Theorem removeBlueprint_takes_one (st : AppState) (l1 l2 : list Blueprint) (b : Blueprint) :
  NoDup (ids (blueprints st)) ->
  blueprints st = (l1 ++ b :: l2)%list ->
  blueprints (fst (removeBlueprint (id b) st)) = (l1 ++ l2)%list.
Proof.
  intros N E. rewrite remove_filter, E. rewrite E, ids_app in N. cbn [ids map] in N.
  apply NoDup_remove in N as [_ N]. fold (ids l2) in N.
  rewrite filter_app. cbn [filter]. rewrite String.eqb_refl. cbn [negb].
  rewrite !filter_all; [reflexivity| |]; apply other_ids; intros H; apply N, in_or_app; auto.
Qed.

Lemma removeBlueprint_takes_one_witness :
  blueprints (fst (removeBlueprint (blueprint_id 1 "a")
    (state_of [sample_blueprint "a()" 0 []; sample_blueprint "b()" 1 [];
               sample_blueprint "c()" 2 []] []))) =
  [sample_blueprint "a()" 0 []; sample_blueprint "c()" 2 []].
Proof.
  apply (removeBlueprint_takes_one
           (state_of [sample_blueprint "a()" 0 []; sample_blueprint "b()" 1 [];
                      sample_blueprint "c()" 2 []] [])
           [sample_blueprint "a()" 0 []] [sample_blueprint "c()" 2 []]
           (sample_blueprint "b()" 1 [])).
  - repeat constructor; vm_compute; intuition discriminate.
  - reflexivity.
Defined.

(** X4.  Removal does not renumber.  From a list whose positions are
    [0 .. n-1] and whose ids are distinct, removing the entry at index [k]
    leaves the positions [0 .. k-1, k+1 .. n-1]; they are again
    [0 .. n-2] only when the entry removed was the last one. *)
Theorem removeBlueprint_leaves_gap (st : AppState) (l1 l2 : list Blueprint) (b : Blueprint) :
  dense (blueprints st) ->
  NoDup (ids (blueprints st)) ->
  blueprints st = (l1 ++ b :: l2)%list ->
  let st' := fst (removeBlueprint (id b) st) in
  orders (blueprints st') =
    (seq 0 (List.length l1) ++ seq (S (List.length l1)) (List.length l2))%list /\
  (dense (blueprints st') <-> l2 = []).
Proof.
  intros D N E st'.
  assert (B : blueprints st' = (l1 ++ l2)%list).
  { unfold st'. rewrite remove_filter, E. rewrite E, ids_app in N. cbn [ids map] in N.
    apply NoDup_remove in N as [_ N]. fold (ids l2) in N.
    rewrite filter_app. cbn [filter]. rewrite String.eqb_refl. cbn [negb].
    rewrite !filter_all; [reflexivity| |]; apply other_ids; intros H; apply N, in_or_app; auto. }
  unfold dense in *. rewrite B. rewrite E in D.
  rewrite orders_app, length_app in D. cbn [orders map List.length] in D.
  rewrite seq_app in D. cbn [seq] in D.
  apply app_eq_length in D as [D1 D2]; [|unfold orders; now rewrite length_map, length_seq].
  injection D2 as _ D2. fold (orders l2) in D2.
  assert (O : orders (l1 ++ l2) =
              (seq 0 (List.length l1) ++ seq (S (List.length l1)) (List.length l2))%list).
  { rewrite orders_app. cbn [Nat.add] in D2. now rewrite D1, D2. }
  split; [exact O|]. rewrite O, length_app, seq_app. cbn [Nat.add]. split.
  - intros H. apply app_inv_head in H. destruct l2 as [|x l2]; [reflexivity|].
    cbn [List.length seq] in H. injection H as H _. lia.
  - now intros ->.
Qed.

Lemma removeBlueprint_leaves_gap_witness :
  orders (blueprints (fst (removeBlueprint (blueprint_id 1 "a")
    (state_of [sample_blueprint "a()" 0 []; sample_blueprint "b()" 1 [];
               sample_blueprint "c()" 2 []] [])))) = [0; 2].
Proof.
  apply (removeBlueprint_leaves_gap
           (state_of [sample_blueprint "a()" 0 []; sample_blueprint "b()" 1 [];
                      sample_blueprint "c()" 2 []] [])
           [sample_blueprint "a()" 0 []] [sample_blueprint "c()" 2 []]
           (sample_blueprint "b()" 1 [])).
  - reflexivity.
  - repeat constructor; vm_compute; intuition discriminate.
  - reflexivity.
Defined.

(** X5.  The ids built for blueprints and for custom snippets determine
    the timestamp and the random suffix they were built from: two of them
    are equal only if both parts are. *)
Theorem generated_ids_injective (n1 n2 : nat) (r1 r2 : string) :
  (blueprint_id n1 r1 = blueprint_id n2 r2 -> n1 = n2 /\ r1 = r2) /\
  (custom_id n1 r1 = custom_id n2 r2 -> n1 = n2 /\ r1 = r2).
Proof.
  split; intros E.
  - exact (stamped_id_inj "blueprint-" n1 n2 r1 r2 E).
  - exact (stamped_id_inj "custom-" n1 n2 r1 r2 E).
Qed.

(** X6.  Ids stay distinct: removing, editing parameters and dropping keep
    a list of distinct ids distinct, and so does adding when the id built
    from the timestamp and the random suffix is not in the list yet. *)
Theorem ids_stay_distinct (a : Action) (st st' : AppState) :
  NoDup (ids (blueprints st)) ->
  (forall now rnd s, a = Add now rnd s -> ~ In (blueprint_id now rnd) (ids (blueprints st))) ->
  step a st = Some st' ->
  NoDup (ids (blueprints st')).
Proof.
  intros N Fresh S. destruct a as [now rnd s|bid|bid p|i j].
  - injection S as <-. cbn [addBlueprint fst blueprints set_blueprints].
    rewrite ids_app. cbn [ids map id].
    apply (Permutation_NoDup (Permutation_cons_append _ _)).
    constructor; [exact (Fresh now rnd s eq_refl) | exact N].
  - injection S as <-. exact (ids_filter_distinct _ _ N).
  - injection S as <-. cbn [updateBlueprintParams blueprints set_blueprints].
    unfold ids. rewrite map_map.
    erewrite map_ext; [exact N|]. intros bp. now destruct (id bp =? bid).
  - cbn [step] in S. unfold handleDrop in S. destruct (negb (i =? j)%nat).
    + destruct (reorderBlueprints i j (blueprints st)) as [l'|] eqn:R; [|discriminate].
      injection S as <-. cbn [blueprints set_draggedItem set_blueprints].
      rewrite ids_of_placements in *.
      apply (Permutation_NoDup (l := map (fun p => fst (fst p)) (placements (blueprints st))));
        [|exact N].
      apply Permutation_map, Permutation_sym. exact (reorder_perm i j _ _ R).
    + injection S as <-. exact N.
Qed.

Lemma ids_stay_distinct_witness :
  NoDup (ids (blueprints (fst (addBlueprint 2 "b" (sample_snippet "b()" [])
                                 event_listener_state)))).
Proof.
  apply (ids_stay_distinct (Add 2 "b" (sample_snippet "b()" [])) event_listener_state).
  - repeat constructor; vm_compute; intuition discriminate.
  - intros now rnd s [= <- <- <-]. vm_compute. intros [H|[]]. discriminate H.
  - reflexivity.
Defined.


(** X7.  Editing parameters replaces the whole parameter mapping of the
    blueprint: afterwards every blueprint with that id holds the new
    mapping, with its id, snippet and position as before, every other
    blueprint is as before, at the same index, and nothing but the list
    changes in the state.  So a second edit of the same blueprint discards
    the first, edits of different blueprints commute, an edit under an id
    that no blueprint carries changes nothing, and no edit changes ids or
    snippets. *)
Theorem updateBlueprintParams_replaces (blueprintId other : string)
    (p1 p2 q : list (string * string)) (st : AppState) :
  (forall k bp,
     nth_error (blueprints st) k = Some bp ->
     nth_error (blueprints (updateBlueprintParams blueprintId p1 st)) k =
       Some (if id bp =? blueprintId
             then {| id := id bp; snippet := snippet bp; order := order bp;
                     customParams := Some p1 |}
             else bp)) /\
  List.length (blueprints (updateBlueprintParams blueprintId p1 st)) =
    List.length (blueprints st) /\
  set_blueprints (updateBlueprintParams blueprintId p1 st) (blueprints st) = st /\
  updateBlueprintParams blueprintId p2 (updateBlueprintParams blueprintId p1 st) =
    updateBlueprintParams blueprintId p2 st /\
  (other <> blueprintId ->
   updateBlueprintParams other q (updateBlueprintParams blueprintId p1 st) =
     updateBlueprintParams blueprintId p1 (updateBlueprintParams other q st)) /\
  (~ In blueprintId (ids (blueprints st)) -> updateBlueprintParams blueprintId p1 st = st) /\
  map (fun bp => (id bp, snippet bp)) (blueprints (updateBlueprintParams blueprintId p1 st)) =
    map (fun bp => (id bp, snippet bp)) (blueprints st).
Proof.
  unfold updateBlueprintParams, set_blueprints.
  cbn [blueprints generatedScript customSnippets globalConfig syntaxErrors draggedItem
       isAddSnippetOpen newSnippet].
  repeat split.
  - intros k bp E. rewrite nth_error_map, E. cbn [option_map].
    now destruct (id bp =? blueprintId).
  - apply length_map.
  - now destruct st.
  - f_equal. rewrite map_map. apply map_ext. intros bp.
    destruct (String.eqb_spec (id bp) blueprintId) as [E|N]; cbn [id set_customParams].
    + rewrite E, String.eqb_refl. reflexivity.
    + now destruct (String.eqb_spec (id bp) blueprintId).
  - intros N. f_equal. rewrite !map_map. apply map_ext. intros bp.
    destruct (id bp =? blueprintId) eqn:E1; destruct (id bp =? other) eqn:E2;
      cbn [id set_customParams]; rewrite ?E1, ?E2; try reflexivity.
    apply String.eqb_eq in E1, E2. elim N. congruence.
  - intros N. rewrite <- (set_blueprints_same st) at 9. unfold set_blueprints. f_equal.
    rewrite <- (map_id (blueprints st)) at 2. apply map_ext_in. intros bp Hin.
    destruct (String.eqb_spec (id bp) blueprintId) as [E|_]; [|reflexivity].
    elim N. rewrite <- E. unfold ids. now apply in_map.
  - rewrite map_map. apply map_ext. intros bp. now destruct (id bp =? blueprintId).
Qed.

Lemma updateBlueprintParams_replaces_witness :
  nth_error (blueprints (updateBlueprintParams (blueprint_id 1 "a") click_params
                           (state_of [sample_blueprint "a()" 0 [("old", "1")];
                                      sample_blueprint "b()" 1 [("kept", "2")]] []))) 0 =
    Some {| id := blueprint_id 0 "a"; snippet := sample_snippet "a()" ["old"]; order := 0;
            customParams := Some [("old", "1")] |} /\
  nth_error (blueprints (updateBlueprintParams (blueprint_id 1 "a") click_params
                           (state_of [sample_blueprint "a()" 0 [("old", "1")];
                                      sample_blueprint "b()" 1 [("kept", "2")]] []))) 1 =
    Some {| id := blueprint_id 1 "a"; snippet := sample_snippet "b()" ["kept"]; order := 1;
            customParams := Some click_params |}.
Proof.
  split.
  - exact (proj1 (updateBlueprintParams_replaces (blueprint_id 1 "a") EmptyString
                    click_params [] []
                    (state_of [sample_blueprint "a()" 0 [("old", "1")];
                               sample_blueprint "b()" 1 [("kept", "2")]] []))
                 0 (sample_blueprint "a()" 0 [("old", "1")]) eq_refl).
  - exact (proj1 (updateBlueprintParams_replaces (blueprint_id 1 "a") EmptyString
                    click_params [] []
                    (state_of [sample_blueprint "a()" 0 [("old", "1")];
                               sample_blueprint "b()" 1 [("kept", "2")]] []))
                 1 (sample_blueprint "b()" 1 [("kept", "2")]) eq_refl).
Defined.

(** X8.  Dropping card [i] on card [j] and then card [j] on card [i] puts
    every blueprint back where it was; when the positions were [0 .. n-1]
    before, the list is restored exactly. *)
Theorem handleDrop_back_restores (i j : nat) (st : AppState) :
  i < List.length (blueprints st) ->
  j < List.length (blueprints st) ->
  exists st1 st2,
    handleDrop i j st = Some st1 /\
    handleDrop j i st1 = Some st2 /\
    placements (blueprints st2) = placements (blueprints st) /\
    (dense (blueprints st) -> blueprints st2 = blueprints st).
Proof.
  intros Hi Hj. unfold handleDrop.
  destruct (Nat.eqb_spec i j) as [->|N]; cbn [negb].
  - rewrite Nat.eqb_refl. cbn [negb]. do 2 eexists. repeat split.
  - destruct (Nat.eqb_spec j i) as [->|_]; [now elim N|]. cbn [negb].
    destruct (reorderBlueprints i j (blueprints st)) as [l1|] eqn:R1.
    2:{ unfold reorderBlueprints in R1.
        destruct (nth_error (blueprints st) i) eqn:E; [discriminate|].
        apply nth_error_None in E. lia. }
    destruct (reorderBlueprints_some i j _ _ R1) as (m1 & E1 & P1 & O1 & L1).
    cbn [blueprints set_draggedItem set_blueprints].
    destruct (reorderBlueprints j i l1) as [l2|] eqn:R2.
    2:{ unfold reorderBlueprints in R2.
        destruct (nth_error l1 j) eqn:E; [discriminate|].
        apply nth_error_None in E. lia. }
    destruct (reorderBlueprints_some j i _ _ R2) as (m2 & E2 & P2 & O2 & L2).
    do 2 eexists. split; [reflexivity|].
    cbn [blueprints set_draggedItem set_blueprints]. rewrite R2.
    split; [reflexivity|].
    cbn [blueprints set_draggedItem set_blueprints].
    assert (Ep : nth_error (placements (blueprints st)) i = Some (placement m1))
      by (unfold placements; now apply map_nth_error).
    assert (Lr : S (List.length (splice_remove i (placements (blueprints st)))) =
                 List.length (blueprints st)).
    { rewrite length_splice_remove; unfold placements; rewrite length_map;
        [reflexivity | exact Hi]. }
    assert (M : placement m2 = placement m1).
    { assert (E2' : nth_error (placements l1) j = Some (placement m2))
        by (unfold placements; now apply map_nth_error).
      rewrite P1, nth_error_splice_insert in E2' by lia. congruence. }
    assert (P : placements l2 = placements (blueprints st)).
    { rewrite P2, P1, M, splice_remove_insert by lia. now apply splice_insert_remove. }
    split; [exact P|]. intros D. apply placements_orders_eq; [exact P|].
    rewrite O2, L1. symmetry. exact D.
Qed.

Lemma handleDrop_back_restores_witness :
  exists st1 st2,
    handleDrop 0 2 (state_of [sample_blueprint "a()" 0 []; sample_blueprint "b()" 1 [];
                              sample_blueprint "c()" 2 []] []) = Some st1 /\
    handleDrop 2 0 st1 = Some st2 /\
    blueprints st2 = [sample_blueprint "a()" 0 []; sample_blueprint "b()" 1 [];
                      sample_blueprint "c()" 2 []].
Proof.
  destruct (handleDrop_back_restores 0 2
              (state_of [sample_blueprint "a()" 0 []; sample_blueprint "b()" 1 [];
                         sample_blueprint "c()" 2 []] []))
    as (st1 & st2 & H1 & H2 & _ & H3); [cbn; lia | cbn; lia |].
  exists st1, st2. split; [exact H1|]. split; [exact H2|]. apply H3. reflexivity.
Defined.


(** X9.  When positions do not decrease along the list (as after any
    drop, or after additions only) and every placeholder pattern is a
    literal, the script generated has one block per blueprint in the order
    of the list: the sort by position changes nothing. *)
Theorem script_follows_list_order (now : string) (st : AppState) :
  blueprints st <> [] ->
  literal_placeholders st = true ->
  in_position_order (blueprints st) ->
  exists blocks toast,
    Forall2 (is_block_of (globalConfig st)) (blueprints st) blocks /\
    generateScript now st =
      Normal (set_generated st
                (validateSyntax (join LF (preamble now (globalConfig st) ++ concat blocks)))
                (join LF (preamble now (globalConfig st) ++ concat blocks)),
              toast).
Proof.
  intros NE L S.
  destruct (blocks_normal st L) as (blocks & M & F).
  destruct (generateScript_nonempty now st blocks NE M) as (toast & G & _).
  rewrite (in_position_order_sort _ S) in F.
  exists blocks, toast. split; [exact F | exact G].
Qed.

Lemma script_follows_list_order_witness :
  exists st1 blocks toast,
    handleDrop 1 0 (state_of [sample_blueprint "a()" 0 []; sample_blueprint "b()" 1 []] [])
      = Some st1 /\
    map snippet (blueprints st1) = [sample_snippet "b()" []; sample_snippet "a()" []] /\
    Forall2 (is_block_of (globalConfig st1)) (blueprints st1) blocks /\
    generateScript "2024-01-01T00:00:00.000Z" st1 =
      Normal (set_generated st1
                (validateSyntax (join LF (preamble "2024-01-01T00:00:00.000Z" (globalConfig st1)
                                          ++ concat blocks)))
                (join LF (preamble "2024-01-01T00:00:00.000Z" (globalConfig st1)
                          ++ concat blocks)),
              toast).
Proof.
  eexists. 
  destruct (script_follows_list_order "2024-01-01T00:00:00.000Z"
              (set_draggedItem
                 (set_blueprints
                    (state_of [sample_blueprint "a()" 0 []; sample_blueprint "b()" 1 []] [])
                    [set_order (sample_blueprint "b()" 1 []) 0;
                     set_order (sample_blueprint "a()" 0 []) 1]) None))
    as (blocks & toast & F & G).
  - discriminate.
  - reflexivity.
  - apply dense_in_position_order. reflexivity.
  - exists blocks, toast. split; [reflexivity|]. split; [reflexivity|].
    split; [exact F | exact G].
Defined.

(** X10.  A blueprint added after removals can be generated before
    blueprints that precede it in the list.  When the position of the last
    blueprint exceeds the length of the list, the blueprint added next is
    appended after it and receives a smaller position, so the sort that
    generation uses puts it before that blueprint, and the script has one
    block per blueprint in that sorted order. *)
Theorem added_blueprint_sorted_before_last (st : AppState) (kept : list Blueprint)
    (lastBlueprint : Blueprint) (now : nat) (rnd : string) (s : Snippet) :
  blueprints st = (kept ++ [lastBlueprint])%list ->
  List.length (blueprints st) < order lastBlueprint ->
  let st' := fst (addBlueprint now rnd s st) in
  exists newBlueprint front back,
    blueprints st' = (kept ++ [lastBlueprint; newBlueprint])%list /\
    placement newBlueprint = (blueprint_id now rnd, s, Some []) /\
    sort compare_order (blueprints st') = (front ++ newBlueprint :: back)%list /\
    In lastBlueprint back /\
    (literal_placeholders st' = true ->
     forall date, exists blocks toast,
       Forall2 (is_block_of (globalConfig st)) (front ++ newBlueprint :: back) blocks /\
       generateScript date st' =
         Normal (set_generated st'
                   (validateSyntax (join LF (preamble date (globalConfig st) ++ concat blocks)))
                   (join LF (preamble date (globalConfig st) ++ concat blocks)),
                 toast)).
Proof.
  intros B Lt st'.
  set (nb := {| id := blueprint_id now rnd; snippet := s;
                order := List.length (blueprints st); customParams := Some [] |}).
  assert (B' : blueprints st' = (kept ++ [lastBlueprint; nb])%list).
  { unfold st'. cbn [addBlueprint fst blueprints set_blueprints]. fold nb.
    rewrite B, <- app_assoc. reflexivity. }
  pose proof (sort_perm Blueprint order (blueprints st')) as P.
  pose proof (sort_sorted Blueprint order (blueprints st')) as S.
  change (fun a b : Blueprint => (Z.of_nat (order a) - Z.of_nat (order b))%Z)
    with compare_order in P, S.
  assert (Inb : In nb (sort compare_order (blueprints st'))).
  { apply (Permutation_in _ (Permutation_sym P)). rewrite B'.
    apply in_or_app. right. right. now left. }
  assert (Ilb : In lastBlueprint (sort compare_order (blueprints st'))).
  { apply (Permutation_in _ (Permutation_sym P)). rewrite B'.
    apply in_or_app. right. now left. }
  destruct (in_split _ _ Inb) as (front & back & E).
  exists nb, front, back. split; [exact B'|]. split; [reflexivity|]. split; [exact E|].
  assert (Ib : In lastBlueprint back).
  { rewrite E in Ilb, S. apply in_app_or in Ilb as [H|[H|H]].
    - exfalso. pose proof (sorted_before _ front nb back lastBlueprint S H) as Q.
      unfold nb in Q. cbn [order] in Q. lia.
    - exfalso. rewrite <- H in Lt. unfold nb in Lt. cbn [order] in Lt. lia.
    - exact H. }
  split; [exact Ib|]. intros L date.
  destruct (blocks_normal st' L) as (blocks & M & F).
  assert (NE : blueprints st' <> []).
  { rewrite B'. intros H. apply app_eq_nil in H as [_ H]. discriminate. }
  destruct (generateScript_nonempty date st' blocks NE M) as (toast & G & _).
  rewrite E in F. exists blocks, toast. split; [exact F | exact G].
Qed.

Lemma added_blueprint_sorted_before_last_witness :
  exists st0 newBlueprint,
    run [Add 1 "a" (sample_snippet "a()" []); Add 2 "b" (sample_snippet "b()" []);
         Add 3 "c" (sample_snippet "c()" []);
         Remove (blueprint_id 1 "a"); Remove (blueprint_id 2 "b")] empty_state = Some st0 /\
    blueprints (fst (addBlueprint 4 "d" (sample_snippet "d()" []) st0)) =
      ([] ++ [ {| id := blueprint_id 3 "c"; snippet := sample_snippet "c()" [];
                  order := 2; customParams := Some [] |}; newBlueprint])%list /\
    order newBlueprint = 1 /\
    map order (sort compare_order
                 (blueprints (fst (addBlueprint 4 "d" (sample_snippet "d()" []) st0)))) = [1; 2].
Proof.
  eexists.
  destruct (added_blueprint_sorted_before_last
              (set_blueprints empty_state
                 [ {| id := blueprint_id 3 "c"; snippet := sample_snippet "c()" [];
                      order := 2; customParams := Some [] |} ])
              []
              {| id := blueprint_id 3 "c"; snippet := sample_snippet "c()" [];
                 order := 2; customParams := Some [] |}
              4 "d" (sample_snippet "d()" []))
    as (nb & front & back & B & P & _).
  - reflexivity.
  - cbn. lia.
  - exists nb. split; [reflexivity|]. split; [exact B|].
    cbn [List.app] in B. cbn [addBlueprint fst blueprints set_blueprints List.app] in B.
    injection B as <-. split; reflexivity.
Defined.


(** ** The index carried by the drag data *)

Section DragData.

Lemma digit_not_white_space (c : ascii) : is_digit c = true -> JS.is_white_space c = false.
Proof. destruct c as [[] [] [] [] [] [] [] []]; vm_compute; congruence. Qed.

Lemma digit_no_sign (c : ascii) (s : string) :
  is_digit c = true -> strip_sign (String c s) = (1%Z, String c s).
Proof. destruct c as [[] [] [] [] [] [] [] []]; vm_compute; congruence. Qed.

Lemma digit_value_decimal (c : ascii) :
  is_digit c = true -> digit_value 10 c = Some (Z.of_nat (nat_of_ascii c - 48)).
Proof. destruct c as [[] [] [] [] [] [] [] []]; vm_compute; congruence. Qed.

Lemma digits_no_hex_prefix (s : string) :
  all_chars is_digit s = true -> strip_hex_prefix s = (10, s).
Proof.
  destruct s as [|c [|d s]]; try reflexivity.
  - destruct c as [[] [] [] [] [] [] [] []]; reflexivity.
  - cbn [all_chars]. intros H. apply andb_true_iff in H as [_ H].
    apply andb_true_iff in H as [H _].
    destruct d as [[] [] [] [] [] [] [] []]; try (vm_compute in H; discriminate H);
      destruct c as [[] [] [] [] [] [] [] []]; reflexivity.
Qed.

Lemma parseInt_digits (c : ascii) (s : string) :
  all_chars is_digit (String c s) = true ->
  parseInt (String c s) = Some (digits_value 10 0 (String c s)).
Proof.
  intros H. pose proof H as H'. cbn [all_chars] in H'. apply andb_true_iff in H' as [Hc _].
  unfold parseInt. cbn [JS.trimStart]. rewrite (digit_not_white_space c Hc).
  rewrite (digit_no_sign c s Hc), (digits_no_hex_prefix _ H).
  unfold parse_digits. rewrite (digit_value_decimal c Hc). cbn [option_map].
  f_equal. apply Z.mul_1_l.
Qed.

Lemma string_of_uint_digits (d : Decimal.uint) :
  all_chars is_digit (NilEmpty.string_of_uint d) = true.
Proof. induction d; simpl; try assumption; reflexivity. Qed.

Lemma digits_value_of_uint (d : Decimal.uint) (acc : nat) :
  digits_value 10 (Z.of_nat acc) (NilEmpty.string_of_uint d) =
  Z.of_nat (Nat.of_uint_acc d acc).
Proof.
  revert acc; induction d as [|d IH|d IH|d IH|d IH|d IH|d IH|d IH|d IH|d IH|d IH];
    intros acc; [reflexivity| ..];
    cbn [NilEmpty.string_of_uint digits_value Nat.of_uint_acc];
    rewrite <- IH, Nat.tail_mul_spec;
    match goal with |- context [digit_value 10 ?c] =>
      let v := eval vm_compute in (digit_value 10 c) in change (digit_value 10 c) with v end;
    cbv iota beta; f_equal; lia.
Qed.

Lemma parseInt_string_of_nat (n : nat) : parseInt (JS.string_of_nat n) = Some (Z.of_nat n).
Proof.
  unfold JS.string_of_nat. rewrite <- (DecimalNat.Unsigned.of_to n) at 2.
  destruct (Nat.to_uint n) as [|d|d|d|d|d|d|d|d|d|d] eqn:E; [reflexivity| ..];
    unfold NilZero.string_of_uint;
    match goal with |- parseInt (NilEmpty.string_of_uint ?u) = _ =>
      pose proof (string_of_uint_digits u) as D;
      pose proof (digits_value_of_uint u 0) as V
    end;
    cbn [NilEmpty.string_of_uint] in D, V |- *;
    rewrite (parseInt_digits _ _ D); f_equal; exact V.
Qed.

Lemma lookup_set_entry {V : Type} (key : string) (v : V) (entries : list (string * V)) :
  lookup key (set_entry key v entries) = Some v.
Proof.
  induction entries as [|[k x] r IH]; cbn [set_entry lookup].
  - now rewrite String.eqb_refl.
  - destruct (k =? key) eqn:E; cbn [lookup]; now rewrite E.
Qed.

End DragData.

(** X11.  The index survives the drag data: when a drag started on the
    card at [index] is dropped on the card at [dropIndex], [handleDrop]
    reads [index] back from the [text/plain] data and acts as the reorder
    of [index] and [dropIndex] on the list; meanwhile the card is marked as
    the dragged one, and the mark survives hovering. *)
Theorem drop_reads_back_drag_index (blueprintId : string) (index dropIndex : nat)
    (st : AppState) (dt : DataTransfer) :
  let (st1, dt1) := handleDragStart blueprintId index st dt in
  draggedItem st1 = Some blueprintId /\
  blueprints st1 = blueprints st /\
  parseInt (getData "text/plain" (handleDragOver dt1)) = Some (Z.of_nat index) /\
  handleDrop_event (handleDragOver dt1) dropIndex st1 = handleDrop index dropIndex st.
Proof.
  unfold handleDragStart.
  assert (G : forall d, getData "text/plain"
                (handleDragOver (setData "text/plain" (JS.string_of_nat index) d)) =
              JS.string_of_nat index).
  { intros d. unfold getData, handleDragOver, setData. cbn [items].
    now rewrite lookup_set_entry. }
  repeat split.
  - rewrite G. apply parseInt_string_of_nat.
  - unfold handleDrop_event. rewrite G, parseInt_string_of_nat.
    rewrite (proj2 (Z.leb_le 0 (Z.of_nat index))) by lia.
    rewrite Nat2Z.id. unfold handleDrop. cbn [blueprints set_draggedItem].
    destruct (negb (index =? dropIndex)%nat); [|reflexivity].
    now destruct (reorderBlueprints index dropIndex (blueprints st)).
Qed.


(** ** Further properties of generation *)

Section Checker.

Lemma replace_placeholders_no_percent {V : Type} (text : V -> string)
    (entries : list (string * V)) (s : string) :
  no_percent s = true ->
  regex_free_keys entries = true ->
  replace_placeholders text entries (Normal s) = Normal s.
Proof.
  intros Hs. induction entries as [|[key x] es IH]; intros H; [reflexivity|].
  unfold regex_free_keys in H. cbn [forallb fst] in H. apply andb_true_iff in H as [Hk He].
  rewrite replace_placeholders_cons. unfold replace_RegExp_g.
  rewrite (placeholder_literal key Hk). cbn [append].
  rewrite replace_scan_all_text by exact Hs. now apply IH.
Qed.

Lemma count_char_join (c sep : ascii) (parts : list string) :
  c <> sep ->
  count_char c (join (String sep EmptyString) parts) = list_sum (map (count_char c) parts).
Proof.
  intros N. induction parts as [|x l IH]; [reflexivity|].
  destruct l as [|y l].
  - unfold join, list_sum. cbn [String.concat map fold_right]. lia.
  - rewrite join_cons by discriminate. rewrite !count_char_append, IH.
    unfold list_sum. cbn [count_char map fold_right].
    destruct (Ascii.eqb_spec sep c) as [E|_]; [now elim N|]. lia.
Qed.

Lemma is_substring_trans (a b c : string) :
  is_substring a b -> is_substring b c -> is_substring a c.
Proof.
  intros (p1 & q1 & ->) (p2 & q2 & ->). exists (p2 ++ p1), (q1 ++ q2).
  now rewrite !append_assoc.
Qed.

Lemma includes_join (pat : string) (parts : list string) :
  count_char (ascii_of_nat 10) pat = 0 ->
  pat <> EmptyString ->
  (includes (join LF parts) pat = true <-> Exists (is_substring pat) parts).
Proof.
  intros Hc NE. rewrite includes_spec. split.
  - now apply is_substring_join.
  - intros H. apply Exists_exists in H as (x & Hin & Hx).
    exact (is_substring_trans _ _ _ Hx (is_substring_member LF x parts Hin)).
Qed.

Lemma validateSyntax_In (code : string) :
  (In "Mismatched curly braces" (validateSyntax code) <->
   count_char "{" code <> count_char "}" code) /\
  (In "Mismatched parentheses" (validateSyntax code) <->
   count_char "(" code <> count_char ")" code) /\
  (In "Missing space after function keyword" (validateSyntax code) <->
   includes code "function(" = true) /\
  (In "Missing space after if keyword" (validateSyntax code) <->
   includes code "if(" = true).
Proof.
  unfold validateSyntax.
  destruct (Nat.eqb_spec (count_char "{" code) (count_char "}" code)) as [E1|E1];
    destruct (Nat.eqb_spec (count_char "(" code) (count_char ")" code)) as [E2|E2];
    destruct (includes code "function("); destruct (includes code "if(");
    cbn [negb List.app In]; repeat split; intros H;
    try discriminate; try contradiction; try tauto;
    repeat (destruct H as [H|H]; try discriminate H); try contradiction.
Qed.

End Checker.

(** X12.  Code without a percent sign is emitted as it is, whatever the
    parameter and configuration values are, as long as no key holds a
    character that is special in a regular expression. *)
Theorem code_without_percent_is_kept (code : string) (params : list (string * string))
    (config : GlobalConfig) :
  no_percent code = true ->
  regex_free_keys params = true ->
  regex_free_keys config = true ->
  processSnippetCode code params config = Normal code.
Proof.
  intros Hs Hp Hc. unfold processSnippetCode.
  rewrite (replace_placeholders_no_percent (fun v => v) params code Hs Hp).
  exact (replace_placeholders_no_percent value config code Hs Hc).
Qed.

Lemma code_without_percent_is_kept_witness :
  processSnippetCode "console.log(1);" [("x", "$& 100%")] [("var1", sample_var "%x%")] =
  Normal "console.log(1);".
Proof.
  apply (code_without_percent_is_kept "console.log(1);" [("x", "$& 100%")]
           [("var1", sample_var "%x%")]); reflexivity.
Defined.

(** X13.  The checker looks at the script as one text, and the script is
    its parts joined by line feeds.  So the two counting warnings compare
    totals over all parts, comment lines and configuration line included,
    and each of the two substring warnings appears exactly when some single
    part contains the substring. *)
Theorem validateSyntax_of_joined_parts (parts : list string) :
  (In "Mismatched curly braces" (validateSyntax (join LF parts)) <->
   list_sum (map (count_char "{") parts) <> list_sum (map (count_char "}") parts)) /\
  (In "Mismatched parentheses" (validateSyntax (join LF parts)) <->
   list_sum (map (count_char "(") parts) <> list_sum (map (count_char ")") parts)) /\
  (In "Missing space after function keyword" (validateSyntax (join LF parts)) <->
   Exists (is_substring "function(") parts) /\
  (In "Missing space after if keyword" (validateSyntax (join LF parts)) <->
   Exists (is_substring "if(") parts).
Proof.
  destruct (validateSyntax_In (join LF parts)) as (B & P & F & I).
  unfold LF in B, P. rewrite !count_char_join in B, P by (vm_compute; discriminate).
  rewrite includes_join in F, I by (reflexivity || discriminate).
  repeat split; first [apply B | apply P | apply F | apply I].
Qed.


(** ** Further properties of the configuration table *)

Section ConfigTable.

Lemma lookup_set_entry_other {V : Type} (key k : string) (v : V) (entries : list (string * V)) :
  k <> key -> lookup k (set_entry key v entries) = lookup k entries.
Proof.
  intros N. induction entries as [|[k' x] r IH]; cbn [set_entry lookup].
  - destruct (String.eqb_spec key k); [congruence | reflexivity].
  - destruct (String.eqb_spec k' key) as [->|N']; cbn [lookup].
    + destruct (String.eqb_spec key k); [congruence | reflexivity].
    + now rewrite IH.
Qed.

Lemma set_entry_fresh {V : Type} (key : string) (v : V) (entries : list (string * V)) :
  lookup key entries = None -> set_entry key v entries = (entries ++ [(key, v)])%list.
Proof.
  induction entries as [|[k x] r IH]; cbn [set_entry lookup List.app]; [reflexivity|].
  destruct (k =? key); [discriminate|]. intros H. now rewrite IH.
Qed.

Lemma lookup_removed {V : Type} (key k : string) (entries : list (string * V)) :
  lookup k (filter (fun entry => negb (fst entry =? key)) entries) =
  if k =? key then None else lookup k entries.
Proof.
  induction entries as [|[k' x] r IH]; cbn [filter lookup fst].
  - now destruct (k =? key).
  - destruct (String.eqb_spec k' key) as [->|N]; cbn [negb lookup].
    + rewrite IH. destruct (String.eqb_spec k key) as [->|N'].
      * reflexivity.
      * destruct (String.eqb_spec key k); [congruence | reflexivity].
    + rewrite IH. destruct (String.eqb_spec k' k) as [->|N'].
      * destruct (String.eqb_spec k key); [congruence | reflexivity].
      * reflexivity.
Qed.

Lemma lookup_Some_In {V : Type} (key : string) (x : V) (entries : list (string * V)) :
  lookup key entries = Some x -> In key (map fst entries).
Proof.
  induction entries as [|[k y] r IH]; cbn [lookup map fst In]; [discriminate|].
  destruct (String.eqb_spec k key) as [->|_]; [now left | right; now apply IH].
Qed.

Lemma In_lookup_Some {V : Type} (key : string) (entries : list (string * V)) :
  In key (map fst entries) -> exists x, lookup key entries = Some x.
Proof.
  induction entries as [|[k y] r IH]; cbn [lookup map fst In]; [contradiction|].
  destruct (String.eqb_spec k key) as [->|N]; [now exists y|].
  intros [E|H]; [congruence | now apply IH].
Qed.

Lemma var_key_inj (n m : nat) : var_key n = var_key m -> n = m.
Proof. intros E. apply append_inj_l in E. now apply string_of_nat_inj. Qed.

Lemma keys_removed (key : string) (config : GlobalConfig) :
  map fst (filter (fun entry => negb (fst entry =? key)) config) =
  filter (fun k => negb (k =? key)) (map fst config).
Proof.
  induction config as [|e r IH]; [reflexivity|]. cbn [filter map].
  destruct (negb (fst e =? key)); cbn [map]; now rewrite IH.
Qed.

Lemma var_keys_removed (k : nat) (l : list nat) :
  filter (fun key => negb (key =? var_key k)) (map var_key l) =
  map var_key (filter (fun i => negb (i =? k)%nat) l).
Proof.
  induction l as [|i l IH]; [reflexivity|]. cbn [map filter]. rewrite IH.
  destruct (Nat.eqb_spec i k) as [->|N].
  - now rewrite String.eqb_refl.
  - destruct (String.eqb_spec (var_key i) (var_key k)) as [E|_]; [|reflexivity].
    elim N. now apply var_key_inj.
Qed.

Lemma seq_without (start len k : nat) :
  start <= k < start + len ->
  filter (fun i => negb (i =? k)%nat) (seq start len) =
  (seq start (k - start) ++ seq (S k) (start + len - S k))%list.
Proof.
  revert start; induction len as [|len IH]; intros start H; [lia|].
  cbn [seq filter]. destruct (Nat.eqb_spec start k) as [->|N]; cbn [negb].
  - rewrite Nat.sub_diag. cbn [seq List.app].
    replace (k + S len - S k) with len by lia.
    apply filter_all. apply Forall_forall. intros i Hi. apply in_seq in Hi.
    destruct (Nat.eqb_spec i k); [lia | reflexivity].
  - rewrite IH by lia. replace (k - start) with (S (k - S start)) by lia.
    cbn [seq List.app]. do 3 f_equal. lia.
Qed.

End ConfigTable.

(** X14.  The key of a new variable is derived from the size of the
    table, so an addition can land on a key that is taken.  In a table with
    keys [var1 .. varn], removing any variable but the last and then adding
    one adds nothing: the table keeps its [n - 1] entries, and the variable
    under [varn] is reset to the values of a new variable, while the other
    variables stay as they are. *)
Theorem add_after_remove_overwrites_last (st : AppState) (k : nat) :
  numbered (globalConfig st) ->
  1 <= k < List.length (globalConfig st) ->
  let n := List.length (globalConfig st) in
  let st1 := removeGlobalConfigVar (var_key k) st in
  let st2 := addGlobalConfigVar st1 in
  map fst (globalConfig st2) = map var_key (seq 1 (k - 1) ++ seq (S k) (n - k)) /\
  lookup (var_key n) (globalConfig st2) = Some (fresh_var n) /\
  (forall key, key <> var_key n ->
     lookup key (globalConfig st2) = lookup key (globalConfig st1)).
Proof.
  intros Num Hk n st1 st2.
  assert (K1 : map fst (globalConfig st1) = map var_key (seq 1 (k - 1) ++ seq (S k) (n - k))).
  { unfold st1, removeGlobalConfigVar. cbn [globalConfig set_globalConfig].
    rewrite keys_removed, Num, var_keys_removed. fold n.
    rewrite seq_without by lia. reflexivity. }
  assert (L1 : List.length (globalConfig st1) + 1 = n).
  { rewrite <- (length_map fst), K1, length_map, length_app, !length_seq. lia. }
  assert (E2 : globalConfig st2 = set_entry (var_key n) (fresh_var n) (globalConfig st1)).
  { unfold st2, addGlobalConfigVar. cbn [globalConfig set_globalConfig].
    rewrite L1. reflexivity. }
  assert (I : In (var_key n) (map fst (globalConfig st1))).
  { rewrite K1. apply in_map, in_or_app. right. apply in_seq. lia. }
  destruct (In_lookup_Some _ _ I) as [x Hx].
  rewrite E2. repeat split.
  - now rewrite (set_entry_keys _ _ x _ Hx).
  - apply lookup_set_entry.
  - intros key N. now apply lookup_set_entry_other.
Qed.

Lemma add_after_remove_overwrites_last_witness :
  exists st,
    updateGlobalConfigVar "var3" field_value "42"
      (addGlobalConfigVar (addGlobalConfigVar (addGlobalConfigVar empty_state))) = Some st /\
    lookup "var3" (globalConfig st) =
      Some {| var_name := "param3"; label := "Parameter 3"; value := "42" |} /\
    map fst (globalConfig (addGlobalConfigVar (removeGlobalConfigVar "var1" st))) =
      ["var2"; "var3"] /\
    lookup "var3" (globalConfig (addGlobalConfigVar (removeGlobalConfigVar "var1" st))) =
      Some {| var_name := "param3"; label := "Parameter 3"; value := EmptyString |}.
Proof.
  eexists. split; [reflexivity|]. split; [reflexivity|].
  match goal with |- context [removeGlobalConfigVar _ ?s] =>
    destruct (add_after_remove_overwrites_last s 1) as (K & L & _)
  end.
  - reflexivity.
  - cbn. lia.
  - split; [exact K | exact L].
Defined.

(** X15.  Editing a field of a variable changes that field of that
    variable and nothing else: the call goes through exactly for a key of
    the table, the keys and their order stay, the edited variable has the
    new value in the field and its other two fields as before, and every
    other key reads as before. *)
Theorem updateGlobalConfigVar_changes_one_field (key : string) (field : ConfigField)
    (v : string) (st : AppState) :
  (updateGlobalConfigVar key field v st = None <-> ~ In key (map fst (globalConfig st))) /\
  (forall st', updateGlobalConfigVar key field v st = Some st' ->
     exists x x',
       lookup key (globalConfig st) = Some x /\
       lookup key (globalConfig st') = Some x' /\
       (match field with
        | field_name => var_name x' = v /\ label x' = label x /\ value x' = value x
        | field_label => var_name x' = var_name x /\ label x' = v /\ value x' = value x
        | field_value => var_name x' = var_name x /\ label x' = label x /\ value x' = v
        end) /\
       map fst (globalConfig st') = map fst (globalConfig st) /\
       (forall k, k <> key -> lookup k (globalConfig st') = lookup k (globalConfig st))).
Proof.
  unfold updateGlobalConfigVar. split.
  - destruct (lookup key (globalConfig st)) as [x|] eqn:E.
    + split; [discriminate|]. intros N. elim N. exact (lookup_Some_In _ _ _ E).
    + split; [|reflexivity]. intros _ I.
      destruct (In_lookup_Some _ _ I) as [x Hx]. congruence.
  - intros st'. destruct (lookup key (globalConfig st)) as [x|] eqn:E; [|discriminate].
    intros [= <-]. cbn [globalConfig set_globalConfig].
    exists x, (set_field field v x). split; [reflexivity|].
    split; [apply lookup_set_entry|].
    split; [destruct field; repeat split|].
    split; [exact (set_entry_keys _ _ x _ E)|].
    intros k N. now apply lookup_set_entry_other.
Qed.

(** X16.  Removing a variable removes its key and nothing else: the key
    reads as absent afterwards, every other key reads as before, the
    remaining keys keep their order, and removing a key that is not in the
    table leaves the state as it is. *)
Theorem removeGlobalConfigVar_removes_one_key (key : string) (st : AppState) :
  lookup key (globalConfig (removeGlobalConfigVar key st)) = None /\
  (forall k, k <> key ->
     lookup k (globalConfig (removeGlobalConfigVar key st)) = lookup k (globalConfig st)) /\
  map fst (globalConfig (removeGlobalConfigVar key st)) =
    filter (fun k => negb (k =? key)) (map fst (globalConfig st)) /\
  (~ In key (map fst (globalConfig st)) -> removeGlobalConfigVar key st = st).
Proof.
  unfold removeGlobalConfigVar. cbn [globalConfig set_globalConfig]. repeat split.
  - rewrite lookup_removed. now rewrite String.eqb_refl.
  - intros k N. rewrite lookup_removed.
    destruct (String.eqb_spec k key); [congruence | reflexivity].
  - apply keys_removed.
  - intros N. rewrite filter_all; [now destruct st|].
    apply Forall_forall. intros [k x] Hin. cbn [fst].
    destruct (String.eqb_spec k key) as [->|_]; [|reflexivity].
    elim N. apply in_map_iff. now exists (key, x).
Qed.


(** ** The library: search and the built-in snippets *)

Section Library.






Lemma includes_mono (s a b : string) :
  is_substring a b -> includes s b = true -> includes s a = true.
Proof.
  intros Hab H. apply includes_spec. apply includes_spec in H.
  exact (is_substring_trans _ _ _ Hab H).
Qed.

Lemma count_char_substring (c : ascii) (pat s : string) :
  is_substring pat s -> count_char c pat <= count_char c s.
Proof. intros (pre & post & ->). rewrite !count_char_append. lia. Qed.

Lemma includes_needs_char (c : ascii) (pat s : string) :
  count_char c s = 0 -> 0 < count_char c pat -> includes s pat = false.
Proof.
  intros Hs Hp. destruct (includes s pat) eqn:E; [|reflexivity].
  apply includes_spec in E. pose proof (count_char_substring c pat s E). lia.
Qed.

Lemma count_char_none (p : ascii -> bool) (c : ascii) (s : string) :
  all_chars p s = true -> p c = false -> count_char c s = 0.
Proof.
  intros H Hc. induction s as [|a s IH]; [reflexivity|].
  cbn [all_chars] in H. apply andb_true_iff in H as [Ha Hs]. cbn [count_char].
  destruct (Ascii.eqb_spec a c) as [->|_]; [congruence|]. now rewrite IH.
Qed.

Lemma list_sum_counts (c d : ascii) (parts : list string) :
  Forall (fun part => (count_char c part =? count_char d part)%nat = true) parts ->
  list_sum (map (count_char c) parts) = list_sum (map (count_char d) parts).
Proof.
  induction 1 as [|x l Hx F IH]; [reflexivity|].
  unfold list_sum in *. cbn [map fold_right]. apply Nat.eqb_eq in Hx. now rewrite Hx, IH.
Qed.

Lemma includes_join_none (pat : string) (parts : list string) :
  count_char (ascii_of_nat 10) pat = 0 -> pat <> EmptyString ->
  Forall (fun part => includes part pat = false) parts ->
  includes (join LF parts) pat = false.
Proof.
  intros Hc NE F. destruct (includes (join LF parts) pat) eqn:E; [|reflexivity].
  apply (includes_join pat parts Hc NE) in E. apply Exists_exists in E as (x & Hin & Hx).
  apply includes_spec in Hx.
  rewrite (proj1 (Forall_forall _ _) F x Hin) in Hx. discriminate.
Qed.

Lemma quiet_inv (part : string) :
  quiet part = true ->
  (count_char "{" part =? count_char "}" part)%nat = true /\
  (count_char "(" part =? count_char ")" part)%nat = true /\
  includes part "function(" = false /\ includes part "if(" = false.
Proof.
  unfold quiet. intros H.
  apply andb_true_iff in H as [H H4]. apply andb_true_iff in H as [H H3].
  apply andb_true_iff in H as [H1 H2].
  apply negb_true_iff in H3, H4. now repeat split.
Qed.

Lemma validateSyntax_quiet_parts (parts : list string) :
  Forall (fun part => quiet part = true) parts -> validateSyntax (join LF parts) = [].
Proof.
  intros Q. unfold validateSyntax.
  rewrite (includes_join_none "function(" parts), (includes_join_none "if(" parts);
    try reflexivity; try discriminate;
    try (refine (Forall_impl _ _ Q); intros part H; apply quiet_inv in H; tauto).
  unfold LF. rewrite !count_char_join by (vm_compute; discriminate).
  rewrite (list_sum_counts "{" "}"), (list_sum_counts "(" ")"), !Nat.eqb_refl;
    try reflexivity;
    refine (Forall_impl _ _ Q); intros part H; apply quiet_inv in H; tauto.
Qed.

Lemma quiet_date_line (now : string) :
  all_chars is_iso_char now = true -> quiet ("// Generated on: " ++ now) = true.
Proof.
  intros H. unfold quiet.
  assert (C : forall c, is_iso_char c = false ->
                count_char c "// Generated on: " = 0 ->
                count_char c ("// Generated on: " ++ now) = 0).
  { intros c Hc Hz. rewrite count_char_append, Hz. exact (count_char_none _ c now H Hc). }
  rewrite (C "{"%char), (C "}"%char), (C "("%char), (C ")"%char) by reflexivity.
  rewrite !(includes_needs_char "("%char) by (first [apply C; reflexivity | vm_compute; lia]).
  reflexivity.
Qed.

Lemma builtin_parts_quiet :
  forallb (fun s => quiet (comment_line s) && quiet (code s)) SAMPLE_SNIPPETS = true.
Proof. vm_compute. reflexivity. Qed.

Lemma builtin_tokenise : forallb tokenises SAMPLE_SNIPPETS = true.
Proof. vm_compute. reflexivity. Qed.

Lemma lookup_plain_entries {V : Type} (text : V -> string) (key : string) (x : V)
    (entries : list (string * V)) :
  plain_entries text entries = true -> lookup key entries = Some x ->
  clean_value (text x) = true.
Proof.
  unfold plain_entries. induction entries as [|[k y] r IH]; cbn [forallb lookup fst snd];
    [discriminate|].
  intros H. apply andb_true_iff in H as [Hy Hr]. apply andb_true_iff in Hy as [_ Hy].
  destruct (k =? key); [intros [= <-]; exact Hy | now apply IH].
Qed.

Lemma fill_segments_no_percent (rho : string -> option string) (interior : bool)
    (segs : list (string * string)) :
  well_formed_segments interior segs = true ->
  (forall hole, In hole (map snd segs) -> exists v, rho hole = Some v /\ no_percent v = true) ->
  no_percent (fill_segments rho segs) = true.
Proof.
  revert interior; induction segs as [|[text hole] r IH]; intros interior W R; [reflexivity|].
  cbn [well_formed_segments] in W.
  apply andb_true_iff in W as [W Wr]. apply andb_true_iff in W as [W _].
  apply andb_true_iff in W as [Wt _].
  cbn [fill_segments]. rewrite !no_percent_append, Wt.
  destruct (R hole) as (v & Ev & Hv); [now left|].
  unfold fill_hole. rewrite Ev, Hv. cbn [andb].
  apply (IH true Wr). intros h Hh. apply R. now right.
Qed.

End Library.


(** X18.  In every built-in snippet the placeholders are declared
    parameters, so once every declared parameter has a value, as an
    override or in the configuration table, with plain identifiers as keys
    and values free of percent and dollar signs, the processed code holds
    no percent sign: no placeholder is left. *)
Theorem builtin_placeholders_all_filled (s : Snippet) (params : list (string * string))
    (config : GlobalConfig) :
  In s SAMPLE_SNIPPETS ->
  plain_entries (fun v => v) params = true ->
  plain_entries value config = true ->
  (forall p, In p (declared s) -> In p (map fst params) \/ In p (map fst config)) ->
  exists processedCode,
    processSnippetCode (code s) params config = Normal processedCode /\
    no_percent processedCode = true.
Proof.
  intros Hin Hp Hc Hd.
  pose proof (proj1 (forallb_forall _ _) builtin_tokenise s Hin) as T.
  unfold tokenises in T. destruct (tokenize (code s)) as [t|]; [|discriminate].
  apply andb_true_iff in T as [T Hh]. apply andb_true_iff in T as [Er Hw].
  apply String.eqb_eq in Er. rewrite <- Er.
  rewrite (processSnippetCode_fill t params config Hw Hp Hc).
  eexists. split; [reflexivity|].
  pose proof Hw as Hw'. unfold well_formed in Hw'. apply andb_true_iff in Hw' as [Ws Wt].
  unfold fill. rewrite no_percent_append, Wt, andb_true_r.
  apply (fill_segments_no_percent _ false _ Ws). intros hole Hhole.
  assert (D : In hole (declared s)).
  { pose proof (proj1 (forallb_forall _ _) Hh hole Hhole) as E.
    apply existsb_exists in E as (p & Hp' & E). apply String.eqb_eq in E. now subst. }
  unfold resolve. destruct (lookup hole params) as [v|] eqn:L.
  - exists v. split; [reflexivity|].
    pose proof (lookup_plain_entries (fun v => v) hole v params Hp L) as C.
    now apply andb_true_iff in C as [C _].
  - destruct (Hd hole D) as [I|I].
    + destruct (In_lookup_Some _ _ I) as [x Hx]. congruence.
    + destruct (In_lookup_Some _ _ I) as [x Hx]. rewrite Hx. cbn [option_map].
      exists (value x). split; [reflexivity|].
      pose proof (lookup_plain_entries value hole x config Hc Hx) as C.
      now apply andb_true_iff in C as [C _].
Qed.

Lemma builtin_placeholders_all_filled_witness :
  exists processedCode,
    processSnippetCode (code api_fetch_wrapper) [("url", "'/api/items'"); ("timeout", "5000")] []
      = Normal processedCode /\
    no_percent processedCode = true.
Proof.
  apply (builtin_placeholders_all_filled api_fetch_wrapper).
  - cbn. tauto.
  - reflexivity.
  - reflexivity.
  - cbn. intros p [<-|[<-|[]]]; tauto.
Defined.


Section CleanScript.

Lemma blocks_of_plain_blueprints (bps : list Blueprint) :
  Forall (fun bp => params_of bp = []) bps ->
  map_completion (block []) bps = Normal (map plain_block bps).
Proof.
  induction 1 as [|bp l Hp F IH]; [reflexivity|].
  cbn [map_completion map]. unfold block at 1. rewrite Hp, IH. reflexivity.
Qed.

Lemma plain_blocks_quiet (bps : list Blueprint) :
  Forall (fun bp => In (snippet bp) SAMPLE_SNIPPETS) bps ->
  Forall (fun part => quiet part = true) (concat (map plain_block bps)).
Proof.
  induction 1 as [|bp l Hs F IH]; [constructor|].
  cbn [map concat plain_block List.app].
  pose proof (proj1 (forallb_forall _ _) builtin_parts_quiet _ Hs) as Q.
  apply andb_true_iff in Q as [Q1 Q2].
  repeat constructor; assumption.
Qed.

End CleanScript.

(** X19.  The built-in snippets pass the checker.  With an empty
    configuration table, a script generated from any blueprints of built-in
    snippets whose parameters have no values holds each snippet's code as it
    is, in position order, and draws no warning. *)
Theorem builtin_snippets_generate_clean (now : string) (st : AppState) :
  blueprints st <> [] ->
  globalConfig st = [] ->
  Forall (fun bp => In (snippet bp) SAMPLE_SNIPPETS /\ params_of bp = []) (blueprints st) ->
  all_chars is_iso_char now = true ->
  exists toast,
    generateScript now st =
      Normal (set_generated st []
                (join LF (preamble now [] ++
                          concat (map plain_block (sort compare_order (blueprints st))))),
              toast) /\
    title toast = "Script Generated".
Proof.
  intros NE Hc F Hnow.
  assert (Fs : Forall (fun bp => In (snippet bp) SAMPLE_SNIPPETS /\ params_of bp = [])
                      (sort compare_order (blueprints st))).
  { exact (Permutation_Forall (Permutation_sym (sort_perm Blueprint order (blueprints st))) F). }
  assert (B : map_completion (block (globalConfig st)) (sort compare_order (blueprints st)) =
              Normal (map plain_block (sort compare_order (blueprints st)))).
  { rewrite Hc. apply blocks_of_plain_blueprints.
    refine (Forall_impl _ _ Fs). now intros bp [_ H]. }
  assert (Q : validateSyntax
                (join LF (preamble now [] ++
                          concat (map plain_block (sort compare_order (blueprints st))))) = []).
  { apply validateSyntax_quiet_parts. apply Forall_app. split.
    - cbn [preamble]. repeat constructor. now apply quiet_date_line.
    - apply plain_blocks_quiet. refine (Forall_impl _ _ Fs). now intros bp [H _]. }
  unfold generateScript.
  destruct (blueprints st) as [|b l] eqn:Eb; [congruence|].
  cbn [List.length Nat.eqb]. rewrite B. cbn [bind].
  rewrite scriptParts_preamble, Hc, Q. cbn [List.length Nat.ltb Nat.leb].
  eexists. split; reflexivity.
Qed.

Lemma builtin_snippets_generate_clean_witness :
  exists toast,
    generateScript "2024-01-01T00:00:00.000Z" event_listener_state =
      Normal (set_generated event_listener_state []
                (join LF (preamble "2024-01-01T00:00:00.000Z" [] ++
                          concat (map plain_block
                                    (sort compare_order (blueprints event_listener_state))))),
              toast) /\
    title toast = "Script Generated".
Proof.
  apply (builtin_snippets_generate_clean "2024-01-01T00:00:00.000Z" event_listener_state).
  - discriminate.
  - reflexivity.
  - constructor; [split; [right; left; reflexivity | reflexivity] | constructor].
  - reflexivity.
Defined.


(** ** Parameter names typed into the snippet form *)

Section ParameterNames.

Lemma split_no_separator (sep : ascii) (s : string) :
  count_char sep s = 0 -> split sep s = [s].
Proof.
  induction s as [|c s IH]; [reflexivity|]. cbn [count_char split].
  destruct (Ascii.eqb_spec c sep) as [->|N]; [discriminate|].
  intros H. now rewrite IH.
Qed.

Lemma split_at_first_separator (sep : ascii) (s rest : string) :
  count_char sep s = 0 ->
  split sep (s ++ String sep rest) = s :: split sep rest.
Proof.
  induction s as [|c s IH]; cbn [count_char append].
  - intros _. cbn [split]. now rewrite Ascii.eqb_refl.
  - destruct (Ascii.eqb_spec c sep) as [->|N]; [discriminate|].
    intros H. cbn [split]. destruct (Ascii.eqb_spec c sep) as [E|_]; [now elim N|].
    now rewrite IH.
Qed.

Lemma split_join (sep : ascii) (parts : list string) :
  parts <> [] ->
  Forall (fun p => count_char sep p = 0) parts ->
  split sep (join (String sep EmptyString) parts) = parts.
Proof.
  intros NE F. induction F as [|x l Hx F IH]; [congruence|].
  destruct l as [|y l].
  - now apply split_no_separator.
  - rewrite join_cons by discriminate. cbn [append].
    rewrite split_at_first_separator by exact Hx. now rewrite IH.
Qed.

Lemma trim_leading_space (s : string) : trim (String " " s) = trim s.
Proof. reflexivity. Qed.

Lemma join_wide (parts : list string) :
  join ", " parts =
  join "," (match parts with [] => [] | x :: l => x :: map (String " ") l end).
Proof.
  destruct parts as [|x l]; [reflexivity|].
  revert x; induction l as [|y l IH]; intros x; [reflexivity|].
  rewrite join_cons by discriminate. cbn [map].
  rewrite (join_cons "," x) by discriminate. rewrite IH. f_equal.
  destruct (map (String " ") l); reflexivity.
Qed.

End ParameterNames.

(** X20.  What is typed into the parameters field comes out as typed.
    When pieces without a comma are joined by commas, the parameters are
    the trimmed pieces that are not empty, in their order; so names that
    are non-empty, without a comma and without white space at either end
    are recovered exactly, whether joined by a comma or by a comma and a
    space. *)
Theorem parse_parameters_recovers_names :
  (forall pieces, Forall (fun p => count_char "," p = 0) pieces ->
     parse_parameters (join "," pieces) =
       filter (fun p => negb (is_empty p)) (map trim pieces)) /\
  (forall names,
     Forall (fun p => p <> EmptyString /\ trim p = p /\ count_char "," p = 0) names ->
     parse_parameters (join "," names) = names /\
     parse_parameters (join ", " names) = names).
Proof.
  assert (G : forall pieces, Forall (fun p => count_char "," p = 0) pieces ->
                parse_parameters (join "," pieces) =
                  filter (fun p => negb (is_empty p)) (map trim pieces)).
  { intros pieces F. destruct pieces as [|x l]; [reflexivity|].
    unfold parse_parameters. now rewrite split_join by (discriminate || exact F). }
  assert (K : forall names,
                Forall (fun p => p <> EmptyString /\ trim p = p /\ count_char "," p = 0) names ->
                filter (fun p => negb (is_empty p)) (map trim names) = names).
  { induction 1 as [|x l (NE & T & _) F IH]; [reflexivity|].
    cbn [map filter]. rewrite T, IH. destruct x; [congruence | reflexivity]. }
  split; [exact G|]. intros names F. split.
  - rewrite G; [now apply K|]. refine (Forall_impl _ _ F). tauto.
  - rewrite join_wide. destruct names as [|x l]; [reflexivity|].
    inversion F as [|? ? Hx Fl]; subst. rewrite G.
    + etransitivity; [|exact (K (x :: l) F)]. cbn [map]. do 2 f_equal.
      rewrite map_map. apply map_ext. intros p. apply trim_leading_space.
    + constructor; [tauto|]. apply Forall_map. refine (Forall_impl _ _ Fl).
      intros p (_ & _ & H). cbn [count_char]. exact H.
Qed.


(** ** Every state the interface can reach *)

Section Reachable.

Lemma Forall_filter_keep {A : Type} (P : A -> Prop) (f : A -> bool) (l : list A) :
  Forall P l -> Forall P (filter f l).
Proof.
  intros H. apply Forall_forall. intros x Hx. apply filter_In in Hx as [Hx _].
  exact (proj1 (Forall_forall _ _) H x Hx).
Qed.

Lemma card_ok_grows (library library' : list Snippet) (bp : Blueprint) :
  incl library library' -> card_ok library bp -> card_ok library' bp.
Proof.
  intros I [Hs Hk]. split; [now apply I|].
  intros key Hkey. destruct (Hk key Hkey) as (s & Hin & Hd). exists s. split; [now apply I | exact Hd].
Qed.

Lemma card_ok_placement (library : list Snippet) (a b : Blueprint) :
  placement a = placement b -> card_ok library a -> card_ok library b.
Proof.
  unfold placement, card_ok, params_of. intros [= _ Es Ec]. now rewrite Es, Ec.
Qed.

Lemma cards_ok_permuted (library : list Snippet) (l l' : list Blueprint) :
  Permutation (placements l') (placements l) ->
  Forall (card_ok library) l -> Forall (card_ok library) l'.
Proof.
  intros P F. apply Forall_forall. intros b Hb.
  assert (I : In (placement b) (placements l)).
  { apply (Permutation_in _ P). unfold placements. now apply in_map. }
  apply in_map_iff in I as (a & E & Ha).
  exact (card_ok_placement library a b E (proj1 (Forall_forall _ _) F a Ha)).
Qed.

Lemma insert_index_keys (n : Z) (key v k : string) (entries : list (string * string)) :
  In k (map fst (insert_index n key v entries)) -> k = key \/ In k (map fst entries).
Proof.
  induction entries as [|[k' x] r IH]; cbn [insert_index map fst In].
  - intros [H|[]]. now left.
  - destruct (array_index k') as [m|]; [destruct (m <? n)%Z|]; cbn [map fst In]; intros H.
    + destruct H as [H|H]; [right; now left|]. destruct (IH H) as [E|E]; [now left|right; now right].
    + destruct H as [H|H]; [now left | now right].
    + destruct H as [H|H]; [now left | now right].
Qed.

Lemma set_entry_keys_in {V : Type} (key k : string) (v : V) (entries : list (string * V)) :
  In k (map fst (set_entry key v entries)) -> k = key \/ In k (map fst entries).
Proof.
  induction entries as [|[k' x] r IH]; cbn [set_entry map fst In].
  - intros [H|[]]. now left.
  - destruct (k' =? key); cbn [map fst In]; intros [H|H]; auto.
    destruct (IH H); auto.
Qed.

Lemma object_set_keys (key v k : string) (entries : list (string * string)) :
  In k (map fst (object_set key v entries)) -> k = key \/ In k (map fst entries).
Proof.
  unfold object_set. destruct (lookup key entries); [apply set_entry_keys_in|].
  destruct (array_index key); [apply insert_index_keys | apply set_entry_keys_in].
Qed.

Lemma set_entry_distinct {V : Type} (key : string) (v : V) (entries : list (string * V)) :
  NoDup (map fst entries) -> NoDup (map fst (set_entry key v entries)).
Proof.
  intros N. destruct (lookup key entries) as [x|] eqn:E.
  - now rewrite (set_entry_keys key v x entries E).
  - rewrite (set_entry_fresh key v entries E), map_app. cbn [map fst].
    apply (Permutation_NoDup (Permutation_cons_append _ _)). constructor; [|exact N].
    intros I. destruct (In_lookup_Some _ _ I) as [x Hx]. congruence.
Qed.

Lemma plain_keys_of_keys {V W : Type} (a : list (string * V)) (b : list (string * W)) :
  map fst a = map fst b -> plain_keys a = plain_keys b.
Proof.
  unfold plain_keys. revert b; induction a as [|x a IH]; intros [|y b] E; try discriminate;
    [reflexivity|].
  cbn [map] in E. injection E as E1 E2. cbn [forallb]. now rewrite E1, (IH b E2).
Qed.

Lemma builtin_names_regex_free :
  forallb (fun s => forallb regex_free (declared s)) SAMPLE_SNIPPETS = true.
Proof. vm_compute. reflexivity. Qed.

Lemma generateScript_state (now : string) (st st' : AppState) (toast : Toast) :
  generateScript now st = Normal (st', toast) ->
  st' = st \/
  exists script,
    st' = set_generated st (validateSyntax script) script /\
    prefix "// Generated Script from Blueprint Generator" script = true.
Proof.
  unfold generateScript. destruct (List.length (blueprints st) =? 0)%nat.
  - intros [= <- _]. now left.
  - destruct (map_completion (block (globalConfig st)) (sort compare_order (blueprints st)))
      as [blocks| |]; cbn [bind]; try discriminate.
    intros E. right. exists (join LF (scriptParts now (globalConfig st) blocks)). split.
    + symmetry. now injection E.
    + rewrite scriptParts_preamble.
      destruct (globalConfig st); cbn [preamble List.app];
        rewrite join_cons by discriminate; apply prefix_append.
Qed.

Lemma handle_coherent (e : Event) (st st' : AppState) :
  coherent st -> handle e st = Some st' -> coherent st'.
Proof.
  intros [Hw Hh Hp Hd Hf Hc Hb] H.
  destruct e as [now rnd term cat card|card|card param v|card|dt j|now|field v|item|open|
                 now rnd| |row field v|row]; cbn [handle] in H.
  - destruct (nth_error (filteredSnippets term cat st) card) as [s|] eqn:E; [|discriminate].
    injection H as <-. constructor; try assumption.
    cbn [addBlueprint fst blueprints set_blueprints]. apply Forall_app. split; [exact Hb|].
    constructor; [|constructor]. split.
    + apply nth_error_In in E. unfold filteredSnippets in E. now apply filter_In in E as [E _].
    + intros key [].
  - destruct (nth_error (blueprints st) card) as [bp|]; [|discriminate].
    injection H as <-. constructor; try assumption.
    exact (Forall_filter_keep _ _ _ Hb).
  - destruct (nth_error (blueprints st) card) as [bp|] eqn:E; [|discriminate].
    destruct (parameters (snippet bp)) as [ps|] eqn:Eps; [|discriminate].
    destruct (existsb (String.eqb param) ps) eqn:Ex; [|discriminate].
    injection H as <-. constructor; try assumption.
    unfold editParameter, updateBlueprintParams. cbn [blueprints set_blueprints].
    apply nth_error_In in E. pose proof (proj1 (Forall_forall _ _) Hb bp E) as [Sbp Kbp].
    apply Forall_map. refine (Forall_impl _ _ Hb). intros b [Sb Kb].
    destruct (id b =? id bp); [|now split]. split; [exact Sb|].
    cbn [params_of set_customParams customParams]. intros key Hk.
    apply object_set_keys in Hk as [->|Hk]; [|now apply Kbp].
    exists (snippet bp). split; [exact Sbp|]. unfold declared. rewrite Eps.
    apply existsb_exists in Ex as (p & Hp' & Ep). apply String.eqb_eq in Ep. now subst.
  - destruct (nth_error (blueprints st) card) as [bp|]; [|discriminate].
    injection H as <-. now constructor.
  - destruct (j <? List.length (blueprints st))%nat; [|discriminate].
    unfold handleDrop_event in H.
    destruct (parseInt (getData "text/plain" dt)) as [z|]; [|discriminate].
    destruct (0 <=? z)%Z; [|discriminate]. unfold handleDrop in H.
    destruct (negb (Z.to_nat z =? j)%nat).
    + destruct (reorderBlueprints (Z.to_nat z) j (blueprints st)) as [l'|] eqn:R;
        [|discriminate].
      injection H as <-. constructor; try assumption.
      exact (cards_ok_permuted _ _ _ (reorder_perm _ j _ _ R) Hb).
    + injection H as <-. now constructor.
  - destruct (generateScript now st) as [[st1 toast]| |] eqn:G; try discriminate.
    + injection H as <-. apply generateScript_state in G as [->|(script & -> & Hs)];
        constructor; try assumption; try reflexivity. now right.
    + injection H as <-. now constructor.
  - injection H as <-. constructor; try assumption. now destruct field.
  - destruct (nth_error selectable_categories item) as [c|] eqn:E; [|discriminate].
    injection H as <-. constructor; try assumption. exact (nth_error_In _ _ E).
  - injection H as <-. now constructor.
  - injection H as <-. unfold addCustomSnippet.
    destruct (is_empty (form_name (newSnippet st)) || is_empty (form_code (newSnippet st)))
      eqn:Em; cbn [fst]; [now constructor|].
    apply orb_false_iff in Em as [En Ec].
    constructor; try assumption.
    + cbn. do 7 right. now left.
    + cbn [customSnippets]. apply Forall_app. split; [exact Hc|].
      constructor; [|constructor]. unfold custom_ok. cbn [isCustom name code category].
      repeat split; try assumption.
      * intros E. rewrite E in En. discriminate.
      * intros E. rewrite E in Ec. discriminate.
    + cbn [blueprints]. refine (Forall_impl _ _ Hb). intros bp.
      apply card_ok_grows. unfold allSnippets. cbn [customSnippets].
      intros s Hs. apply in_app_or in Hs as [Hs|Hs]; apply in_or_app; [now left|right].
      apply in_or_app. now left.
  - injection H as <-. constructor; try assumption.
    + now apply addGlobalConfigVar_plain_keys.
    + unfold addGlobalConfigVar. cbn [globalConfig set_globalConfig].
      now apply set_entry_distinct.
  - destruct (nth_error (globalConfig st) row) as [[key x]|]; [|discriminate].
    pose proof (updateGlobalConfigVar_keys key field v st st' H) as K.
    unfold updateGlobalConfigVar in H.
    destruct (lookup key (globalConfig st)); [|discriminate]. injection H as <-.
    constructor; try assumption.
    + now rewrite (plain_keys_of_keys _ _ K).
    + now rewrite K.
  - destruct (nth_error (globalConfig st) row) as [[key x]|]; [|discriminate].
    injection H as <-. constructor; try assumption.
    + now apply removeGlobalConfigVar_plain_keys.
    + unfold removeGlobalConfigVar. cbn [globalConfig set_globalConfig].
      rewrite keys_removed. now apply NoDup_filter.
Qed.

Lemma initial_coherent : coherent empty_state.
Proof.
  constructor;
    [reflexivity | now left | reflexivity | constructor | cbn; do 7 right; now left
    | constructor | constructor].
Qed.

Lemma run_events_coherent (events : list Event) (st st' : AppState) :
  coherent st -> run_events events st = Some st' -> coherent st'.
Proof.
  revert st; induction events as [|e rest IH]; intros st C R.
  - injection R as <-. exact C.
  - cbn [run_events] in R. destruct (handle e st) as [st1|] eqn:H; [|discriminate].
    exact (IH st1 (handle_coherent e st st1 C H) R).
Qed.

Lemma coherent_literal_placeholders (st : AppState) :
  coherent st ->
  Forall (fun s => forallb regex_free (declared s) = true) (customSnippets st) ->
  literal_placeholders st = true.
Proof.
  intros [_ _ Hp _ _ _ Hb] Hn. unfold literal_placeholders.
  rewrite (plain_keys_regex_free _ Hp), andb_true_r.
  apply forallb_forall. intros bp Hin.
  destruct (proj1 (Forall_forall _ _) Hb bp Hin) as [_ K].
  unfold regex_free_keys. apply forallb_forall. intros [key v] Hkv. cbn [fst].
  destruct (K key) as (s & Hs & Hd); [apply in_map_iff; now exists (key, v)|].
  assert (F : forallb regex_free (declared s) = true).
  { unfold allSnippets in Hs. apply in_app_or in Hs as [Hs|Hs].
    - exact (proj1 (forallb_forall _ _) builtin_names_regex_free s Hs).
    - exact (proj1 (Forall_forall _ _) Hn s Hs). }
  exact (proj1 (forallb_forall _ _) F key Hd).
Qed.

End Reachable.


Section Editor.

Lemma lookup_insert_index (n : Z) (key v q : string) (entries : list (string * string)) :
  lookup key entries = None ->
  lookup q (insert_index n key v entries) =
  if key =? q then Some v else lookup q entries.
Proof.
  induction entries as [|[k x] r IH]; cbn [insert_index lookup]; [reflexivity|].
  destruct (String.eqb_spec k key) as [->|N]; [discriminate|]. intros H.
  destruct (array_index k) as [m|]; [destruct (m <? n)%Z|]; cbn [lookup]; try reflexivity.
  rewrite (IH H). destruct (String.eqb_spec k q) as [->|_]; [|reflexivity].
  destruct (String.eqb_spec key q) as [E|_]; [now elim N | reflexivity].
Qed.

Lemma lookup_object_set (key v q : string) (entries : list (string * string)) :
  lookup q (object_set key v entries) = if key =? q then Some v else lookup q entries.
Proof.
  assert (S : lookup q (set_entry key v entries) = if key =? q then Some v else lookup q entries).
  { destruct (String.eqb_spec key q) as [->|N]; [apply lookup_set_entry|].
    apply lookup_set_entry_other. congruence. }
  unfold object_set. destruct (lookup key entries) eqn:L; [exact S|].
  destruct (array_index key); [now apply lookup_insert_index | exact S].
Qed.

End Editor.

(** X22.  Typing a value into the input of a parameter on a card sets the
    override of that parameter on that card, an empty value included, and
    changes nothing else there: the snippet, the position and the overrides
    of the other parameters stay.  When ids are distinct, every other card
    stays as it is. *)
Theorem editParameter_sets_override (card : nat) (bp : Blueprint) (param v : string)
    (st : AppState) :
  nth_error (blueprints st) card = Some bp ->
  exists bp',
    nth_error (blueprints (editParameter bp param v st)) card = Some bp' /\
    id bp' = id bp /\ snippet bp' = snippet bp /\ order bp' = order bp /\
    lookup param (params_of bp') = Some v /\
    (forall other, other <> param ->
       lookup other (params_of bp') = lookup other (params_of bp)) /\
    (NoDup (ids (blueprints st)) ->
     forall k, k <> card ->
       nth_error (blueprints (editParameter bp param v st)) k = nth_error (blueprints st) k).
Proof.
  intros E. unfold editParameter, updateBlueprintParams. cbn [blueprints set_blueprints].
  exists (set_customParams bp (object_set param v (params_of bp))).
  split; [|split; [reflexivity|split; [reflexivity|split; [reflexivity|split; [|split]]]]].
  - rewrite nth_error_map, E. cbn [option_map]. now rewrite String.eqb_refl.
  - cbn [params_of set_customParams customParams]. rewrite lookup_object_set.
    now rewrite String.eqb_refl.
  - intros other N. cbn [params_of set_customParams customParams]. rewrite lookup_object_set.
    destruct (String.eqb_spec param other); [congruence | reflexivity].
  - intros ND k Nk. rewrite nth_error_map.
    destruct (nth_error (blueprints st) k) as [b|] eqn:Ek; [|reflexivity]. cbn [option_map].
    destruct (String.eqb_spec (id b) (id bp)) as [Eid|_]; [|reflexivity].
    exfalso. apply Nk. apply (proj1 (NoDup_nth_error (ids (blueprints st))) ND).
    + apply nth_error_Some. unfold ids. rewrite nth_error_map, Ek. discriminate.
    + unfold ids. rewrite !nth_error_map, Ek, E. cbn [option_map]. now rewrite Eid.
Qed.

Lemma editParameter_sets_override_witness :
  exists bp',
    nth_error (blueprints (editParameter event_listener_blueprint "event" EmptyString
                             event_listener_state)) 0 = Some bp' /\
    lookup "event" (params_of bp') = Some EmptyString.
Proof.
  destruct (editParameter_sets_override 0 event_listener_blueprint "event" EmptyString
              event_listener_state eq_refl) as (bp' & H1 & _ & _ & _ & H2 & _).
  exists bp'. split; [exact H1 | exact H2].
Defined.


(** X23.  What is added to the library can be found.  After a custom
    snippet went through, it is the last snippet of the library, and a
    search term that occurs in its name or its description, in any letter
    case, lists it under [All] and under its own category. *)
Theorem added_snippet_is_found (now : nat) (rnd searchTerm : string) (st : AppState) :
  form_name (newSnippet st) <> EmptyString ->
  form_code (newSnippet st) <> EmptyString ->
  is_substring (toLowerCase searchTerm) (toLowerCase (form_name (newSnippet st))) \/
  is_substring (toLowerCase searchTerm) (toLowerCase (form_description (newSnippet st))) ->
  let st' := fst (addCustomSnippet now rnd st) in
  exists s,
    allSnippets st' = (allSnippets st ++ [s])%list /\
    name s = form_name (newSnippet st) /\
    In s (filteredSnippets searchTerm "All" st') /\
    In s (filteredSnippets searchTerm (form_category (newSnippet st)) st').
Proof.
  intros Hn Hc Hm st'. unfold st', addCustomSnippet.
  destruct (form_name (newSnippet st)) as [|c1 n1] eqn:En; [congruence|].
  destruct (form_code (newSnippet st)) as [|c2 n2] eqn:Ec; [congruence|].
  cbn [is_empty orb fst]. eexists. unfold allSnippets. cbn [customSnippets].
  split; [now rewrite app_assoc|]. split; [reflexivity|].
  assert (I : forall cat, (cat =? "All") || (form_category (newSnippet st) =? cat) = true ->
            In {| snippet_id := custom_id now rnd; name := String c1 n1;
                  description := form_description (newSnippet st);
                  category := form_category (newSnippet st); code := String c2 n2;
                  parameters := Some (parse_parameters (form_parameters (newSnippet st)));
                  isCustom := Some true |}
               (filteredSnippets searchTerm cat
                  {| blueprints := blueprints st; generatedScript := generatedScript st;
                     customSnippets :=
                       (customSnippets st ++
                        [{| snippet_id := custom_id now rnd; name := String c1 n1;
                            description := form_description (newSnippet st);
                            category := form_category (newSnippet st); code := String c2 n2;
                            parameters :=
                              Some (parse_parameters (form_parameters (newSnippet st)));
                            isCustom := Some true |}])%list;
                     globalConfig := globalConfig st; syntaxErrors := syntaxErrors st;
                     draggedItem := draggedItem st; isAddSnippetOpen := false;
                     newSnippet := blank_form |})).
  { intros cat Hcat. unfold filteredSnippets, allSnippets. cbn [customSnippets].
    apply filter_In. split.
    - apply in_or_app. right. apply in_or_app. right. now left.
    - cbn [name description category]. rewrite Hcat, andb_true_r.
      apply orb_true_iff. rewrite !includes_spec. exact Hm. }
  split; apply I; [reflexivity | now rewrite String.eqb_refl, orb_true_r].
Qed.

Lemma added_snippet_is_found_witness :
  exists s,
    allSnippets (fst (addCustomSnippet 7 "k3" (state_with_form (log_form "Log" "a, ,b")))) =
      (allSnippets (state_with_form (log_form "Log" "a, ,b")) ++ [s])%list /\
    name s = "Log" /\
    In s (filteredSnippets "LOG" "All"
            (fst (addCustomSnippet 7 "k3" (state_with_form (log_form "Log" "a, ,b"))))).
Proof.
  destruct (added_snippet_is_found 7 "k3" "LOG" (state_with_form (log_form "Log" "a, ,b")))
    as (s & H1 & H2 & H3 & _).
  - discriminate.
  - discriminate.
  - left. exists EmptyString, EmptyString. reflexivity.
  - exists s. split; [exact H1|]. split; [exact H2 | exact H3].
Defined.

(** ** A drop of data that no card wrote *)

Section ForeignDrop.

Lemma mapi_from_map {A B C : Type} (f : B -> nat -> C) (g : A -> B) (start : nat) (l : list A) :
  mapi_from f start (map g l) = mapi_from (fun a index => f (g a) index) start l.
Proof.
  revert start; induction l as [|a l IH]; intros start; [reflexivity|].
  cbn [map mapi_from]. now rewrite IH.
Qed.

Lemma mapi_from_Some {A B : Type} (f : A -> nat -> B) (start : nat) (l : list A) :
  mapi_from (fun a index => Some (f a index)) start l = map Some (mapi_from f start l).
Proof.
  revert start; induction l as [|a l IH]; intros start; [reflexivity|].
  cbn [map mapi_from]. now rewrite IH.
Qed.

Lemma splice_remove_map {A B : Type} (g : A -> B) (i : nat) (l : list A) :
  splice_remove i (map g l) = map g (splice_remove i l).
Proof. unfold splice_remove. now rewrite map_app, firstn_map, skipn_map. Qed.

Lemma splice_insert_map {A B : Type} (g : A -> B) (j : nat) (x : A) (l : list A) :
  splice_insert j (g x) (map g l) = map g (splice_insert j x l).
Proof. unfold splice_insert. rewrite map_app. cbn [map]. now rewrite firstn_map, skipn_map. Qed.

Lemma splice_insert_clamped {A : Type} (j : nat) (x : A) (l : list A) :
  splice_insert (Nat.min j (List.length l)) x l = splice_insert j x l.
Proof.
  destruct (Nat.le_gt_cases j (List.length l)) as [H|H].
  - now rewrite Nat.min_l.
  - rewrite Nat.min_r by lia. unfold splice_insert.
    rewrite !firstn_all2, !skipn_all2 by lia. reflexivity.
Qed.

Lemma placements_mapi_any (start : nat) (l : list (option Blueprint)) :
  map (option_map placement)
      (mapi_from (fun bp index => option_map (fun b => set_order b index) bp) start l) =
  map (option_map placement) l.
Proof.
  revert start; induction l as [|x l IH]; intros start; [reflexivity|].
  cbn [mapi_from map]. rewrite IH. now destruct x.
Qed.

End ForeignDrop.

(** X24.  [handleDrop] trusts the drag data.  For the data a card wrote,
    the list it leaves is the reordered list.  For data without a decimal
    index, as when something other than a card is dropped on a card, the
    first blueprint is taken out of the list and an entry that is no
    blueprint, having neither id nor snippet, is put at the place of the
    drop. *)
Theorem drop_trusts_drag_data (dt : DataTransfer) (dropIndex : nat) (st : AppState) :
  (forall dragIndex bps,
     parseInt (getData "text/plain" dt) = Some (Z.of_nat dragIndex) ->
     handleDrop dragIndex dropIndex st = Some bps ->
     cards_after_drop dt dropIndex st = map Some (blueprints bps)) /\
  (forall first rest,
     parseInt (getData "text/plain" dt) = None ->
     blueprints st = first :: rest ->
     map (option_map placement) (cards_after_drop dt dropIndex st) =
       splice_insert dropIndex None (map (fun bp => Some (placement bp)) rest) /\
     List.length (cards_after_drop dt dropIndex st) = List.length (blueprints st)).
Proof.
  split.
  - intros dragIndex bps P H. unfold cards_after_drop. rewrite P.
    unfold handleDrop in H. revert H.
    destruct (Nat.eqb_spec dragIndex dropIndex) as [->|N]; cbn [negb]; intros H.
    + rewrite Z.eqb_refl. injection H as H. subst bps. reflexivity.
    + destruct (Z.eqb_spec (Z.of_nat dragIndex) (Z.of_nat dropIndex)) as [E|_]; [lia|].
      unfold reorderBlueprints in H.
      destruct (nth_error (blueprints st) dragIndex) as [moved|] eqn:E; [|discriminate].
      injection H as <-. cbn [blueprints set_draggedItem set_blueprints].
      assert (Hi : dragIndex < List.length (blueprints st))
        by (apply nth_error_Some; congruence).
      unfold reorderBlueprints_any, element_at, splice_start.
      rewrite (proj2 (Z.leb_le 0 (Z.of_nat dragIndex))) by lia.
      destruct (Z.ltb_spec (Z.of_nat dragIndex) 0) as [?|_]; [lia|].
      destruct (Z.ltb_spec (Z.of_nat dropIndex) 0) as [?|_]; [lia|].
      rewrite !Nat2Z.id, E, length_map, (Nat.min_l dragIndex) by lia.
      rewrite splice_insert_clamped, splice_remove_map, splice_insert_map.
      unfold mapi. rewrite mapi_from_map. cbn [option_map].
      apply (mapi_from_Some (fun b index => set_order b index)).
  - intros first rest P B. unfold cards_after_drop. rewrite P, B.
    unfold reorderBlueprints_any, element_at, splice_start.
    destruct (Z.ltb_spec (Z.of_nat dropIndex) 0) as [?|_]; [lia|].
    rewrite Nat2Z.id, splice_insert_clamped.
    cbn [map splice_remove firstn skipn List.app].
    change (splice_remove 0 (Some first :: map Some rest)) with (map Some rest).
    unfold mapi. split.
    + rewrite placements_mapi_any.
      rewrite <- (splice_insert_map (option_map placement) dropIndex None).
      now rewrite map_map.
    + assert (L : forall (l : list (option Blueprint)) start,
                List.length (mapi_from (fun bp index =>
                               option_map (fun b => set_order b index) bp) start l) =
                List.length l).
      { induction l as [|x l IH]; intros start; [reflexivity|].
        cbn [mapi_from List.length]. now rewrite IH. }
      rewrite L, length_splice_insert, length_map. reflexivity.
Qed.

Lemma drop_trusts_drag_data_witness :
  map (option_map placement)
      (cards_after_drop {| effectAllowed := "copy"; dropEffect := "none"; items := [] |} 1
         (state_of [sample_blueprint "a()" 0 []; sample_blueprint "b()" 1 [];
                    sample_blueprint "c()" 2 []] [])) =
  [Some (placement (sample_blueprint "b()" 1 [])); None;
   Some (placement (sample_blueprint "c()" 2 []))].
Proof.
  destruct (drop_trusts_drag_data {| effectAllowed := "copy"; dropEffect := "none"; items := [] |}
              1 (state_of [sample_blueprint "a()" 0 []; sample_blueprint "b()" 1 [];
                           sample_blueprint "c()" 2 []] [])) as [_ H].
  destruct (H (sample_blueprint "a()" 0 [])
              [sample_blueprint "b()" 1 []; sample_blueprint "c()" 2 []] eq_refl eq_refl)
    as [E _].
  exact E.
Defined.


(** ** The code shown on a card *)

Section Preview.

Lemma join_app (sep : string) (a b : list string) :
  a <> [] -> b <> [] -> join sep (a ++ b) = join sep a ++ sep ++ join sep b.
Proof.
  intros Ha Hb. induction a as [|x a IH]; [congruence|].
  destruct a as [|y a].
  - cbn [List.app]. now rewrite join_cons.
  - change ((x :: y :: a) ++ b)%list with (x :: (y :: a) ++ b)%list.
    rewrite join_cons by discriminate. rewrite IH by discriminate.
    rewrite (join_cons sep x (y :: a)) by discriminate. now rewrite !append_assoc.
Qed.

Lemma count_separators (sep : ascii) (parts : list string) :
  Forall (fun p => count_char sep p = 0) parts ->
  count_char sep (join (String sep EmptyString) parts) = List.length parts - 1.
Proof.
  induction 1 as [|x l Hx F IH]; [reflexivity|].
  destruct l as [|y l].
  - unfold join. cbn [String.concat List.length]. rewrite Hx. reflexivity.
  - rewrite join_cons by discriminate. rewrite !count_char_append, Hx, IH.
    cbn [count_char List.length]. rewrite Ascii.eqb_refl. lia.
Qed.

End Preview.

(** X25.  The code shown on a card is the snippet's code itself when it
    has at most five lines; otherwise it is the first five lines of the
    code, which have four line feeds between them, followed by a line of
    three dots. *)
Theorem code_preview_shows_first_lines (code : string) :
  (List.length (split (ascii_of_nat 10) code) <= 5 -> code_preview code = code) /\
  (5 < List.length (split (ascii_of_nat 10) code) ->
   exists shown rest,
     code = shown ++ LF ++ rest /\
     count_char (ascii_of_nat 10) shown = 4 /\
     code_preview code = shown ++ LF ++ "...").
Proof.
  unfold code_preview. split; intros H.
  - destruct (Nat.ltb_spec 5 (List.length (split (ascii_of_nat 10) code))); [lia|].
    rewrite firstn_all2 by exact H. rewrite append_nil_r. apply join_split.
  - destruct (Nat.ltb_spec 5 (List.length (split (ascii_of_nat 10) code))); [|lia].
    exists (join LF (firstn 5 (split (ascii_of_nat 10) code))),
           (join LF (skipn 5 (split (ascii_of_nat 10) code))).
    split; [|split; [|reflexivity]].
    + rewrite <- (join_split (ascii_of_nat 10) code) at 1.
      rewrite <- (firstn_skipn 5 (split (ascii_of_nat 10) code)) at 1.
      apply join_app.
      * intros E. apply (f_equal (@List.length string)) in E.
        rewrite length_firstn in E. cbn [List.length] in E. lia.
      * intros E. apply (f_equal (@List.length string)) in E.
        rewrite length_skipn in E. cbn [List.length] in E. lia.
    + unfold LF. rewrite count_separators.
      * rewrite length_firstn. lia.
      * apply Forall_forall. intros p Hp.
        apply (proj1 (Forall_forall _ _) (split_pieces (ascii_of_nat 10) code) p).
        rewrite <- (firstn_skipn 5 (split (ascii_of_nat 10) code)).
        apply in_or_app. now left.
Qed.

Lemma code_preview_shows_first_lines_witness :
  exists shown rest,
    code dom_element_selector = shown ++ LF ++ rest /\
    code_preview (code dom_element_selector) = shown ++ LF ++ "...".
Proof.
  destruct (proj2 (code_preview_shows_first_lines (code dom_element_selector)))
    as (shown & rest & E & _ & P).
  - vm_compute. lia.
  - exists shown, rest. split; [exact E | exact P].
Defined.


(** ** The order of the entries *)

Section EntryOrder.

Lemma lookup_permuted {V : Type} (key : string) (entries entries' : list (string * V)) :
  NoDup (map fst entries) -> Permutation entries entries' ->
  lookup key entries' = lookup key entries.
Proof.
  intros ND P.
  assert (ND' : NoDup (map fst entries')) by exact (Permutation_NoDup (Permutation_map fst P) ND).
  destruct (lookup key entries) as [x|] eqn:E.
  - apply lookup_In; [exact ND'|]. apply (Permutation_in _ P).
    clear ND ND' P. induction entries as [|[k y] r IH]; cbn [lookup] in E; [discriminate|].
    destruct (String.eqb_spec k key) as [->|_].
    + injection E as ->. now left.
    + right. now apply IH.
  - apply lookup_not_In. intros I.
    apply (Permutation_in _ (Permutation_sym (Permutation_map fst P))) in I.
    destruct (In_lookup_Some _ _ I) as [x Hx]. congruence.
Qed.

Lemma plain_entries_permuted {V : Type} (text : V -> string) (entries entries' : list (string * V)) :
  Permutation entries entries' ->
  plain_entries text entries = true -> plain_entries text entries' = true.
Proof.
  unfold plain_entries. intros P H. apply forallb_forall. intros e He.
  exact (proj1 (forallb_forall _ _) H e (Permutation_in _ (Permutation_sym P) He)).
Qed.

End EntryOrder.

(** X26.  The order in which values were entered does not matter.  For a
    code made of text and placeholder tokens as in C2, with plain
    identifiers as keys, distinct within each table, and values free of
    percent and dollar signs, processing gives the same code for any order
    of the entries of the override mapping and of the configuration
    table. *)
Theorem entry_order_is_irrelevant (t : Template) (params params' : list (string * string))
    (config config' : GlobalConfig) :
  well_formed t = true ->
  plain_entries (fun v => v) params = true ->
  plain_entries value config = true ->
  NoDup (map fst params) ->
  NoDup (map fst config) ->
  Permutation params params' ->
  Permutation config config' ->
  processSnippetCode (render t) params' config' = processSnippetCode (render t) params config.
Proof.
  intros Hw Hp Hc Np Nc Pp Pc.
  rewrite (processSnippetCode_fill t params config Hw Hp Hc).
  rewrite (processSnippetCode_fill t params' config' Hw
             (plain_entries_permuted _ _ _ Pp Hp) (plain_entries_permuted _ _ _ Pc Hc)).
  f_equal. apply fill_ext. intros hole. unfold resolve.
  now rewrite (lookup_permuted hole params params' Np Pp),
              (lookup_permuted hole config config' Nc Pc).
Qed.

Lemma entry_order_is_irrelevant_witness :
  processSnippetCode (render event_listener_template)
    [("handler", "onClick"); ("event", "'click'")] [] =
  processSnippetCode (render event_listener_template) click_params [].
Proof.
  apply (entry_order_is_irrelevant event_listener_template click_params
           [("handler", "onClick"); ("event", "'click'")] [] []).
  - reflexivity.
  - reflexivity.
  - reflexivity.
  - repeat constructor; cbn; intuition discriminate.
  - constructor.
  - apply perm_swap.
  - constructor.
Defined.


(** ** Override values that hold tokens *)

Section Grafting.















End Grafting.





(** ** Where a run of events ends *)

Section RunEnds.

Lemma nth_error_on_screen {A : Type} (l : list A) (k : nat) :
  (k <? List.length l)%nat = true -> exists x, nth_error l k = Some x.
Proof.
  intros H. apply Nat.ltb_lt in H. destruct (nth_error l k) as [x|] eqn:E; [now exists x|].
  apply nth_error_None in E. lia.
Qed.

Lemma reorder_without_blueprint (dragIndex : option Z) (hoverIndex : nat)
    (prev : list Blueprint) :
  element_at prev dragIndex = None ->
  In None (reorderBlueprints_any dragIndex hoverIndex prev).
Proof.
  intros E. unfold reorderBlueprints_any. rewrite E. unfold mapi.
  match goal with |- In None (mapi_from ?f 0 ?l) =>
    assert (I : In None (map (option_map placement) (mapi_from f 0 l)))
  end.
  { rewrite placements_mapi_any. apply in_map_iff. exists None. split; [reflexivity|].
    unfold splice_insert. apply in_or_app. right. now left. }
  apply in_map_iff in I as ([b|] & Hb & Hin); [discriminate | exact Hin].
Qed.

Lemma cards_after_index_drop (dt : DataTransfer) (dragIndex dropIndex : nat)
    (st st' : AppState) :
  parseInt (getData "text/plain" dt) = Some (Z.of_nat dragIndex) ->
  handleDrop dragIndex dropIndex st = Some st' ->
  cards_after_drop dt dropIndex st = map Some (blueprints st').
Proof.
  intros P H. unfold cards_after_drop. rewrite P.
  unfold handleDrop in H. revert H.
  destruct (Nat.eqb_spec dragIndex dropIndex) as [->|N]; cbn [negb]; intros H.
  - rewrite Z.eqb_refl. injection H as H. subst st'. reflexivity.
  - destruct (Z.eqb_spec (Z.of_nat dragIndex) (Z.of_nat dropIndex)) as [E|_]; [lia|].
    unfold reorderBlueprints in H.
    destruct (nth_error (blueprints st) dragIndex) as [moved|] eqn:E; [|discriminate].
    injection H as <-. cbn [blueprints set_draggedItem set_blueprints].
    assert (Hi : dragIndex < List.length (blueprints st))
      by (apply nth_error_Some; congruence).
    unfold reorderBlueprints_any, element_at, splice_start.
    rewrite (proj2 (Z.leb_le 0 (Z.of_nat dragIndex))) by lia.
    destruct (Z.ltb_spec (Z.of_nat dragIndex) 0) as [?|_]; [lia|].
    destruct (Z.ltb_spec (Z.of_nat dropIndex) 0) as [?|_]; [lia|].
    rewrite !Nat2Z.id, E, length_map, (Nat.min_l dragIndex) by lia.
    rewrite splice_insert_clamped, splice_remove_map, splice_insert_map.
    unfold mapi. rewrite mapi_from_map. cbn [option_map].
    apply (mapi_from_Some (fun b index => set_order b index)).
Qed.

Lemma drop_goes_through (dt : DataTransfer) (dropIndex : nat) (st st' : AppState) :
  handleDrop_event dt dropIndex st = Some st' ->
  cards_after_drop dt dropIndex st = map Some (blueprints st').
Proof.
  unfold handleDrop_event.
  destruct (parseInt (getData "text/plain" dt)) as [z|] eqn:P; [|discriminate].
  destruct (Z.leb_spec 0 z) as [Hz|_]; [|discriminate]. intros H.
  apply (cards_after_index_drop dt (Z.to_nat z)); [|exact H].
  now rewrite Z2Nat.id.
Qed.

Lemma drop_stops (dt : DataTransfer) (dropIndex : nat) (st : AppState) :
  handleDrop_event dt dropIndex st = None ->
  In None (cards_after_drop dt dropIndex st).
Proof.
  unfold handleDrop_event, cards_after_drop.
  destruct (parseInt (getData "text/plain" dt)) as [z|] eqn:P.
  - destruct (Z.leb_spec 0 z) as [Hz|Hz].
    + unfold handleDrop. destruct (Nat.eqb_spec (Z.to_nat z) dropIndex) as [E|N]; cbn [negb];
        [discriminate|].
      unfold reorderBlueprints.
      destruct (nth_error (blueprints st) (Z.to_nat z)) eqn:E; [discriminate|]. intros _.
      destruct (Z.eqb_spec z (Z.of_nat dropIndex)) as [Ez|_]; [elim N; lia|].
      apply reorder_without_blueprint. unfold element_at.
      now rewrite (proj2 (Z.leb_le 0 z)) by lia.
    + intros _. destruct (Z.eqb_spec z (Z.of_nat dropIndex)) as [Ez|_]; [lia|].
      apply reorder_without_blueprint. unfold element_at.
      destruct (Z.leb_spec 0 z); [lia | reflexivity].
  - intros _. now apply reorder_without_blueprint.
Qed.

Lemma handle_stops (e : Event) (st : AppState) :
  on_screen e st = true ->
  handle e st = None ->
  (exists dt dropCard, e = DropData dt dropCard /\ In None (cards_after_drop dt dropCard st)) \/
  (exists now, e = ClickGenerate now /\ generateScript now st = Unmodelled).
Proof.
  destruct e as [now rnd term cat card|card|card param v|card|dt j|now|field v|item|open|
                 now rnd| |row field v|row]; cbn [on_screen handle]; intros S H;
    try discriminate.
  - destruct (nth_error_on_screen _ _ S) as [x E]. rewrite E in H. discriminate.
  - destruct (nth_error_on_screen _ _ S) as [x E]. rewrite E in H. discriminate.
  - destruct (nth_error (blueprints st) card) as [bp|]; [|discriminate].
    destruct (parameters (snippet bp)) as [ps|]; [|discriminate].
    rewrite S in H. discriminate.
  - destruct (nth_error_on_screen _ _ S) as [x E]. rewrite E in H. discriminate.
  - rewrite S in H. left. exists dt, j. split; [reflexivity | now apply drop_stops].
  - right. exists now. split; [reflexivity|].
    destruct (generateScript now st) as [[st1 toast]| |]; try discriminate. reflexivity.
  - destruct (nth_error_on_screen _ _ S) as [x E]. rewrite E in H. discriminate.
  - destruct (nth_error_on_screen _ _ S) as [[key x] E]. rewrite E in H.
    unfold updateGlobalConfigVar in H.
    destruct (lookup key (globalConfig st)) eqn:L; [discriminate|].
    apply nth_error_In in E.
    destruct (In_lookup_Some key (globalConfig st)) as [y Hy]; [|congruence].
    apply in_map_iff. now exists (key, x).
  - destruct (nth_error_on_screen _ _ S) as [[key x] E]. rewrite E in H. discriminate.
Qed.

End RunEnds.

(** X21.  Every state that a run of events reaches from the initial state
    is coherent: the warnings shown are those of the script shown, which is
    empty or starts with the header line, the keys of the configuration
    table are distinct plain identifiers, custom snippets have a name, a
    code and a category of the select, and every blueprint holds a snippet
    of the library with parameter keys that the library declares.  In such
    a state generation returns, for every date, unless some custom snippet
    declares a parameter name with a character that is special in a regular
    expression.  A run does not go on in two cases only, for an event whose
    control is on the screen: a drop whose data leaves an entry that is no
    blueprint in the list, and a generation that meets a pattern left
    uninterpreted; a drop that goes on leaves the list the code builds. *)
Theorem reachable_states_generate (events : list Event) (st : AppState) :
  run_events events empty_state = Some st ->
  coherent st /\
  (Forall (fun s => forallb regex_free (declared s) = true) (customSnippets st) ->
   forall now, exists st' toast, generateScript now st = Normal (st', toast)) /\
  (forall e, on_screen e st = true -> handle e st = None ->
     (exists dt dropCard,
        e = DropData dt dropCard /\ In None (cards_after_drop dt dropCard st)) \/
     (exists now, e = ClickGenerate now /\ generateScript now st = Unmodelled)) /\
  (forall dt dropCard st',
     handle (DropData dt dropCard) st = Some st' ->
     cards_after_drop dt dropCard st = map Some (blueprints st')).
Proof.
  intros R. pose proof (run_events_coherent events _ _ initial_coherent R) as C.
  split; [exact C|]. split; [|split].
  - intros Hn now.
    pose proof (coherent_literal_placeholders st C Hn) as L.
    destruct (blueprints st) as [|b l] eqn:B.
    + unfold generateScript. rewrite B. cbn [List.length Nat.eqb]. do 2 eexists. reflexivity.
    + destruct (blocks_normal st L) as (blocks & M & _).
      destruct (generateScript_nonempty now st blocks) as (toast & G & _);
        [rewrite B; discriminate | exact M |].
      do 2 eexists. exact G.
  - intros e. apply handle_stops.
  - intros dt dropCard st' H. cbn [handle] in H.
    destruct (dropCard <? List.length (blueprints st))%nat; [|discriminate].
    now apply drop_goes_through.
Qed.

Lemma reachable_states_generate_witness :
  exists st,
    run_events [ClickAdd 1 "a" "dom" "All" 0; TypeParameter 0 "selector" "'#app'";
                ClickAddVariable; TypeVariable 0 field_value "5";
                TypeInForm input_name "Log"; TypeInForm input_code "console.log(%x%);";
                TypeInForm input_parameters "x"; ClickAddSnippet 2 "b";
                ClickAdd 3 "c" "" "Custom" 0; DragStart 1;
                DropData {| effectAllowed := "move"; dropEffect := "move";
                            items := [("text/html", "blueprint-3-c"); ("text/plain", "1")] |} 0;
                DropData {| effectAllowed := "copy"; dropEffect := "copy";
                            items := [("text/plain", " 1 apple")] |} 0;
                ClickGenerate "2024-01-01T00:00:00.000Z"] empty_state = Some st /\
    coherent st.
Proof.
  assert (R : exists st,
            run_events [ClickAdd 1 "a" "dom" "All" 0; TypeParameter 0 "selector" "'#app'";
                        ClickAddVariable; TypeVariable 0 field_value "5";
                        TypeInForm input_name "Log";
                        TypeInForm input_code "console.log(%x%);";
                        TypeInForm input_parameters "x"; ClickAddSnippet 2 "b";
                        ClickAdd 3 "c" "" "Custom" 0; DragStart 1;
                        DropData {| effectAllowed := "move"; dropEffect := "move";
                                    items := [("text/html", "blueprint-3-c");
                                              ("text/plain", "1")] |} 0;
                        DropData {| effectAllowed := "copy"; dropEffect := "copy";
                                    items := [("text/plain", " 1 apple")] |} 0;
                        ClickGenerate "2024-01-01T00:00:00.000Z"] empty_state = Some st).
  { vm_compute. eexists. reflexivity. }
  destruct R as [st R]. exists st. split; [exact R|].
  exact (proj1 (reachable_states_generate _ st R)).
Defined.
